(** * VisNet: the network engine and the dataset generator

    A shallow embedding of [src/services/neuralNet.ts] (the class
    [MiniNeuralNet] and the function [generateData]) together with the
    type declarations it imports, and the properties of the engine that
    the specification states.  The definitions and the last part of the
    file add the driver of [src/App.tsx] ([resetNetwork], [performStep],
    the fast-mode frame of [gameLoop], [handleManualStep]) and the
    layer-list handlers of [src/components/Controls.tsx], with further
    properties of the code.

    ** Modelling choices

    - A JavaScript [number] is an element of an abstract carrier [num]
      with the operations the source applies to it ([Arith]).  No
      algebraic law is assumed, so every theorem proved in the generic
      sections holds for IEEE-754 doubles (instance [float_arith]) as well
      as for exact real arithmetic (instance [R_arith]).  The order of
      the additions in every sum is the order of the source loop.
    - [Math.exp], [Math.tanh], [Math.cos] and [Math.sin] are
      implementation-approximated in ECMAScript; they are the fields of a
      second interface ([MathLib]).  [Math.random] is a stream
      [Math_random : nat -> num] together with the number of draws made so
      far, which the functions that draw thread explicitly.
    - Arrays are lists.  A read or an in-place write outside an array
      (JavaScript: [undefined], then [NaN], a [TypeError], or a grown
      array) makes the operation return [None]; the operations on engines
      built by the constructor and called within their contract never do
      so, which the theorems state as [Some] results.
    - The React references and state of [App] are passed explicitly: a
      handler takes the references ([Driver]) and the previous statistics
      and returns the new ones.
    - What is stated of doubles is proved from the specification of
      binary64 in the Standard Library ([SpecFloat], to which
      [FloatAxioms] ties the primitive floats); an integer denotes the
      double nearest to it.
    - Neuron counts are [nat], the batch size and the batch counter are
      [Z].  The enumerations [ActivationType] and [DatasetType] are the
      strings they are at run time. *)

From Stdlib Require Import ZArith QArith Reals Lra Lia String Ascii DecimalString.
From Stdlib Require Import DecimalNat.
From Stdlib Require Import Floats.FloatClass Floats.PrimFloat Floats.SpecFloat
  Floats.FloatOps Floats.FloatAxioms Uint63.
From stdpp Require Import base option list strings.

Local Open Scope string_scope.
Local Open Scope list_scope.
Local Open Scope nat_scope.
Unset Default Proof Using.

(** ** Numbers *)

(** The arithmetic of a JavaScript [number], as far as the source uses it. *)
Class Arith := {
  num : Type;
  (** a numeric literal, or an integer-valued number such as an index *)
  lit : Q -> num;
  add : num -> num -> num;
  sub : num -> num -> num;
  mul : num -> num -> num;
  div : num -> num -> num;
  neg : num -> num;
  (** [a < b]; the source's [a > b] is [lt b a] *)
  lt : num -> num -> bool;
  (** [a <= b]; the source never uses it, the statements about ranges do *)
  le : num -> num -> bool;
  (** [Math.max(a, b)] *)
  Math_max : num -> num -> num;
  (** [Math.PI] *)
  Math_PI : num;
}.

Arguments lit {_} q%_Q.

Declare Scope js_scope.
Delimit Scope js_scope with js.
Bind Scope js_scope with num.
Infix "+" := add : js_scope.
Infix "-" := sub : js_scope.
Infix "*" := mul : js_scope.
Infix "/" := div : js_scope.
Notation "- x" := (neg x) : js_scope.
Notation "x <? y" := (lt x y) : js_scope.
Notation "x >? y" := (lt y x) (at level 70, no associativity) : js_scope.
Notation "x <=? y" := (le x y) : js_scope.

(** The functions of [Math] whose results ECMAScript leaves to the
    implementation. *)
Class MathLib (A : Arith) := {
  Math_exp : num -> num;
  Math_tanh : num -> num;
  Math_cos : num -> num;
  Math_sin : num -> num;
}.

Arguments Math_exp {A _} x.
Arguments Math_tanh {A _} x.
Arguments Math_cos {A _} x.
Arguments Math_sin {A _} x.

(** ** Loops and array accesses *)

(** [for (x of xs) { s = f(s, x) }] where the body may fail. *)
Fixpoint foldM {S X : Type} (f : S -> X -> option S) (s : S) (xs : list X)
  : option S :=
  match xs with
  | [] => Some s
  | x :: xs => s' ← f s x; foldM f s' xs
  end.

(** [l[i] = f(l[i])] in place, for an index inside the array. *)
Definition upd {X : Type} (i : nat) (f : X -> option X) (l : list X)
  : option (list X) :=
  x ← l !! i; y ← f x; Some (<[i := y]> l).

(** [l[i] = v] in place. *)
Definition set1 {X : Type} (i : nat) (v : X) (l : list X) : option (list X) :=
  upd i (λ _, Some v) l.

(** [l[i][j] = v] in place. *)
Definition set2 {X : Type} (i j : nat) (v : X) (l : list (list X))
  : option (list (list X)) :=
  upd i (set1 j v) l.

(** [l[i][j][k] = v] in place. *)
Definition set3 {X : Type} (i j k : nat) (v : X) (l : list (list (list X)))
  : option (list (list (list X))) :=
  upd i (upd j (set1 k v)) l.

(** [l[i][j] = f(l[i][j])] in place (the source's [+=] and [-=]). *)
Definition upd2 {X : Type} (i j : nat) (f : X -> X) (l : list (list X))
  : option (list (list X)) :=
  upd i (upd j (λ x, Some (f x))) l.

(** [l[i][j][k] = f(l[i][j][k])] in place. *)
Definition upd3 {X : Type} (i j k : nat) (f : X -> X)
  (l : list (list (list X))) : option (list (list (list X))) :=
  upd i (upd j (upd k (λ x, Some (f x)))) l.

(** [l[i][j]] *)
Definition get2 {X : Type} (l : list (list X)) (i j : nat) : option X :=
  row ← l !! i; row !! j.

(** [l[i][j][k]] *)
Definition get3 {X : Type} (l : list (list (list X))) (i j k : nat)
  : option X :=
  m ← l !! i; row ← m !! j; row !! k.

(** An index computed as a possibly negative number ([length - 1]):
    [l[-1]] is [undefined]. *)
Definition js_index (z : Z) : option nat :=
  if (0 <=? z)%Z then Some (Z.to_nat z) else None.

(** [`${n}`] for a natural number. *)
Definition show_nat (n : nat) : string :=
  NilEmpty.string_of_uint (Nat.to_uint n).

(** ** The types of [types.ts] *)

Definition ActivationType := string.
Definition SIGMOID : ActivationType := "SIGMOID".
Definition RELU : ActivationType := "RELU".
Definition TANH : ActivationType := "TANH".

Definition DatasetType := string.
Definition XOR : DatasetType := "XOR".
Definition CIRCLE : DatasetType := "CIRCLE".
Definition QUADRANTS : DatasetType := "QUADRANTS".

Record LayerConfig := {
  neurons : nat;
  activation : ActivationType;
}.

Module Neuron.
Record t `{Arith} := {
    id : string;
    layerIndex : nat;
    neuronIndex : nat;
    activation : num;
    preActivation : num;
    bias : num;
    gradient : num;
    position : num * num * num;
  }.
End Neuron.

Module Connection.
Record t `{Arith} := {
    id : string;
    sourceId : string;
    targetId : string;
    weight : num;
    gradient : num;
    sourcePos : num * num * num;
    targetPos : num * num * num;
  }.
End Connection.

Record DataPoint `{Arith} := {
  inputs : list num;
  target : list num;
}.

(** The fields of the class [MiniNeuralNet]. *)
Record MiniNeuralNet `{Arith} := {
  layers : list LayerConfig;
  weights : list (list (list num));
  biases : list (list num);
  activations : list (list num);
  preActivations : list (list num);
  neuronGradients : list (list num);
  weightGradients : list (list (list num));
  learningRate : num;
  batchSize : Z;
  currentBatchCount : Z;
  accWeightGradients : list (list (list num));
  accBiasGradients : list (list num);
}.

(** What [getVisualizationData] returns. *)
Record Snapshot `{Arith} := {
  snap_neurons : list Neuron.t;
  snap_connections : list Connection.t;
}.

(** ** Activation functions (lines 4-11) *)

Section Activations.
Context {A : Arith}.
Local Open Scope js_scope.

Definition sigmoid {ML : MathLib A} (x : num) : num :=
    lit 1 / (lit 1 + Math_exp (- x)).
Definition sigmoidDerivative (x : num) : num := x * (lit 1 - x).

Definition relu (x : num) : num := Math_max (lit 0) x.
Definition reluDerivative (x : num) : num :=
    if x >? lit 0 then lit 1 else lit 0.

Definition tanh {ML : MathLib A} (x : num) : num := Math_tanh x.
Definition tanhDerivative (x : num) : num := lit 1 - (x * x).

  (** The [switch] of [forward] (lines 130-135): [val] starts at [0] and
      no [case] assigns it for a kind outside the enumeration. *)
Definition activate {ML : MathLib A} (kind : ActivationType) (sum : num)
    : num :=
    if decide (kind = SIGMOID) then sigmoid sum
    else if decide (kind = RELU) then relu sum
    else if decide (kind = TANH) then tanh sum
    else lit 0.

  (** The [switch] of [train] (lines 159-166 and 201-209), on the
      activation [a] and the pre-activation [z] of the neuron. *)
Definition activationPrime (kind : ActivationType) (a z : num) : num :=
    if decide (kind = SIGMOID) then sigmoidDerivative a
    else if decide (kind = RELU) then reluDerivative z
    else if decide (kind = TANH) then tanhDerivative a
    else lit 0.
End Activations.

(** ** The engine: class [MiniNeuralNet] *)

Section Engine.
Context {A : Arith} {ML : MathLib A}.
Local Open Scope js_scope.

(** [Math.random()]: the [r]-th draw of the run is [Math_random r]. *)
Variable Math_random : nat -> num.

(** [resetAccumulators] (lines 61-65). *)
Definition resetAccumulators (e : MiniNeuralNet) : MiniNeuralNet :=
  {| layers := layers e;
     weights := weights e;
     biases := biases e;
     activations := activations e;
     preActivations := preActivations e;
     neuronGradients := neuronGradients e;
     weightGradients := weightGradients e;
     learningRate := learningRate e;
     batchSize := batchSize e;
     currentBatchCount := 0;
     accWeightGradients :=
       (λ l : list (list num),
          (λ n : list num, replicate (length n) (lit 0)) <$> l) <$> weights e;
     accBiasGradients :=
       (λ l : list num, replicate (length l) (lit 0)) <$> biases e |}.

(** [updateConfig] (lines 52-59). *)
Definition updateConfig (e : MiniNeuralNet) (learningRate' : num)
    (batchSize' : Z) : MiniNeuralNet :=
  let e1 :=
    {| layers := layers e;
       weights := weights e;
       biases := biases e;
       activations := activations e;
       preActivations := preActivations e;
       neuronGradients := neuronGradients e;
       weightGradients := weightGradients e;
       learningRate := learningRate';
       batchSize := batchSize e;
       currentBatchCount := currentBatchCount e;
       accWeightGradients := accWeightGradients e;
       accBiasGradients := accBiasGradients e |} in
  if decide (batchSize e ≠ batchSize') then
    resetAccumulators
      {| layers := layers e1;
         weights := weights e1;
         biases := biases e1;
         activations := activations e1;
         preActivations := preActivations e1;
         neuronGradients := neuronGradients e1;
         weightGradients := weightGradients e1;
         learningRate := learningRate e1;
         batchSize := batchSize';
         currentBatchCount := 0;
         accWeightGradients := accWeightGradients e1;
         accBiasGradients := accBiasGradients e1 |}
  else e1.

(** [for (k = 0; k < n; k++) arr.push(g(Math.random()))]: the array and
    the number of draws after the loop. *)
Definition random_pushes (g : num -> num) (n r : nat) : list num * nat :=
  ((λ k, g (Math_random (r + k))) <$> seq 0 n, r + n)%nat.

(** [initializeWeights] (lines 67-105), on the engine the constructor has
    just filled with empty arrays; [r] counts the draws made so far. *)
Definition initializeWeights (e : MiniNeuralNet) (r : nat)
  : option (MiniNeuralNet * nat) :=
  '(ws, wgs, bs, ngs, r) ←
    foldM (λ '(ws, wgs, bs, ngs, r) i,
      prev ← layers e !! (i - 1)%nat;
      curr ← layers e !! i;
      let prevNeurons := neurons prev in
      let currNeurons := neurons curr in
      let '(layerWeights, layerWeightGrads, r) :=
        fold_left (λ '(lw, lwg, r) (_ : nat),
          let '(neuronWeights, r) :=
            random_pushes (λ x, x * lit 2 - lit 1) currNeurons r in
          let neuronWeightGrads := replicate currNeurons (lit 0) in
          (lw ++ [neuronWeights], lwg ++ [neuronWeightGrads], r))
          (seq 0 prevNeurons)
          ([] : list (list num), [] : list (list num), r) in
      let '(layerBiases, r) :=
        random_pushes (λ x, x - lit 0.5) currNeurons r in
      let layerNeuronGrads := replicate currNeurons (lit 0) in
      Some (ws ++ [layerWeights], wgs ++ [layerWeightGrads],
            bs ++ [layerBiases], ngs ++ [layerNeuronGrads], r))
      (weights e, weightGradients e, biases e, neuronGradients e, r)
      (seq 1 (length (layers e) - 1));
  l0 ← layers e !! 0%nat;
  Some (resetAccumulators
    {| layers := layers e;
       weights := ws;
       biases := bs;
       activations := activations e;
       preActivations := preActivations e;
       neuronGradients := replicate (neurons l0) (lit 0) :: ngs;
       weightGradients := wgs;
       learningRate := learningRate e;
       batchSize := batchSize e;
       currentBatchCount := currentBatchCount e;
       accWeightGradients := accWeightGradients e;
       accBiasGradients := accBiasGradients e |}, r).

(** The constructor (lines 32-50); an omitted [learningRate] is [0.1], an
    omitted [batchSize] is [1]. *)
Definition new_MiniNeuralNet (layers' : list LayerConfig)
    (learningRate' : option num) (batchSize' : option Z) (r : nat)
  : option (MiniNeuralNet * nat) :=
  initializeWeights
    {| layers := layers';
       weights := [];
       biases := [];
       activations := [];
       preActivations := [];
       neuronGradients := [];
       weightGradients := [];
       learningRate := default (lit 0.1) learningRate';
       batchSize := default 1%Z batchSize';
       currentBatchCount := 0;
       accWeightGradients := [];
       accBiasGradients := [] |} r.

(** [forward] (lines 107-145): the output and the engine with its new
    forward state. *)
Definition forward (e : MiniNeuralNet) (inputs : list num)
  : option (list num * MiniNeuralNet) :=
  '(acts, pres, currentActivations) ←
    foldM (λ '(acts, pres, currentActivations) i,
      layerConfig ← layers e !! (i + 1)%nat;
      layerWeights ← weights e !! i;
      layerBiases ← biases e !! i;
      '(nextActivations, nextPreActivations) ←
        foldM (λ '(nextActivations, nextPreActivations) j,
          b ← layerBiases !! j;
          sum ← foldM (λ sum k,
                   a ← currentActivations !! k;
                   w ← get2 layerWeights k j;
                   Some (sum + a * w))
                 b (seq 0 (length currentActivations));
          let val := activate (activation layerConfig) sum in
          Some (nextActivations ++ [val], nextPreActivations ++ [sum]))
          ([], []) (seq 0 (neurons layerConfig));
      Some (acts ++ [nextActivations], pres ++ [nextPreActivations],
            nextActivations))
      ([inputs], [inputs], inputs) (seq 0 (length (weights e)));
  Some (currentActivations,
    {| layers := layers e;
       weights := weights e;
       biases := biases e;
       activations := acts;
       preActivations := pres;
       neuronGradients := neuronGradients e;
       weightGradients := weightGradients e;
       learningRate := learningRate e;
       batchSize := batchSize e;
       currentBatchCount := currentBatchCount e;
       accWeightGradients := accWeightGradients e;
       accBiasGradients := accBiasGradients e |}).

(** The per-sample gradient arrays of [train] (lines 152-153). *)
Definition zero_neuronGradients (e : MiniNeuralNet) : list (list num) :=
  (λ l, replicate (neurons l) (lit 0)) <$> layers e.
Definition zero_weightGradients (e : MiniNeuralNet)
  : list (list (list num)) :=
  (λ l : list (list num),
     (λ n : list num, replicate (length n) (lit 0)) <$> l) <$> weights e.

(** Step 2 of [train], the output error (lines 155-169), on the
    per-sample neuron gradients [ng]. *)
Definition output_error (e : MiniNeuralNet) (outputs targets : list num)
    (ng : list (list num)) : option (list (list num)) :=
  let outputLayerIdx := (Z.of_nat (length (layers e)) - 1)%Z in
  foldM (λ ng i,
      o ← outputs !! i;
      t ← targets !! i;
      let error := o - t in
      L ← js_index outputLayerIdx;
      z ← get2 (preActivations e) L i;
      l ← layers e !! L;
      set2 L i (error * activationPrime (activation l) o z) ng)
    ng (seq 0 (length outputs)).

(** The body of the loop of step 3, for layer [i] (lines 173-212): the
    weight gradients and their accumulation, the bias accumulation, and
    the error terms of layer [i] when it is not the input layer. *)
Definition backprop_layer (e : MiniNeuralNet)
    (st : list (list num) * list (list (list num)) *
          list (list (list num)) * list (list num)) (i : nat)
  : option (list (list num) * list (list (list num)) *
            list (list (list num)) * list (list num)) :=
  let '(ng, wg, accW, accB) := st in
  prevLayerActivations ← activations e !! i;
  nextLayerGradients ← ng !! (i + 1)%nat;
  wi ← weights e !! i;
  '(wg, accW) ←
    foldM (λ st j,
      wij ← wi !! j;
      foldM (λ '(wg, accW) k,
        d ← nextLayerGradients !! k;
        a ← prevLayerActivations !! j;
        let gradient := d * a in
        wg ← set3 i j k gradient wg;
        accW ← upd3 i j k (λ x, x + gradient) accW;
        Some (wg, accW))
        st (seq 0 (length wij)))
      (wg, accW) (seq 0 (length wi));
  bi ← biases e !! i;
  accB ←
    foldM (λ accB k,
      d ← nextLayerGradients !! k;
      upd2 i k (λ x, x + d) accB)
      accB (seq 0 (length bi));
  ng ←
    (if (0 <? i)%nat then
       li ← layers e !! i;
       foldM (λ ng j,
         lnext ← layers e !! (i + 1)%nat;
         errorSum ←
           foldM (λ errorSum k,
             d ← nextLayerGradients !! k;
             w ← get2 wi j k;
             Some (errorSum + d * w))
             (lit 0) (seq 0 (neurons lnext));
         z ← get2 (preActivations e) i j;
         a ← get2 (activations e) i j;
         set2 i j (errorSum * activationPrime (activation li) a z) ng)
         ng (seq 0 (neurons li))
     else Some ng);
  Some (ng, wg, accW, accB).

(** The update of step 4 (lines 219-233), from the accumulated sums:
    the new weights and biases. *)
Definition apply_update (e : MiniNeuralNet)
    (accW : list (list (list num))) (accB : list (list num))
  : option (list (list (list num)) * list (list num)) :=
  let scaler := lit 1 / lit (inject_Z (batchSize e)) in
  foldM (λ '(ws, bs) i,
    wi ← ws !! i;
    ws ←
      foldM (λ ws j,
        wij ← wi !! j;
        foldM (λ ws k,
          acc ← get3 accW i j k;
          let avgGrad := acc * scaler in
          upd3 i j k (λ w, w - learningRate e * avgGrad) ws)
          ws (seq 0 (length wij)))
        ws (seq 0 (length wi));
    bi ← bs !! i;
    bs ←
      foldM (λ bs k,
        acc ← get2 accB i k;
        let avgGrad := acc * scaler in
        upd2 i k (λ b, b - learningRate e * avgGrad) bs)
        bs (seq 0 (length bi));
    Some (ws, bs))
    (weights e, biases e) (seq 0 (length (weights e))).

(** [train] (lines 147-240): the prediction and the engine after the
    call. *)
Definition train (e : MiniNeuralNet) (inputs targets : list num)
  : option (list num * MiniNeuralNet) :=
  (* 1. Forward *)
  '(outputs, e) ← forward e inputs;
  (* 2. Output Error *)
  ng ← output_error e outputs targets (zero_neuronGradients e);
  (* 3. Backpropagate & Accumulate *)
  '(ng, wg, accW, accB) ←
    foldM (backprop_layer e)
      (ng, zero_weightGradients e, accWeightGradients e, accBiasGradients e)
      (rev (seq 0 (length (weights e))));
  let count := (currentBatchCount e + 1)%Z in
  (* 4. Check Batch & Update *)
  if (batchSize e <=? count)%Z then
    '(ws, bs) ← apply_update e accW accB;
    Some (outputs, resetAccumulators
      {| layers := layers e;
         weights := ws;
         biases := bs;
         activations := activations e;
         preActivations := preActivations e;
         neuronGradients := ng;
         weightGradients := wg;
         learningRate := learningRate e;
         batchSize := batchSize e;
         currentBatchCount := count;
         accWeightGradients := accW;
         accBiasGradients := accB |})
  else
    Some (outputs,
      {| layers := layers e;
         weights := weights e;
         biases := biases e;
         activations := activations e;
         preActivations := preActivations e;
         neuronGradients := ng;
         weightGradients := wg;
         learningRate := learningRate e;
         batchSize := batchSize e;
         currentBatchCount := count;
         accWeightGradients := accW;
         accBiasGradients := accB |}).

(** A natural number (an index, a length) as a [number]. *)
Definition of_nat (n : nat) : num := lit (inject_Z (Z.of_nat n)).

(** [arr[i] ? arr[i][j] : 0] (lines 261-264): an array is truthy, a
    missing row is [undefined]. *)
Definition row_or_zero (arr : list (list num)) (i j : nat) : option num :=
  match arr !! i with
  | Some row => row !! j
  | None => Some (lit 0)
  end.

(** [getVisualizationData] (lines 242-296). *)
Definition getVisualizationData (e : MiniNeuralNet) : option Snapshot :=
  let layerSpacing := lit 6 in
  let neuronSpacing := lit 2 in
  neuronRecs ←
    foldM (λ neuronRecs i,
      l ← layers e !! i;
      let layerCount := neurons l in
      let x :=
        (of_nat i - (of_nat (length (layers e)) - lit 1) / lit 2)
        * layerSpacing in
      foldM (λ neuronRecs j,
        let y :=
          (of_nat j - (of_nat layerCount - lit 1) / lit 2) * neuronSpacing in
        let id := "l" +:+ show_nat i +:+ "-n" +:+ show_nat j in
        activation ← row_or_zero (activations e) i j;
        preActivation ← row_or_zero (preActivations e) i j;
        bias ← (if (0 <? i)%nat then get2 (biases e) (i - 1) j
                else Some (lit 0));
        gradient ← row_or_zero (neuronGradients e) i j;
        Some (neuronRecs ++
          [ {| Neuron.id := id;
               Neuron.layerIndex := i;
               Neuron.neuronIndex := j;
               Neuron.activation := activation;
               Neuron.preActivation := preActivation;
               Neuron.bias := bias;
               Neuron.gradient := gradient;
               Neuron.position := (x, y, lit 0) |} ]))
        neuronRecs (seq 0 layerCount))
      [] (seq 0 (length (layers e)));
  connections ←
    foldM (λ connections i,
      let sourceLayerIdx := i in
      let targetLayerIdx := (i + 1)%nat in
      let sourceNeurons :=
        filter (λ n, Neuron.layerIndex n = sourceLayerIdx) neuronRecs in
      let targetNeurons :=
        filter (λ n, Neuron.layerIndex n = targetLayerIdx) neuronRecs in
      foldM (λ connections j,
        foldM (λ connections k,
          weight ← get3 (weights e) i j k;
          grad ← match weightGradients e !! i with
                 | Some g => get2 g j k
                 | None => Some (lit 0)
                 end;
          s ← sourceNeurons !! j;
          t ← targetNeurons !! k;
          Some (connections ++
            [ {| Connection.id :=
                   "c-l" +:+ show_nat i +:+ "n" +:+ show_nat j +:+ "-l"
                   +:+ show_nat targetLayerIdx +:+ "n" +:+ show_nat k;
                 Connection.sourceId := Neuron.id s;
                 Connection.targetId := Neuron.id t;
                 Connection.weight := weight;
                 Connection.gradient := grad;
                 Connection.sourcePos := Neuron.position s;
                 Connection.targetPos := Neuron.position t |} ]))
          connections (seq 0 (length targetNeurons)))
        connections (seq 0 (length sourceNeurons)))
      [] (seq 0 (length (weights e)));
  Some {| snap_neurons := neuronRecs; snap_connections := connections |}.

(** ** Sequences of calls *)

(** Consecutive calls of [train], one per sample, as the driver makes
    them ([nn.train(row.inputs, row.target)]): the engines after each
    call. *)
Fixpoint train_all (e : MiniNeuralNet) (samples : list DataPoint)
  : option (list MiniNeuralNet) :=
  match samples with
  | [] => Some []
  | s :: rest =>
      '(_, e') ← train e (inputs s) (target s);
      es ← train_all e' rest;
      Some (e' :: es)
  end.

(** The calls a driver can make on an engine. *)
Inductive Call : Type :=
  | CallForward (inputs : list num)
  | CallTrain (inputs targets : list num)
  | CallUpdateConfig (learningRate' : num) (batchSize' : Z)
  | CallGetSnapshot.

(** The engine after a completed call. *)
Definition call (e : MiniNeuralNet) (c : Call) : option MiniNeuralNet :=
  match c with
  | CallForward inputs => '(_, e') ← forward e inputs; Some e'
  | CallTrain inputs targets => '(_, e') ← train e inputs targets; Some e'
  | CallUpdateConfig lr b => Some (updateConfig e lr b)
  | CallGetSnapshot => _ ← getVisualizationData e; Some e
  end.

(** The engine after a sequence of completed calls. *)
Definition calls (e : MiniNeuralNet) (cs : list Call) : option MiniNeuralNet :=
  foldM call e cs.

(** ** The dataset generator: [generateData] (lines 299-329) *)

(** An omitted [count] is [8]; [r] counts the draws of [Math.random] made
    so far.  The body never reads [count]. *)
Definition generateData (type : DatasetType) (count : option Z) (r : nat)
  : list DataPoint * nat :=
  let count := default 8%Z count in
  if decide (type = XOR) then
    ([ {| inputs := [lit 0.1; lit 0.1]; target := [lit 0] |};
       {| inputs := [lit 0.9; lit 0.1]; target := [lit 1] |};
       {| inputs := [lit 0.1; lit 0.9]; target := [lit 1] |};
       {| inputs := [lit 0.9; lit 0.9]; target := [lit 0] |};
       {| inputs := [lit 0.2; lit 0.2]; target := [lit 0] |};
       {| inputs := [lit 0.8; lit 0.2]; target := [lit 1] |};
       {| inputs := [lit 0.2; lit 0.8]; target := [lit 1] |};
       {| inputs := [lit 0.8; lit 0.8]; target := [lit 0] |} ], r)
  else if decide (type = QUADRANTS) then
    fold_left (λ '(data, r) i,
      let x :=
        (if (i mod 2 =? 0)%nat then - lit 1 else lit 1)
        * (lit 0.5 + Math_random r * lit 0.4) in
      let y := Math_random (r + 1)%nat * lit 2 - lit 1 in
      (data ++
         [ {| inputs := [x; y];
              target := [if x >? lit 0 then lit 1 else lit 0] |} ],
       (r + 2)%nat))
      (seq 0 8) ([], r)
  else
    (* Circle *)
    (fold_left (λ data i,
       let angle := (of_nat i / lit 8) * Math_PI * lit 2 in
       let r := if (i mod 2 =? 0)%nat then lit 0.3 else lit 0.9 in
       let x := Math_cos angle * r in
       let y := Math_sin angle * r in
       data ++
         [ {| inputs := [x; y];
              target := [if r <? lit 0.5 then lit 1 else lit 0] |} ])
       (seq 0 8) [], r).

End Engine.

(** ** Two arithmetics *)

(** *** Exact real arithmetic *)

Definition Rltb (x y : R) : bool := if Rlt_dec x y then true else false.
Definition Rleb (x y : R) : bool := if Rle_dec x y then true else false.

Definition R_arith : Arith :=
  {| num := R;
     lit := Q2R;
     add := Rplus;
     sub := Rminus;
     mul := Rmult;
     div := Rdiv;
     neg := Ropp;
     lt := Rltb;
     le := Rleb;
     Math_max := Rmax;
     Math_PI := PI |}.

Definition R_math : MathLib R_arith :=
  Build_MathLib R_arith exp Rtrigo_def.tanh cos sin.

(** *** IEEE-754 binary64, the [number] of JavaScript *)

(** The double nearest to an integer (ties to even, infinite beyond the
    range of the doubles): the number an integer literal denotes. *)
Definition float_of_Z (z : Z) : float :=
  SF2Prim (binary_normalize prec emax z 0 false).

(** A decimal literal denotes the double nearest to it, which the
    correctly rounded quotient of its numerator and denominator is (both
    are exact doubles for the literals of the source). *)
Definition float_lit (q : Q) : float :=
  PrimFloat.div (float_of_Z (Qnum q)) (float_of_Z (Zpos (Qden q))).

(** [Math.max] on two numbers: [NaN] if either is, and [+0] above [-0]. *)
Definition float_max (a b : float) : float :=
  if PrimFloat.is_nan a || PrimFloat.is_nan b then PrimFloat.nan
  else if PrimFloat.ltb a b then b
  else if PrimFloat.ltb b a then a
  else match PrimFloat.classify a with
       | NZero => b
       | _ => a
       end.

Definition float_arith : Arith :=
  {| num := float;
     lit := float_lit;
     add := PrimFloat.add;
     sub := PrimFloat.sub;
     mul := PrimFloat.mul;
     div := PrimFloat.div;
     neg := PrimFloat.opp;
     lt := PrimFloat.ltb;
     le := PrimFloat.leb;
     Math_max := float_max;
     Math_PI := 0x1.921fb54442d18p+1%float |}.

(** ** Vocabulary of the statements *)

(** The lengths of the rows of a matrix, and of the rows of each matrix
    of a tensor. *)
Definition shape2 {X : Type} (l : list (list X)) : list nat := length <$> l.
Definition shape3 {X : Type} (l : list (list (list X))) : list (list nat) :=
  shape2 <$> l.

(** The shapes a layer list prescribes: between layers [i] and [i+1] a
    matrix of [neurons i] rows of [neurons (i+1)] weights, and
    [neurons (i+1)] biases. *)
Definition weights_shape (ls : list LayerConfig) : list (list nat) :=
  zip_with (λ p c, replicate (neurons p) (neurons c)) ls (tail ls).
Definition biases_shape (ls : list LayerConfig) : list nat :=
  neurons <$> tail ls.

(** [m] is [m0] with the entries selected by [V] replaced by their image
    under [F]; [t] likewise for a tensor. *)
Definition matrix_upd {X : Type} (V : nat → nat → bool)
    (F : nat → nat → X → X) (m0 m : list (list X)) : Prop :=
  shape2 m = shape2 m0 ∧
  ∀ i j, get2 m i j = if V i j then F i j <$> get2 m0 i j else get2 m0 i j.

Definition tensor_upd {X : Type} (V : nat → nat → nat → bool)
    (F : nat → nat → nat → X → X) (t0 t : list (list (list X))) : Prop :=
  shape3 t = shape3 t0 ∧
  ∀ i j k, get3 t i j k =
           if V i j k then F i j k <$> get3 t0 i j k else get3 t0 i j k.

Section Vocabulary.
Context {A : Arith}.
Local Open Scope js_scope.

(** Reads inside an array, for the right-hand sides of equations. *)
Definition at1 (l : list num) (i : nat) : num := default (lit 0) (l !! i).
Definition at2 (l : list (list num)) (i j : nat) : num :=
  default (lit 0) (get2 l i j).
Definition at3 (l : list (list (list num))) (i j k : nat) : num :=
  default (lit 0) (get3 l i j k).

(** [bias + Σ_k prev_k * W_{k,j}], summed in the order of the loop. *)
Definition weighted_sum (bias : num) (prev : list num) (W : list (list num))
    (j : nat) : num :=
  fold_left (λ sum k, sum + at1 prev k * at2 W k j) (seq 0 (length prev)) bias.

(** [Σ_k δ_k * W_{j,k}] over the [n] neurons of the next layer, from [0]. *)
Definition error_sum (delta : list num) (W : list (list num)) (j n : nat)
  : num :=
  fold_left (λ s k, s + at1 delta k * at2 W j k) (seq 0 n) (lit 0).

(** [g_1 + ... + g_B] accumulated from [0], as the accumulators do. *)
Definition sum_from_zero (gs : list num) : num := fold_left add gs (lit 0).

(** An engine as the constructor builds it and every operation keeps it:
    at least the input layer, parameters and accumulators of the shapes
    the layer list prescribes. *)
Record wf (e : MiniNeuralNet) : Prop := {
  wf_layers : layers e ≠ [];
  wf_weights : shape3 (weights e) = weights_shape (layers e);
  wf_biases : shape2 (biases e) = biases_shape (layers e);
  wf_accW : shape3 (accWeightGradients e) = shape3 (weights e);
  wf_accB : shape2 (accBiasGradients e) = shape2 (biases e);
}.

(** The engine [e] with another forward state. *)
Definition with_forward_state (e : MiniNeuralNet)
    (acts pres : list (list num)) : MiniNeuralNet :=
  {| layers := layers e;
     weights := weights e;
     biases := biases e;
     activations := acts;
     preActivations := pres;
     neuronGradients := neuronGradients e;
     weightGradients := weightGradients e;
     learningRate := learningRate e;
     batchSize := batchSize e;
     currentBatchCount := currentBatchCount e;
     accWeightGradients := accWeightGradients e;
     accBiasGradients := accBiasGradients e |}.

(** The layer [i] of the engine and the row [i] of a matrix, inside
    their arrays. *)
Definition layer_at (e : MiniNeuralNet) (i : nat) : LayerConfig :=
  default {| neurons := 0; activation := "" |} (layers e !! i).
Definition row_at {X : Type} (m : list (list X)) (i : nat) : list X :=
  default [] (m !! i).

(** The error terms of the output layer: [(prediction - target) * prime]. *)
Definition output_deltas (kind : ActivationType)
    (outputs targets z : list num) : list num :=
  (λ i, (at1 outputs i - at1 targets i)
        * activationPrime kind (at1 outputs i) (at1 z i))
  <$> seq 0 (length outputs).

(** The error terms of a hidden layer [l] from those of the next layer:
    [(Σ_k δ_k * W_{j,k}) * prime]. *)
Definition hidden_deltas (l lnext : LayerConfig) (W : list (list num))
    (a z next : list num) : list num :=
  (λ j, error_sum next W j (neurons lnext)
        * activationPrime (activation l) (at1 a j) (at1 z j))
  <$> seq 0 (neurons l).

(** The error terms of layer [n - k], where [n] is the output layer. *)
Fixpoint deltas_down (e : MiniNeuralNet) (targets : list num) (k : nat)
  : list num :=
  let n := (length (layers e) - 1)%nat in
  match k with
  | O =>
      output_deltas (activation (layer_at e n))
        (row_at (activations e) n) targets (row_at (preActivations e) n)
  | Datatypes.S k' =>
      let i := (n - Datatypes.S k')%nat in
      hidden_deltas (layer_at e i) (layer_at e (Datatypes.S i))
        (row_at (weights e) i)
        (row_at (activations e) i) (row_at (preActivations e) i)
        (deltas_down e targets k')
  end.

(** The error terms of layer [i], for an engine holding the forward
    state of the sample. *)
Definition delta_row (e : MiniNeuralNet) (targets : list num) (i : nat)
  : list num :=
  deltas_down e targets (length (layers e) - 1 - i).

End Vocabulary.

Section VocabularyForward.
Context {A : Arith} {ML : MathLib A}.
Local Open Scope js_scope.

(** What one layer of the forward pass computes from the activations
    [prev] of the layer before it. *)
Definition layer_computed (l : LayerConfig) (W : list (list num))
    (b prev z a : list num) : Prop :=
  length z = neurons l ∧ length a = neurons l ∧
  ∀ j, j < neurons l →
    ∃ bj, b !! j = Some bj ∧
          z !! j = Some (weighted_sum bj prev W j) ∧
          a !! j = Some (activate (activation l) (weighted_sum bj prev W j)).

(** What the forward pass stores: the inputs for the input layer and,
    for every later layer, what [layer_computed] says. *)
Definition forward_computed (e : MiniNeuralNet) (inputs : list num)
    (acts pres : list (list num)) : Prop :=
  length acts = length (layers e) ∧ length pres = length (layers e) ∧
  acts !! 0 = Some inputs ∧ pres !! 0 = Some inputs ∧
  ∀ i l, layers e !! Datatypes.S i = Some l →
    ∃ prev W b z a,
      acts !! i = Some prev ∧ weights e !! i = Some W ∧
      biases e !! i = Some b ∧
      pres !! Datatypes.S i = Some z ∧ acts !! Datatypes.S i = Some a ∧
      shape2 W = replicate (length prev) (neurons l) ∧
      layer_computed l W b prev z a.

End VocabularyForward.

Section VocabularyTrain.
Context {A : Arith}.
Local Open Scope js_scope.

(** The error terms of the engine [e'], which holds the forward state of
    a sample with the targets [targets]; [W] are the weights the call
    started with.  [n] is the output layer. *)
Definition deltas_computed (W : list (list (list num))) (e' : MiniNeuralNet)
    (targets : list num) : Prop :=
  let n := (length (layers e') - 1)%nat in
  let ng := neuronGradients e' in
  shape2 ng = neurons <$> layers e' ∧
  (∀ j, (j < neurons (layer_at e' n))%nat →
     get2 ng n j =
     Some ((at2 (activations e') n j - at1 targets j)
           * activationPrime (activation (layer_at e' n))
               (at2 (activations e') n j) (at2 (preActivations e') n j))) ∧
  (∀ i j, (0 < i < n)%nat → (j < neurons (layer_at e' i))%nat →
     get2 ng i j =
     Some (error_sum (row_at ng (Datatypes.S i)) (row_at W i) j
             (neurons (layer_at e' (Datatypes.S i)))
           * activationPrime (activation (layer_at e' i))
               (at2 (activations e') i j) (at2 (preActivations e') i j))) ∧
  ((0 < n)%nat → ∀ j, (j < neurons (layer_at e' 0))%nat →
     get2 ng 0 j = Some (lit 0)).

(** The per-sample weight gradients of [e']: [δ_{i+1,k} * a_{i,j}]. *)
Definition gradients_computed (W : list (list (list num)))
    (e' : MiniNeuralNet) : Prop :=
  shape3 (weightGradients e') = shape3 W ∧
  ∀ i j k, is_Some (get3 W i j k) →
    get3 (weightGradients e') i j k =
    Some (at2 (neuronGradients e') (Datatypes.S i) k
          * at2 (activations e') i j).

(** [accW] and [accB] are the accumulators of [e] plus the per-sample
    gradients that [e'] holds. *)
Definition accumulated (e e' : MiniNeuralNet)
    (accW : list (list (list num))) (accB : list (list num)) : Prop :=
  shape3 accW = shape3 (weights e) ∧ shape2 accB = shape2 (biases e) ∧
  (∀ i j k x, get3 (accWeightGradients e) i j k = Some x →
     get3 accW i j k = Some (x + at3 (weightGradients e') i j k)) ∧
  (∀ i k x, get2 (accBiasGradients e) i k = Some x →
     get2 accB i k = Some (x + at2 (neuronGradients e') (Datatypes.S i) k)).

(** The entries [train] writes, by index: the error term of neuron [j]
    of layer [i]; the gradient of the weight from neuron [j] of layer [i]
    to neuron [k] of layer [i+1], [δ_{i+1,k} * a_{i,j}]; what the
    accumulators of that weight and of the bias of neuron [k] of layer
    [i+1] become.  [e] holds the forward state of the sample. *)
Definition stored_delta (e : MiniNeuralNet) (targets : list num)
  : nat → nat → num → num :=
  λ i j _, at1 (delta_row e targets i) j.
Definition stored_gradient (e : MiniNeuralNet) (targets : list num)
  : nat → nat → nat → num → num :=
  λ i j k _, at1 (delta_row e targets (Datatypes.S i)) k
             * at2 (activations e) i j.
Definition added_gradient (e : MiniNeuralNet) (targets : list num)
  : nat → nat → nat → num → num :=
  λ i j k x, x + at1 (delta_row e targets (Datatypes.S i)) k
                 * at2 (activations e) i j.
Definition added_delta (e : MiniNeuralNet) (targets : list num)
  : nat → nat → num → num :=
  λ i k x, x + at1 (delta_row e targets (Datatypes.S i)) k.

(** The state of the loop of step 3 when the layers from [i] on have
    been processed; [accW0] and [accB0] are the accumulators before the
    call. *)
Definition backprop_inv (e : MiniNeuralNet) (targets : list num)
    (accW0 : list (list (list num))) (accB0 : list (list num)) (i : nat)
    (st : list (list num) * list (list (list num)) *
          list (list (list num)) * list (list num)) : Prop :=
  let n := (length (layers e) - 1)%nat in
  let '(ng, wg, accW, accB) := st in
  matrix_upd (λ i' _, (i' =? n)%nat || ((i <=? i')%nat && (0 <? i')%nat))
    (stored_delta e targets) (zero_neuronGradients e) ng ∧
  tensor_upd (λ i' _ _, (i <=? i')%nat) (stored_gradient e targets)
    (zero_weightGradients e) wg ∧
  tensor_upd (λ i' _ _, (i <=? i')%nat) (added_gradient e targets) accW0 accW ∧
  matrix_upd (λ i' _, (i <=? i')%nat) (added_delta e targets) accB0 accB.

(** [parameter - learningRate * (sum * (1 / batchSize))], the update of
    line 226 (and 231) for an accumulated sum. *)
Definition averaged_step (e : MiniNeuralNet) (sum p : num) : num :=
  p - learningRate e * (sum * (lit 1 / lit (inject_Z (batchSize e)))).

(** The parameters of [e'] are those of [e] after the update with the
    sums [accW] and [accB]. *)
Definition updated (e e' : MiniNeuralNet)
    (accW : list (list (list num))) (accB : list (list num)) : Prop :=
  shape3 (weights e') = shape3 (weights e) ∧
  shape2 (biases e') = shape2 (biases e) ∧
  (∀ i j k w, get3 (weights e) i j k = Some w →
     get3 (weights e') i j k = Some (averaged_step e (at3 accW i j k) w)) ∧
  (∀ i k b, get2 (biases e) i k = Some b →
     get2 (biases e') i k = Some (averaged_step e (at2 accB i k) b)).

(** What the update makes of the weight [w] at [i], [j], [k] and of the
    bias [b] at [i], [k], from the accumulated sums. *)
Definition stepped_weight (e : MiniNeuralNet)
    (accW : list (list (list num))) : nat → nat → nat → num → num :=
  λ i j k w, averaged_step e (at3 accW i j k) w.
Definition stepped_bias (e : MiniNeuralNet) (accB : list (list num))
  : nat → nat → num → num :=
  λ i k b, averaged_step e (at2 accB i k) b.

(** [e'] has the layers, hyperparameters and parameters of [e]. *)
Definition same_parameters (e e' : MiniNeuralNet) : Prop :=
  wf e' ∧ layers e' = layers e ∧ learningRate e' = learningRate e ∧
  batchSize e' = batchSize e ∧ weights e' = weights e ∧ biases e' = biases e.

(** [0 <= batchCounter < batchSize]. *)
Definition batch_invariant (e : MiniNeuralNet) : Prop :=
  (0 ≤ currentBatchCount e < batchSize e)%Z.

(** A call that is not an [updateConfig] with a batch size below [1]. *)
Definition positive_batch (c : Call) : Prop :=
  match c with
  | CallUpdateConfig _ b => (0 < b)%Z
  | _ => True
  end.

(** The engine the constructor hands to [initializeWeights]. *)
Definition blank (ls : list LayerConfig) (lr : num) (b : Z) : MiniNeuralNet :=
  {| layers := ls;
     weights := [];
     biases := [];
     activations := [];
     preActivations := [];
     neuronGradients := [];
     weightGradients := [];
     learningRate := lr;
     batchSize := b;
     currentBatchCount := 0;
     accWeightGradients := [];
     accBiasGradients := [] |}.

(** The table of the XOR set: the two inputs and the target of each
    point, as the decimal literals of the source. *)
Definition xor_table : list (Q * Q * Q) :=
  [ (0.1, 0.1, 0); (0.9, 0.1, 1); (0.1, 0.9, 1); (0.9, 0.9, 0);
    (0.2, 0.2, 0); (0.8, 0.2, 1); (0.2, 0.8, 1); (0.8, 0.8, 0) ]%Q.
Definition point_of (p : Q * Q * Q) : DataPoint :=
  let '(x, y, t) := p in {| inputs := [lit x; lit y]; target := [lit t] |}.

(** A sample of the widths of the input and output layers of [e]. *)
Definition fits (e : MiniNeuralNet) (s : DataPoint) : Prop :=
  length (inputs s) = neurons (layer_at e 0) ∧
  length (target s) = neurons (layer_at e (length (layers e) - 1)).

(** Every accumulator reads zero. *)
Definition accumulators_zero (e : MiniNeuralNet) : Prop :=
  Forall (Forall (Forall (λ x, x = lit 0))) (accWeightGradients e) ∧
  Forall (Forall (λ x, x = lit 0)) (accBiasGradients e).

(** The records [getVisualizationData] builds for an engine that holds
    no forward state and zero gradients. *)
Definition neuron_id (i j : nat) : string :=
  "l" +:+ show_nat i +:+ "-n" +:+ show_nat j.
Definition neuron_position (e : MiniNeuralNet) (i j : nat) : num * num * num :=
  ((of_nat i - (of_nat (length (layers e)) - lit 1) / lit 2) * lit 6,
   (of_nat j - (of_nat (neurons (layer_at e i)) - lit 1) / lit 2) * lit 2,
   lit 0).
Definition fresh_neuron (e : MiniNeuralNet) (i j : nat) : Neuron.t :=
  {| Neuron.id := neuron_id i j;
     Neuron.layerIndex := i;
     Neuron.neuronIndex := j;
     Neuron.activation := lit 0;
     Neuron.preActivation := lit 0;
     Neuron.bias := if (0 <? i)%nat then at2 (biases e) (i - 1) j else lit 0;
     Neuron.gradient := lit 0;
     Neuron.position := neuron_position e i j |}.
Definition fresh_layer (e : MiniNeuralNet) (i : nat) : list Neuron.t :=
  (λ j, fresh_neuron e i j) <$> seq 0 (neurons (layer_at e i)).
Definition fresh_neurons (e : MiniNeuralNet) : list Neuron.t :=
  mjoin (fresh_layer e <$> seq 0 (length (layers e))).
Definition fresh_connection (e : MiniNeuralNet) (i j k : nat) : Connection.t :=
  {| Connection.id :=
       "c-l" +:+ show_nat i +:+ "n" +:+ show_nat j +:+ "-l"
       +:+ show_nat (i + 1) +:+ "n" +:+ show_nat k;
     Connection.sourceId := neuron_id i j;
     Connection.targetId := neuron_id (i + 1) k;
     Connection.weight := at3 (weights e) i j k;
     Connection.gradient := lit 0;
     Connection.sourcePos := neuron_position e i j;
     Connection.targetPos := neuron_position e (i + 1) k |}.
Definition fresh_connections (e : MiniNeuralNet) : list Connection.t :=
  mjoin ((λ i,
    mjoin ((λ j,
      (λ k, fresh_connection e i j k)
      <$> seq 0 (neurons (layer_at e (i + 1))))
    <$> seq 0 (neurons (layer_at e i))))
  <$> seq 0 (length (weights e))).

End VocabularyTrain.
(** ** Sample engines, samples and calls *)

Canonical Structure R_arith.

(** The layers of the application's initial configuration ([App.tsx]),
    a stream for [Math.random], the engine the constructor builds from
    them with batch size [2], and the first XOR points. *)
Definition demo_layers : list LayerConfig :=
  [ {| neurons := 2; activation := RELU |};
    {| neurons := 3; activation := TANH |};
    {| neurons := 1; activation := SIGMOID |} ].

Definition demo_random (k : nat) : @num R_arith := (3 / 4)%R.

Definition constructed (ls : list LayerConfig) (lr : option R)
    (b : option Z) : @MiniNeuralNet R_arith :=
  match @new_MiniNeuralNet R_arith demo_random ls lr b 0 with
  | Some (e, _) => e
  | None => @blank R_arith [] 0%R 0
  end.

Definition demo_net : @MiniNeuralNet R_arith :=
  constructed demo_layers (Some (1 / 10)%R) (Some 2%Z).

Definition demo_samples : list (@DataPoint R_arith) :=
  take 2 (@generateData R_arith R_math demo_random XOR None 0).1.

Definition demo_sample : @DataPoint R_arith :=
  {| inputs := [Q2R 0.1; Q2R 0.9]; target := [Q2R 1] |}.

Definition demo_calls : list (@Call R_arith) :=
  [ @CallForward R_arith [Q2R 0.1; Q2R 0.9];
    @CallTrain R_arith [Q2R 0.1; Q2R 0.9] [Q2R 1];
    @CallGetSnapshot R_arith;
    @CallUpdateConfig R_arith (1 / 5)%R 4;
    @CallTrain R_arith [Q2R 0.9; Q2R 0.9] [Q2R 0];
    @CallForward R_arith [Q2R 0.2; Q2R 0.8] ].


Definition relu_random (k : nat) : @num R_arith := 1%R.

Definition relu_net : @MiniNeuralNet R_arith :=
  match @new_MiniNeuralNet R_arith relu_random
          [ {| neurons := 1; activation := RELU |};
            {| neurons := 1; activation := RELU |} ]
          (Some (1 / 10)%R) (Some 2%Z) 0 with
  | Some (e, _) => e
  | None => @blank R_arith [] 0%R 0
  end.

Definition relu_sample : @DataPoint R_arith :=
  {| inputs := [1%R]; target := [0%R] |}.

(** The engine after one completed [train] call on a sample. *)
Definition after_train (e : @MiniNeuralNet R_arith) (s : @DataPoint R_arith)
  : @MiniNeuralNet R_arith :=
  match @train R_arith R_math e (inputs s) (target s) with
  | Some (_, e') => e'
  | None => e
  end.

Definition relu_net_mid : @MiniNeuralNet R_arith :=
  after_train relu_net relu_sample.

(** The engine [demo_net] after the calls [demo_calls]. *)
Definition demo_net_after_calls : @MiniNeuralNet R_arith :=
  default demo_net (@calls R_arith R_math demo_net demo_calls).

(** An engine constructed with the default batch size [1]. *)
Definition default_net : @MiniNeuralNet R_arith :=
  constructed demo_layers None None.

(** An engine in doubles: two [RELU] layers of one neuron, so that no
    function of the host's [Math] library is called; every draw of
    [Math.random] is [0.75], which makes the weight [0.5] and the bias
    [0.25]; the learning rate is [0.1] and the batch size [3]. *)
Definition double_random (k : nat) : float := 0.75%float.

Definition double_net : @MiniNeuralNet float_arith :=
  match @new_MiniNeuralNet float_arith double_random
          [ {| neurons := 1; activation := RELU |};
            {| neurons := 1; activation := RELU |} ]
          (Some (@lit float_arith 0.1)) (Some 3%Z) 0 with
  | Some (e, _) => e
  | None => @blank float_arith [] (@lit float_arith 0) 0
  end.

Definition double_samples : list (@DataPoint float_arith) :=
  [ {| inputs := [@lit float_arith 0.8]; target := [@lit float_arith 0] |};
    {| inputs := [@lit float_arith 0.8]; target := [@lit float_arith 0] |};
    {| inputs := [@lit float_arith 0.2]; target := [@lit float_arith 0] |} ].

(** ** Vocabulary of the rounding of doubles *)


(** ** Vocabulary of the further properties *)

(** The width of layer [i] of a layer list, [0] outside it. *)
Definition neurons_at (ls : list LayerConfig) (i : nat) : nat :=
  from_option neurons 0 (ls !! i).

(** The number of parameters between the layers [i] and [i + 1]
    (weights and biases), and the number of those before layer [i]:
    the constructor draws one random number for each. *)
Definition layer_params (ls : list LayerConfig) (i : nat) : nat :=
  neurons_at ls i * neurons_at ls (Datatypes.S i)
  + neurons_at ls (Datatypes.S i).
Definition param_offset (ls : list LayerConfig) (i : nat) : nat :=
  sum_list (layer_params ls <$> seq 0 i).

Section VocabularyConstructor.
Context {A : Arith}.
Variable Math_random : nat → num.
Local Open Scope js_scope.

(** The weights and the biases the constructor draws for a layer list
    when [r] draws have been made before: row after row, then the
    biases, layer after layer. *)
Definition drawn_weights (ls : list LayerConfig) (r : nat)
  : list (list (list num)) :=
  (λ i,
     (λ j,
        (λ k, Math_random
                (r + param_offset ls i + j * neurons_at ls (Datatypes.S i)
                 + k)%nat * lit 2 - lit 1)
        <$> seq 0 (neurons_at ls (Datatypes.S i)))
     <$> seq 0 (neurons_at ls i))
  <$> seq 0 (length ls - 1).
Definition drawn_biases (ls : list LayerConfig) (r : nat)
  : list (list num) :=
  (λ i,
     (λ k, Math_random
             (r + param_offset ls i
              + neurons_at ls i * neurons_at ls (Datatypes.S i) + k)%nat
           - lit 0.5)
     <$> seq 0 (neurons_at ls (Datatypes.S i)))
  <$> seq 0 (length ls - 1).

End VocabularyConstructor.

Section VocabularySnapshot.
Context {A : Arith}.
Local Open Scope js_scope.

(** [arr[i] ? arr[i][j] : 0] for an index [j] inside the row. *)
Definition stored_or_zero (arr : list (list num)) (i j : nat) : num :=
  match arr !! i with
  | Some row => at1 row j
  | None => lit 0
  end.

(** The records of a snapshot, neuron by neuron and connection by
    connection, from the state of the engine. *)
Definition snapshot_neuron (e : MiniNeuralNet) (i j : nat) : Neuron.t :=
  {| Neuron.id := neuron_id i j;
     Neuron.layerIndex := i;
     Neuron.neuronIndex := j;
     Neuron.activation := stored_or_zero (activations e) i j;
     Neuron.preActivation := stored_or_zero (preActivations e) i j;
     Neuron.bias := if (0 <? i)%nat then at2 (biases e) (i - 1) j else lit 0;
     Neuron.gradient := stored_or_zero (neuronGradients e) i j;
     Neuron.position := neuron_position e i j |}.
Definition snapshot_layer (e : MiniNeuralNet) (i : nat) : list Neuron.t :=
  (λ j, snapshot_neuron e i j) <$> seq 0 (neurons (layer_at e i)).
Definition snapshot_neurons (e : MiniNeuralNet) : list Neuron.t :=
  mjoin (snapshot_layer e <$> seq 0 (length (layers e))).
Definition connection_id (i j k : nat) : string :=
  "c-l" +:+ show_nat i +:+ "n" +:+ show_nat j +:+ "-l"
  +:+ show_nat (i + 1) +:+ "n" +:+ show_nat k.
Definition snapshot_connection (e : MiniNeuralNet) (i j k : nat)
  : Connection.t :=
  {| Connection.id := connection_id i j k;
     Connection.sourceId := neuron_id i j;
     Connection.targetId := neuron_id (i + 1) k;
     Connection.weight := at3 (weights e) i j k;
     Connection.gradient :=
       match weightGradients e !! i with
       | Some g => at2 g j k
       | None => lit 0
       end;
     Connection.sourcePos := neuron_position e i j;
     Connection.targetPos := neuron_position e (i + 1) k |}.
Definition snapshot_connections (e : MiniNeuralNet) : list Connection.t :=
  mjoin ((λ i,
    mjoin ((λ j,
      (λ k, snapshot_connection e i j k)
      <$> seq 0 (neurons (layer_at e (i + 1))))
    <$> seq 0 (neurons (layer_at e i))))
  <$> seq 0 (length (weights e))).

(** The rows of [arr], where it has any, are as long as the layers. *)
Definition rows_fit (ls : list LayerConfig) (arr : list (list num)) : Prop :=
  ∀ i row l, arr !! i = Some row → ls !! i = Some l → length row = neurons l.

(** The state every operation of the engine leaves: well-formed
    parameters, and forward state and per-sample gradients that are
    either absent or of the shape of the layers. *)
Record ready (e : MiniNeuralNet) : Prop := {
  ready_wf : wf e;
  ready_activations : rows_fit (layers e) (activations e);
  ready_preActivations : rows_fit (layers e) (preActivations e);
  ready_neuronGradients : rows_fit (layers e) (neuronGradients e);
  ready_weightGradients :
    ∀ i g W, weightGradients e !! i = Some g → weights e !! i = Some W →
             shape2 g = shape2 W;
}.

(** A call whose arguments have the widths of the input and output
    layers. *)
Definition call_fits (e : MiniNeuralNet) (c : Call) : Prop :=
  match c with
  | CallForward inputs => length inputs = neurons (layer_at e 0)
  | CallTrain inputs targets =>
      fits e {| inputs := inputs; target := targets |}
  | CallUpdateConfig _ _ => True
  | CallGetSnapshot => True
  end.

End VocabularySnapshot.

(** The weight matrix [W] with the weight from neuron [j] to neuron [k]
    replaced by [w], and half the squared error of one output neuron:
    [train] works with its derivative [a - t]. *)
Definition weight_changed `{Arith} (W : list (list num)) (j k : nat) (w : num)
  : list (list num) :=
  default W (set2 j k w W).

Definition half_squared_error (a t : R) : R :=
  (1 / 2 * ((a - t) * (a - t)))%R.

(** The strings of decimal digits: [show_nat] returns one. *)
Definition is_digit (c : ascii) : bool :=
  (48 <=? nat_of_ascii c)%nat && (nat_of_ascii c <=? 57)%nat.

Fixpoint all_digits (s : string) : bool :=
  match s with
  | EmptyString => true
  | String c s' => is_digit c && all_digits s'
  end.


(** ** The driver: [App.tsx] *)

(** [Math.pow], implementation-approximated like [Math.exp]. *)
Class MathPow (A : Arith) := {
  Math_pow : num -> num -> num;
}.

Arguments Math_pow {A _} x y.

(** The interface [NetworkConfig] of [types.ts]. *)
Module NetworkConfig.
Record t `{Arith} := {
    learningRate : num;
    layers : list LayerConfig;
    dataset : DatasetType;
    batchSize : Z;
  }.
End NetworkConfig.

(** The interface [TrainingStats] of [types.ts]; an entry of [history]
    is [{ epoch, loss }]. *)
Module TrainingStats.
Record t `{Arith} := {
    epoch : nat;
    loss : num;
    accuracy : num;
    currentInputIndex : nat;
    history : list (nat * num);
    batchProgress : Z;
    batchSize : Z;
  }.
End TrainingStats.

(** What [performStep] returns (line 98); its field [nn] is the engine
    of the driver itself. *)
Module Step.
Record t `{Arith} := {
    epoch : nat;
    loss : num;
    index : nat;
    batchCount : Z;
  }.
End Step.

(** The mutable references of the component [App]: the engine, the data
    set and the number of steps made (lines 40-46). *)
Record Driver `{Arith} := {
  nnRef : MiniNeuralNet;
  dataRef : list DataPoint;
  stepIndexRef : nat;
}.

Section App.
Context {A : Arith} {ML : MathLib A} {MP : MathPow A}.
Variable Math_random : nat -> num.
Local Open Scope js_scope.

(** The statistics [resetNetwork] sets (lines 54-62). *)
Definition initialStats (batchSize : Z) : TrainingStats.t :=
  {| TrainingStats.epoch := 0;
     TrainingStats.loss := lit 0;
     TrainingStats.accuracy := lit 0;
     TrainingStats.currentInputIndex := 0;
     TrainingStats.history := [];
     TrainingStats.batchProgress := 0;
     TrainingStats.batchSize := batchSize |}.

(** [resetNetwork] (lines 48-65): the new references, the statistics and
    the snapshot it hands to the view; [r] counts the draws of
    [Math.random]. *)
Definition resetNetwork (config : NetworkConfig.t) (r : nat)
  : option (Driver * TrainingStats.t * Snapshot * nat) :=
  '(nn, r) ← new_MiniNeuralNet Math_random (NetworkConfig.layers config)
               (Some (NetworkConfig.learningRate config))
               (Some (NetworkConfig.batchSize config)) r;
  let '(data, r) :=
    generateData Math_random (NetworkConfig.dataset config) None r in
  visData ← getVisualizationData nn;
  Some ({| nnRef := nn; dataRef := data; stepIndexRef := 0 |},
        initialStats (NetworkConfig.batchSize config), visData, r).

(** [performStep] (lines 80-99).  For an empty data set the index
    [stepIndex % 0] is [NaN], the row is [undefined] and reading its
    inputs throws.  [Math.floor] of the quotient of two natural numbers
    is their integer quotient. *)
Definition performStep (d : Driver) : option (Step.t * Driver) :=
  let nn := nnRef d in
  let data := dataRef d in
  if (length data =? 0)%nat then None else
  let index := (stepIndexRef d mod length data)%nat in
  row ← data !! index;
  '(_, nn) ← train nn (inputs row) (target row);
  let stepIndex := Datatypes.S (stepIndexRef d) in
  let epoch := (stepIndex / length data)%nat in
  last_index ← js_index (Z.of_nat (length (activations nn)) - 1);
  output ← activations nn !! last_index;
  t0 ← target row !! 0%nat;
  o0 ← output !! 0%nat;
  let loss := Math_pow (t0 - o0) (lit 2) in
  Some ({| Step.epoch := epoch;
           Step.loss := loss;
           Step.index := index;
           Step.batchCount := currentBatchCount nn |},
        {| nnRef := nn; dataRef := data; stepIndexRef := stepIndex |}).

(** The number of steps of a frame of the fast mode (line 108). *)
Definition stepsPerFrame (batchSize : Z) : Z :=
  if (1 <? batchSize)%Z then batchSize else 4%Z.

(** [n] iterations of the loop of [gameLoop] (lines 110-112);
    [latestStats] is [undefined] before the first. *)
Definition performSteps (n : nat) (d : Driver)
  : option (option Step.t * Driver) :=
  foldM (λ '(_, d) (_ : nat),
           '(stats, d) ← performStep d; Some (Some stats, d))
        (None, d) (seq 0 n).

(** The steps of a frame of the fast mode (lines 106-112). *)
Definition fastSteps (batchSize : Z) (d : Driver)
  : option (option Step.t * Driver) :=
  performSteps (Z.to_nat (stepsPerFrame batchSize)) d.

(** The update of the statistics after a frame of the fast mode (lines
    115-131) and after a manual step (lines 155-166). *)
Definition fastStats (latestStats : Step.t) (batchSize : Z)
    (prev : TrainingStats.t) : TrainingStats.t :=
  let history := TrainingStats.history prev in
  let history :=
    if (Step.index latestStats =? 0)%nat then
      let history :=
        history ++ [(Step.epoch latestStats, Step.loss latestStats)] in
      if (50 <? length history)%nat then tail history else history
    else history in
  {| TrainingStats.epoch := Step.epoch latestStats;
     TrainingStats.loss := Step.loss latestStats;
     TrainingStats.accuracy := TrainingStats.accuracy prev;
     TrainingStats.currentInputIndex := Step.index latestStats;
     TrainingStats.history := history;
     TrainingStats.batchProgress := Step.batchCount latestStats;
     TrainingStats.batchSize := batchSize |}.

Definition manualStats (stats : Step.t) (batchSize : Z)
    (prev : TrainingStats.t) : TrainingStats.t :=
  {| TrainingStats.epoch := Step.epoch stats;
     TrainingStats.loss := Step.loss stats;
     TrainingStats.accuracy := TrainingStats.accuracy prev;
     TrainingStats.currentInputIndex := Step.index stats;
     TrainingStats.history := TrainingStats.history prev;
     TrainingStats.batchProgress := Step.batchCount stats;
     TrainingStats.batchSize := batchSize |}.

(** A frame of the fast mode (lines 105-133) and a manual step (lines
    150-167) on the references and the statistics. *)
Definition fastFrame (batchSize : Z) (d : Driver) (prev : TrainingStats.t)
  : option (Driver * TrainingStats.t) :=
  '(latestStats, d) ← fastSteps batchSize d;
  match latestStats with
  | Some latestStats =>
      _ ← getVisualizationData (nnRef d);
      Some (d, fastStats latestStats batchSize prev)
  | None => Some (d, prev)
  end.

Definition handleManualStep (batchSize : Z) (d : Driver)
    (prev : TrainingStats.t) : option (Driver * TrainingStats.t) :=
  '(stats, d) ← performStep d;
  _ ← getVisualizationData (nnRef d);
  Some (d, manualStats stats batchSize prev).

End App.

(** [Math.pow] over the reals: the square for the exponent [2], the
    only one the source uses, and the real power of a positive base
    otherwise. *)
Definition R_pow (x y : R) : R :=
  if Req_dec_T y 2 then (x * x)%R else Rpower x y.
Definition R_mathpow : MathPow R_arith := Build_MathPow R_arith R_pow.

(** A driver whose engine is in a [ready] state with a non-empty
    output layer, and whose data set is not empty and fits the engine. *)
Definition driver_ready `{Arith} (d : Driver) : Prop :=
  ready (nnRef d) ∧ dataRef d ≠ [] ∧
  Forall (fits (nnRef d)) (dataRef d) ∧
  (0 < neurons (layer_at (nnRef d) (length (layers (nnRef d)) - 1)))%nat.

(** The samples the steps [s], [s + 1], ..., [s + n - 1] train on. *)
Definition cycled `{Arith} (data : list DataPoint) (s n : nat)
  : list DataPoint :=
  omap (λ t, data !! ((s + t) mod length data)%nat) (seq 0 n).


(** ** The architecture controls: [Controls.tsx] *)

(** [Math.max(1, Math.min(8, Number(neurons)))] for an integer. *)
Definition clampNeurons (neurons' : Z) : nat :=
  Z.to_nat (Z.max 1 (Z.min 8 neurons')).

(** [handleLayerChange] (lines 20-25): the layer list it hands to
    [setConfig].  An index outside the list would give an entry
    without an activation, which is no [LayerConfig]. *)
Definition handleLayerChange (layers : list LayerConfig) (idx : nat)
    (neurons' : Z) : option (list LayerConfig) :=
  l ← layers !! idx;
  Some (<[idx := {| neurons := clampNeurons neurons';
                    activation := activation l |}]> layers).

(** [addLayer] (lines 27-35).  [pop] on the empty list gives
    [undefined], which would be pushed as the last layer. *)
Definition addLayer (layers : list LayerConfig)
  : option (list LayerConfig) :=
  outputLayer ← last layers;
  Some (take (length layers - 1) layers
        ++ [ {| neurons := 4; activation := TANH |} ] ++ [outputLayer]).

(** [removeLayer] (lines 37-43): it returns without a new
    configuration for two layers or fewer; [splice(i, 1)] deletes the
    entry [i]. *)
Definition removeLayer (layers : list LayerConfig) : list LayerConfig :=
  if (length layers <=? 2)%nat then layers
  else delete (length layers - 2)%nat layers.

(** The handler of the activation selector (lines 93-99). *)
Definition changeHiddenActivation (layers : list LayerConfig)
    (value : ActivationType) : list LayerConfig :=
  imap (λ i l,
          if (0 <? i)%nat && (i <? length layers - 1)%nat
          then {| neurons := neurons l; activation := value |}
          else l) layers.

(** The edits of the layer list the controls offer, and the layer list
    after one of them. *)
Inductive LayerEdit : Type :=
  | EditNeurons (idx : nat) (neurons' : Z)
  | EditAddLayer
  | EditRemoveLayer
  | EditHiddenActivation (value : ActivationType).

Definition applyEdit (layers : list LayerConfig) (edit : LayerEdit)
  : option (list LayerConfig) :=
  match edit with
  | EditNeurons idx neurons' => handleLayerChange layers idx neurons'
  | EditAddLayer => addLayer layers
  | EditRemoveLayer => Some (removeLayer layers)
  | EditHiddenActivation value => Some (changeHiddenActivation layers value)
  end.

(** The buttons that change a width exist for hidden layers only
    (line 66). *)
Definition hidden_edit (layers : list LayerConfig) (edit : LayerEdit)
  : Prop :=
  match edit with
  | EditNeurons idx _ => (0 < idx < length layers - 1)%nat
  | _ => True
  end.


(** ** Sample drivers *)

(** The initial configuration of [App.tsx] (lines 9-18), the driver
    [resetNetwork] would leave for [demo_net], and the prediction of
    [relu_net] for the input [1]. *)
Definition demo_config : @NetworkConfig.t R_arith :=
  {| NetworkConfig.learningRate := (1 / 10)%R;
     NetworkConfig.layers := demo_layers;
     NetworkConfig.dataset := XOR;
     NetworkConfig.batchSize := 1 |}.

Definition demo_driver : @Driver R_arith :=
  {| nnRef := demo_net;
     dataRef := (@generateData R_arith R_math demo_random XOR None 0).1;
     stepIndexRef := 0 |}.


(** ** Loops *)

Section FoldM.
Context {S X : Type}.
Implicit Types (f : S → X → option S) (s : S) (xs : list X).

Lemma foldM_app f s xs ys :
  foldM f s (xs ++ ys) = s' ← foldM f s xs; foldM f s' ys.
Proof.
  revert s. induction xs as [|x xs IH]; intros s; simpl; [done|].
  destruct (f s x); simpl; auto.
Qed.

Lemma foldM_ext f f' s xs :
  (∀ s x, x ∈ xs → f s x = f' s x) → foldM f s xs = foldM f' s xs.
Proof.
  revert s. induction xs as [|x xs IH]; intros s Hf; simpl; [done|].
  rewrite Hf by left. destruct (f' s x); simpl; [|done].
  apply IH. intros. apply Hf. by right.
Qed.

(** A loop whose body cannot fail is a plain fold. *)
Lemma foldM_pure f (g : S → X → S) s xs :
  (∀ s x, x ∈ xs → f s x = Some (g s x)) →
  foldM f s xs = Some (fold_left g xs s).
Proof.
  revert s. induction xs as [|x xs IH]; intros s Hf; simpl; [done|].
  rewrite Hf by left. simpl. apply IH. intros. apply Hf. by right.
Qed.

(** The rule of an ascending loop [for (k = a; k < a + n; k++)]: an
    invariant indexed by the loop counter. *)
Lemma foldM_seq_ind (P : nat → S → Prop) (f : S → nat → option S) s a n :
  P a s →
  (∀ k s, a ≤ k < a + n → P k s →
          ∃ s', f s k = Some s' ∧ P (Datatypes.S k) s') →
  ∃ s', foldM f s (seq a n) = Some s' ∧ P (a + n) s'.
Proof.
  revert a s. induction n as [|n IH]; intros a s H0 Hstep; simpl.
  - exists s. by rewrite Nat.add_0_r.
  - destruct (Hstep a s) as (s1 & -> & H1); [lia|done|]. simpl.
    destruct (IH (Datatypes.S a) s1) as (s' & ? & ?); [done| |].
    + intros. apply Hstep; [lia|done].
    + exists s'. split; [done|].
      by replace (a + Datatypes.S n) with (Datatypes.S a + n) by lia.
Qed.

(** The rule of a descending loop [for (k = n - 1; k >= 0; k--)]. *)
Lemma foldM_rev_seq_ind (P : nat → S → Prop) (f : S → nat → option S) s n :
  P n s →
  (∀ k s, k < n → P (Datatypes.S k) s → ∃ s', f s k = Some s' ∧ P k s') →
  ∃ s', foldM f s (rev (seq 0 n)) = Some s' ∧ P 0 s'.
Proof.
  revert s. induction n as [|n IH]; intros s H0 Hstep.
  - by exists s.
  - rewrite seq_S, rev_app_distr. simpl.
    destruct (Hstep n s) as (s1 & -> & H1); [lia|done|]. simpl.
    apply IH; [done|]. intros. apply Hstep; [lia|done].
Qed.
End FoldM.

(** ** In-place updates *)

Lemma upd_Some {X : Type} i (f : X → option X) (l : list X) x y :
  l !! i = Some x → f x = Some y → upd i f l = Some (<[i:=y]> l).
Proof. intros Hl Hf. unfold upd. rewrite Hl. simpl. by rewrite Hf. Qed.

Section Arrays.
Context {X : Type}.
Implicit Types (l : list X) (m : list (list X)) (t : list (list (list X))).

Lemma get2_insert m i row i' j' :
  i < length m →
  get2 (<[i:=row]> m) i' j' = if decide (i' = i) then row !! j' else get2 m i' j'.
Proof.
  intros Hi. unfold get2. case_decide as Hd.
  - subst. by rewrite list_lookup_insert_eq.
  - by rewrite list_lookup_insert_ne.
Qed.

Lemma shape2_insert m i row row' :
  m !! i = Some row → length row' = length row →
  shape2 (<[i:=row']> m) = shape2 m.
Proof.
  intros Hm Hlen. unfold shape2. rewrite list_fmap_insert, Hlen.
  apply list_insert_id. by rewrite list_lookup_fmap, Hm.
Qed.

(** [m[i][j] = f(m[i][j])] changes that entry and nothing else. *)
Lemma upd2_spec (f : X → X) m i j x :
  get2 m i j = Some x →
  ∃ m', upd2 i j f m = Some m' ∧ shape2 m' = shape2 m ∧
        ∀ i' j', get2 m' i' j' =
                 if decide (i' = i ∧ j' = j) then Some (f x) else get2 m i' j'.
Proof.
  intros Hx. assert (∃ row, m !! i = Some row ∧ row !! j = Some x) as (row & Hrow & Hj).
  { unfold get2 in Hx. destruct (m !! i) as [row|]; simplify_eq/=. eauto. }
  exists (<[i := <[j := f x]> row]> m). split; [|split].
  - unfold upd2. eapply upd_Some; [done|]. by eapply upd_Some.
  - eapply shape2_insert; [done|]. by rewrite length_insert.
  - intros i' j'. rewrite get2_insert by (by eapply lookup_lt_Some).
    repeat case_decide; try (exfalso; intuition congruence).
    + destruct_and!; subst. rewrite list_lookup_insert_eq; [done|].
      by eapply lookup_lt_Some.
    + subst. rewrite list_lookup_insert_ne by naive_solver.
      unfold get2. by rewrite Hrow.
    + done.
Qed.

Lemma shape3_insert t i m m' :
  t !! i = Some m → shape2 m' = shape2 m → shape3 (<[i:=m']> t) = shape3 t.
Proof.
  intros Ht Hsh. unfold shape3. rewrite list_fmap_insert, Hsh.
  apply list_insert_id. by rewrite list_lookup_fmap, Ht.
Qed.

Lemma get3_unfold t i j k : get3 t i j k = m ← t !! i; get2 m j k.
Proof. done. Qed.

(** [t[i][j][k] = f(t[i][j][k])] changes that entry and nothing else. *)
Lemma upd3_spec (f : X → X) t i j k x :
  get3 t i j k = Some x →
  ∃ t', upd3 i j k f t = Some t' ∧ shape3 t' = shape3 t ∧
        ∀ i' j' k', get3 t' i' j' k' =
          if decide (i' = i ∧ j' = j ∧ k' = k) then Some (f x)
          else get3 t i' j' k'.
Proof.
  rewrite get3_unfold. intros Hx.
  destruct (t !! i) as [m|] eqn:Hm; [|done]. simpl in Hx.
  destruct (upd2_spec f m j k x Hx) as (m' & Hupd & Hsh & Hget).
  exists (<[i := m']> t). split; [|split].
  - unfold upd3. eapply upd_Some; [done|]. exact Hupd.
  - by eapply shape3_insert.
  - intros i' j' k'. rewrite !get3_unfold.
    destruct (decide (i' = i)) as [->|Hne].
    + rewrite list_lookup_insert_eq by (by eapply lookup_lt_Some).
      rewrite Hm. simpl. rewrite Hget.
      repeat case_decide; try done; exfalso; intuition congruence.
    + rewrite list_lookup_insert_ne by done.
      case_decide; [exfalso; intuition congruence|done].
Qed.

Lemma shape2_lookup m i : shape2 m !! i = length <$> m !! i.
Proof. unfold shape2. by rewrite list_lookup_fmap. Qed.

Lemma shape3_lookup t i : shape3 t !! i = shape2 <$> t !! i.
Proof. unfold shape3. by rewrite list_lookup_fmap. Qed.

Lemma shape2_length m : length (shape2 m) = length m.
Proof. unfold shape2. by rewrite length_fmap. Qed.

Lemma shape3_length t : length (shape3 t) = length t.
Proof. unfold shape3. by rewrite length_fmap. Qed.

Lemma get2_is_Some m i j :
  is_Some (get2 m i j) ↔ ∃ n, shape2 m !! i = Some n ∧ j < n.
Proof.
  unfold get2. rewrite shape2_lookup. split.
  - intros [x Hx]. destruct (m !! i) as [row|]; simplify_eq/=.
    eexists; split; [done|]. by eapply lookup_lt_Some.
  - intros (n & Hn & Hj). destruct (m !! i) as [row|]; simplify_eq/=.
    by apply lookup_lt_is_Some.
Qed.

Lemma get3_is_Some t i j k :
  is_Some (get3 t i j k) ↔
  ∃ sh n, shape3 t !! i = Some sh ∧ sh !! j = Some n ∧ k < n.
Proof.
  rewrite get3_unfold, shape3_lookup. split.
  - intros [x Hx]. destruct (t !! i) as [m|]; simplify_eq/=.
    destruct (proj1 (get2_is_Some m j k)) as (n & ? & ?); [by eexists|].
    by exists (shape2 m), n.
  - intros (sh & n & Hsh & Hn & Hk).
    destruct (t !! i) as [m|]; simplify_eq/=.
    apply get2_is_Some. by exists n.
Qed.
End Arrays.

(** ** Arrays updated entry by entry *)

Section Updates.
Context {X : Type}.
Implicit Types (m : list (list X)) (t : list (list (list X))).

Lemma foldM_pair {S1 S2 Y : Type} (f1 : S1 → Y → option S1)
    (f2 : S2 → Y → option S2) s1 s2 (ys : list Y) :
  foldM (λ '(a, b) y, a' ← f1 a y; b' ← f2 b y; Some (a', b')) (s1, s2) ys
  = a' ← foldM f1 s1 ys; b' ← foldM f2 s2 ys; Some (a', b').
Proof.
  revert s1 s2. induction ys as [|y ys IH]; intros s1 s2; simpl; [done|].
  destruct (f1 s1 y) as [a1|]; simpl; [|done].
  destruct (f2 s2 y) as [b1|]; simpl; [by rewrite IH|].
  by destruct (foldM f1 a1 ys).
Qed.

Lemma matrix_upd_refl m : matrix_upd (λ _ _, false) (λ _ _ x, x) m m.
Proof. by split. Qed.

Lemma matrix_upd_ext V V' F F' m0 m :
  (∀ i j, is_Some (get2 m0 i j) → V i j = V' i j) →
  (∀ i j x, get2 m0 i j = Some x → V i j = true → F i j x = F' i j x) →
  matrix_upd V F m0 m → matrix_upd V' F' m0 m.
Proof.
  intros HV HF [Hsh Hget]. split; [done|]. intros i j. rewrite Hget.
  destruct (get2 m0 i j) as [x|] eqn:Hx.
  - rewrite <- HV by (by rewrite Hx). destruct (V i j) eqn:Hv; [|done].
    simpl. by rewrite (HF _ _ _ Hx Hv).
  - by destruct (V i j), (V' i j).
Qed.

Lemma matrix_upd_step V F m0 m i j :
  matrix_upd V F m0 m → V i j = false → is_Some (get2 m0 i j) →
  ∃ m', upd2 i j (F i j) m = Some m' ∧
        matrix_upd (λ i' j', V i' j' || ((i' =? i) && (j' =? j))) F m0 m'.
Proof.
  intros [Hsh Hget] Hv [x Hx].
  assert (get2 m i j = Some x) as Hm by (by rewrite Hget, Hv).
  destruct (upd2_spec (F i j) m i j x Hm) as (m' & Hupd & Hsh' & Hget').
  exists m'. split; [done|]. split; [congruence|].
  intros i' j'. rewrite Hget'. case_decide as Hd.
  - destruct Hd as [-> ->]. rewrite Hv, !Nat.eqb_refl, Hx. done.
  - replace ((i' =? i) && (j' =? j)) with false.
    + by rewrite orb_false_r.
    + symmetry. apply andb_false_iff.
      rewrite !Nat.eqb_neq. destruct (decide (i' = i)); [right|left]; naive_solver.
Qed.

(** A loop over the entries of row [i]. *)
Lemma matrix_row_loop V F m0 m i c :
  matrix_upd V F m0 m → shape2 m0 !! i = Some c → (∀ j, V i j = false) →
  ∃ m', foldM (λ m k, upd2 i k (F i k) m) m (seq 0 c) = Some m' ∧
        matrix_upd (λ i' j', V i' j' || (i' =? i)) F m0 m'.
Proof.
  intros Hm Hc HV.
  edestruct (foldM_seq_ind
    (λ n m, matrix_upd (λ i' j', V i' j' || ((i' =? i) && (j' <? n))) F m0 m))
    as (m' & Hrun & Hm'); last first.
  { exists m'. split; [exact Hrun|]. revert Hm'. apply matrix_upd_ext; [|done].
    intros i' j' Hs. f_equal. destruct (Nat.eqb_spec i' i) as [->|]; [|done].
    apply get2_is_Some in Hs as (n & Hn & Hj). simplify_eq/=.
    by apply Nat.ltb_lt. }
  - intros k m1 [_ Hk] Hm1. simpl in Hk.
    destruct (matrix_upd_step _ F m0 m1 i k Hm1) as (m' & Hupd & Hm').
    + by rewrite HV, Nat.eqb_refl, Nat.ltb_irrefl.
    + apply get2_is_Some. eauto.
    + exists m'. split; [done|]. revert Hm'. apply matrix_upd_ext; [|done].
      intros i' j' _. rewrite <- orb_assoc. f_equal.
      destruct (Nat.eqb_spec i' i); simpl; [|done].
      destruct (Nat.ltb_spec j' k), (Nat.eqb_spec j' k), (Nat.ltb_spec j' (Datatypes.S k));
        simpl; try done; lia.
  - revert Hm. apply matrix_upd_ext; [|done]. intros i' j' _.
    by rewrite andb_false_r, orb_false_r.
Qed.

Lemma tensor_upd_refl t : tensor_upd (λ _ _ _, false) (λ _ _ _ x, x) t t.
Proof. by split. Qed.

Lemma tensor_upd_ext V V' F F' t0 t :
  (∀ i j k, is_Some (get3 t0 i j k) → V i j k = V' i j k) →
  (∀ i j k x, get3 t0 i j k = Some x → V i j k = true →
              F i j k x = F' i j k x) →
  tensor_upd V F t0 t → tensor_upd V' F' t0 t.
Proof.
  intros HV HF [Hsh Hget]. split; [done|]. intros i j k. rewrite Hget.
  destruct (get3 t0 i j k) as [x|] eqn:Hx.
  - rewrite <- HV by (by rewrite Hx). destruct (V i j k) eqn:Hv; [|done].
    simpl. by rewrite (HF _ _ _ _ Hx Hv).
  - by destruct (V i j k), (V' i j k).
Qed.

Lemma tensor_upd_step V F t0 t i j k :
  tensor_upd V F t0 t → V i j k = false → is_Some (get3 t0 i j k) →
  ∃ t', upd3 i j k (F i j k) t = Some t' ∧
        tensor_upd (λ i' j' k', V i' j' k' ||
                      ((i' =? i) && ((j' =? j) && (k' =? k)))) F t0 t'.
Proof.
  intros [Hsh Hget] Hv [x Hx].
  assert (get3 t i j k = Some x) as Ht by (by rewrite Hget, Hv).
  destruct (upd3_spec (F i j k) t i j k x Ht) as (t' & Hupd & Hsh' & Hget').
  exists t'. split; [done|]. split; [congruence|].
  intros i' j' k'. rewrite Hget'. case_decide as Hd.
  - destruct Hd as (-> & -> & ->). rewrite Hv, !Nat.eqb_refl, Hx. done.
  - replace ((i' =? i) && ((j' =? j) && (k' =? k))) with false.
    + by rewrite orb_false_r.
    + symmetry. rewrite !andb_false_iff, !Nat.eqb_neq.
      destruct (decide (i' = i)); [|by left].
      destruct (decide (j' = j)); [|by right; left].
      right; right. naive_solver.
Qed.

(** The two nested loops over the entries of the matrix [t[i]], of [r]
    rows of [c] entries. *)
Lemma tensor_slice_loop V F t0 t i r c :
  tensor_upd V F t0 t → shape3 t0 !! i = Some (replicate r c) →
  (∀ j k, V i j k = false) →
  ∃ t', foldM (λ t j, foldM (λ t k, upd3 i j k (F i j k) t) t (seq 0 c))
              t (seq 0 r) = Some t' ∧
        tensor_upd (λ i' j' k', V i' j' k' || (i' =? i)) F t0 t'.
Proof.
  intros Ht Hsh HV.
  assert (∀ i' j' k', is_Some (get3 t0 i' j' k') → i' = i → j' < r ∧ k' < c)
    as Hrange.
  { intros i' j' k' Hs ->. apply get3_is_Some in Hs as (sh & n & ? & Hn & ?).
    simplify_eq. apply lookup_replicate in Hn as [-> ?]. done. }
  edestruct (foldM_seq_ind
    (λ n t, tensor_upd (λ i' j' k', V i' j' k' || ((i' =? i) && (j' <? n)))
                       F t0 t)) as (t' & Hrun & Ht'); last first.
  { exists t'. split; [exact Hrun|]. revert Ht'. apply tensor_upd_ext; [|done].
    intros i' j' k' Hs. f_equal. destruct (Nat.eqb_spec i' i) as [->|]; [|done].
    destruct (Hrange _ _ _ Hs eq_refl). by apply Nat.ltb_lt. }
  - intros j t1 [_ Hj] Ht1. simpl in Hj.
    edestruct (foldM_seq_ind
      (λ n t, tensor_upd (λ i' j' k', V i' j' k' ||
                 ((i' =? i) && ((j' <? j) || ((j' =? j) && (k' <? n)))))
                 F t0 t)) as (t' & Hrun & Ht'); last first.
    { exists t'. split; [exact Hrun|]. revert Ht'.
      apply tensor_upd_ext; [|done].
      intros i' j' k' Hs. f_equal. destruct (Nat.eqb_spec i' i) as [->|]; [|done].
      destruct (Hrange _ _ _ Hs eq_refl). simpl.
      destruct (Nat.ltb_spec j' j), (Nat.eqb_spec j' j),
        (Nat.ltb_spec j' (Datatypes.S j)), (Nat.ltb_spec k' c);
        simpl; try done; lia. }
    + intros k t2 [_ Hk] Ht2. simpl in Hk.
      destruct (tensor_upd_step _ F t0 t2 i j k Ht2) as (t' & Hupd & Ht').
      * by rewrite HV, !Nat.eqb_refl, !Nat.ltb_irrefl.
      * apply get3_is_Some. exists (replicate r c), c.
        split; [done|]. split; [|done]. by apply lookup_replicate_2.
      * exists t'. split; [done|]. revert Ht'. apply tensor_upd_ext; [|done].
        intros i' j' k' _. rewrite <- orb_assoc. f_equal.
        destruct (Nat.eqb_spec i' i); simpl; [|done].
        destruct (Nat.ltb_spec j' j), (Nat.eqb_spec j' j),
          (Nat.ltb_spec k' k), (Nat.eqb_spec k' k),
          (Nat.ltb_spec k' (Datatypes.S k)); simpl; try done; lia.
    + revert Ht1. apply tensor_upd_ext; [|done]. intros i' j' k' _.
      f_equal. f_equal. by rewrite andb_false_r, orb_false_r.
  - revert Ht. apply tensor_upd_ext; [|done]. intros i' j' k' _.
    by rewrite andb_false_r, orb_false_r.
Qed.
End Updates.

(** ** Well-formed engines *)

Section WF.
Context {A : Arith}.
Implicit Types (e : MiniNeuralNet) (ls : list LayerConfig).

Lemma weights_shape_length ls : length (weights_shape ls) = length ls - 1.
Proof.
  unfold weights_shape. rewrite length_zip_with, length_tl. lia.
Qed.

Lemma weights_shape_lookup ls i p c :
  ls !! i = Some p → ls !! Datatypes.S i = Some c →
  weights_shape ls !! i = Some (replicate (neurons p) (neurons c)).
Proof.
  intros Hp Hc. unfold weights_shape.
  rewrite lookup_zip_with, Hp, lookup_tail, Hc. done.
Qed.

Lemma wf_length_weights e : wf e → length (weights e) = length (layers e) - 1.
Proof.
  intros He. rewrite <- (shape3_length (weights e)), (wf_weights e He).
  apply weights_shape_length.
Qed.

Lemma wf_length_biases e : wf e → length (biases e) = length (layers e) - 1.
Proof.
  intros He. rewrite <- (shape2_length (biases e)), (wf_biases e He).
  unfold biases_shape. by rewrite length_fmap, length_tl.
Qed.

Lemma wf_lookup_weights e i p c :
  wf e → layers e !! i = Some p → layers e !! Datatypes.S i = Some c →
  ∃ W, weights e !! i = Some W ∧ shape2 W = replicate (neurons p) (neurons c).
Proof.
  intros He Hp Hc.
  pose proof (weights_shape_lookup _ _ _ _ Hp Hc) as Hsh.
  rewrite <- (wf_weights e He), shape3_lookup in Hsh.
  destruct (weights e !! i) as [W|]; simplify_eq/=. eauto.
Qed.

Lemma wf_lookup_biases e i c :
  wf e → layers e !! Datatypes.S i = Some c →
  ∃ b, biases e !! i = Some b ∧ length b = neurons c.
Proof.
  intros He Hc.
  assert (biases_shape (layers e) !! i = Some (neurons c)) as Hsh.
  { unfold biases_shape. by rewrite list_lookup_fmap, lookup_tail, Hc. }
  rewrite <- (wf_biases e He), shape2_lookup in Hsh.
  destruct (biases e !! i) as [b|]; simplify_eq/=. eauto.
Qed.

Lemma wf_lookup_layers e i :
  wf e → i < length (weights e) →
  ∃ p c, layers e !! i = Some p ∧ layers e !! Datatypes.S i = Some c.
Proof.
  intros He Hi. rewrite wf_length_weights in Hi by done.
  destruct (lookup_lt_is_Some_2 (layers e) i) as [p Hp]; [lia|].
  destruct (lookup_lt_is_Some_2 (layers e) (Datatypes.S i)) as [c Hc]; [lia|].
  eauto.
Qed.

Lemma wf_layers_pos e : wf e → 0 < length (layers e).
Proof.
  intros Hwf. pose proof (wf_layers e Hwf) as Hne.
  destruct (layers e); [done|simpl; lia].
Qed.

Lemma layer_at_lookup e i l : layers e !! i = Some l → layer_at e i = l.
Proof. unfold layer_at. by intros ->. Qed.

Lemma wf_lookup_layer e i :
  wf e → i ≤ length (layers e) - 1 → layers e !! i = Some (layer_at e i).
Proof.
  intros Hwf Hi. pose proof (wf_layers_pos e Hwf).
  destruct (lookup_lt_is_Some_2 (layers e) i) as [l Hl]; [lia|].
  by rewrite (layer_at_lookup _ _ _ Hl).
Qed.

Lemma wf_weights_range e i j k :
  wf e → is_Some (get3 (weights e) i j k) →
  i < length (layers e) - 1 ∧ j < neurons (layer_at e i) ∧
  k < neurons (layer_at e (Datatypes.S i)).
Proof.
  intros Hwf Hs. apply get3_is_Some in Hs as (sh & c & Hsh & Hc & Hk).
  assert (i < length (layers e) - 1) as Hi.
  { apply lookup_lt_Some in Hsh.
    by rewrite shape3_length, (wf_length_weights e Hwf) in Hsh. }
  split; [done|].
  destruct (wf_lookup_weights e i _ _ Hwf (wf_lookup_layer e i Hwf ltac:(lia))
              (wf_lookup_layer e (Datatypes.S i) Hwf ltac:(lia)))
    as (W & HW & HshW).
  rewrite shape3_lookup, HW in Hsh. simplify_eq/=.
  rewrite HshW in Hc. apply lookup_replicate in Hc as [-> ?]. done.
Qed.

Lemma shape2_replicate_get2 {X} (W : list (list X)) n m k j :
  shape2 W = replicate n m → k < n → j < m → is_Some (get2 W k j).
Proof.
  intros Hsh Hk Hj. apply get2_is_Some. exists m. split; [|done].
  rewrite Hsh. by apply lookup_replicate_2.
Qed.

Lemma shape2_replicate_length {X} (W : list (list X)) n m :
  shape2 W = replicate n m → length W = n.
Proof.
  intros Hsh. by rewrite <- (shape2_length W), Hsh, length_replicate.
Qed.

Lemma shape2_replicate_rows {X} (W : list (list X)) n m :
  shape2 W = replicate n m → Forall (λ row, length row = m) W.
Proof.
  intros Hsh. apply Forall_lookup. intros k row Hrow.
  assert (shape2 W !! k = Some (length row)) as Hk
    by (by rewrite shape2_lookup, Hrow).
  rewrite Hsh in Hk. by apply lookup_replicate in Hk as [-> _].
Qed.
End WF.

(** ** [forward] *)

Section Forward.
Context {A : Arith} {ML : MathLib A}.
Local Open Scope js_scope.
Implicit Types (e : MiniNeuralNet).

Lemma at1_lookup (l : list num) i x : l !! i = Some x → at1 l i = x.
Proof. unfold at1. by intros ->. Qed.

Lemma at2_get2 (m : list (list num)) i j x : get2 m i j = Some x → at2 m i j = x.
Proof. unfold at2. by intros ->. Qed.

Lemma at3_get3 (t : list (list (list num))) i j k x :
  get3 t i j k = Some x → at3 t i j k = x.
Proof. unfold at3. by intros ->. Qed.

(** The innermost loop of [forward] (lines 123-126). *)
Lemma forward_sum_loop (cur : list num) (W : list (list num)) (b : num) j :
  (∀ k, k < length cur → is_Some (get2 W k j)) →
  foldM (λ sum k, a ← cur !! k; w ← get2 W k j; Some (sum + a * w))
        b (seq 0 (length cur))
  = Some (weighted_sum b cur W j).
Proof.
  intros HW. unfold weighted_sum. apply foldM_pure.
  intros s k Hk. apply elem_of_seq in Hk.
  destruct (lookup_lt_is_Some_2 cur k) as [a Ha]; [lia|].
  destruct (HW k) as [w Hw]; [lia|].
  rewrite Ha, Hw. simpl. by rewrite (at1_lookup _ _ _ Ha), (at2_get2 _ _ _ _ Hw).
Qed.

(** The loop over the neurons of a layer (lines 121-137). *)
Lemma forward_neuron_loop (l : LayerConfig) W (b cur : list num) :
  shape2 W = replicate (length cur) (neurons l) → length b = neurons l →
  ∃ a z,
    foldM (λ '(nextActivations, nextPreActivations) j,
        bj ← b !! j;
        sum ← foldM (λ sum k, a ← cur !! k; w ← get2 W k j; Some (sum + a * w))
                    bj (seq 0 (length cur));
        let val := activate (activation l) sum in
        Some (nextActivations ++ [val], nextPreActivations ++ [sum]))
      ([], []) (seq 0 (neurons l)) = Some (a, z) ∧
    layer_computed l W b cur z a.
Proof.
  intros HW Hb.
  pose (P := λ (n : nat) (st : list num * list num),
    length st.1 = n ∧ length st.2 = n ∧
    ∀ j, j < n → ∃ bj, b !! j = Some bj ∧
      st.2 !! j = Some (weighted_sum bj cur W j) ∧
      st.1 !! j = Some (activate (activation l) (weighted_sum bj cur W j))).
  edestruct (foldM_seq_ind P) as ([a z] & Hrun & Ha & Hz & Hj); last first.
  { exists a, z. split; [exact Hrun|]. split; [done|]. split; [done|]. exact Hj. }
  - intros j [nas nzs] [_ Hjn] (Hlen1 & Hlen2 & Hprev). simpl in *.
    destruct (lookup_lt_is_Some_2 b j) as [bj Hbj]; [lia|].
    rewrite Hbj. simpl. rewrite forward_sum_loop; last first.
    { intros k Hk. eapply shape2_replicate_get2; [done|done|lia]. }
    simpl. eexists. split; [done|]. unfold P. simpl.
    rewrite !length_app, Hlen1, Hlen2. simpl. split; [lia|]. split; [lia|].
    intros j' Hj'. destruct (decide (j' = j)) as [->|].
    + exists bj. split; [done|].
      rewrite !lookup_app_r by lia. rewrite Hlen1, Hlen2, Nat.sub_diag. done.
    + destruct (Hprev j') as (bj' & ? & ? & ?); [lia|].
      exists bj'. rewrite !lookup_app_l by lia. done.
  - split; [done|]. split; [done|]. intros; lia.
Qed.
End Forward.

Section Forward2.
Context {A : Arith} {ML : MathLib A}.
Local Open Scope js_scope.
Implicit Types (e : MiniNeuralNet).

Lemma forward_spec e inputs l0 :
  wf e → layers e !! 0 = Some l0 → length inputs = neurons l0 →
  ∃ out acts pres,
    forward e inputs = Some (out, with_forward_state e acts pres) ∧
    forward_computed e inputs acts pres ∧ last acts = Some out.
Proof.
  intros He Hl0 Hin.
  pose (P := λ (n : nat) (st : list (list num) * list (list num) * list num),
    let '(acts, pres, cur) := st in
    length acts = Datatypes.S n ∧ length pres = Datatypes.S n ∧
    acts !! n = Some cur ∧
    acts !! 0 = Some inputs ∧ pres !! 0 = Some inputs ∧
    (∃ ln, layers e !! n = Some ln ∧ length cur = neurons ln) ∧
    ∀ i l, i < n → layers e !! Datatypes.S i = Some l →
      ∃ prev W b z a,
        acts !! i = Some prev ∧ weights e !! i = Some W ∧
        biases e !! i = Some b ∧
        pres !! Datatypes.S i = Some z ∧ acts !! Datatypes.S i = Some a ∧
        shape2 W = replicate (length prev) (neurons l) ∧
        layer_computed l W b prev z a).
  unfold forward.
  edestruct (foldM_seq_ind P) as ([[acts pres] cur] & -> & HP); last first.
  { simpl in HP. destruct HP as (Ha & Hp & Hcur & Ha0 & Hp0 & _ & Hlay).
    pose proof (wf_length_weights e He) as Hlen.
    assert (length (layers e) ≠ 0) as Hne.
    { destruct (layers e); [done|simpl; lia]. }
    exists cur, acts, pres. split; [done|]. split.
    - split; [lia|]. split; [lia|]. split; [done|]. split; [done|].
      intros i l Hl. apply Hlay; [|done].
      apply lookup_lt_Some in Hl. lia.
    - rewrite last_lookup, Ha. simpl. done. }
  - intros i [[acts pres] cur] [_ Hi]
      (Ha & Hp & Hcur & Ha0 & Hp0 & (ln & Hln & Hlencur) & Hlay).
    simpl in Hi.
    destruct (wf_lookup_layers e i He Hi) as (p & c & Hp' & Hc).
    assert (p = ln) as -> by congruence.
    destruct (wf_lookup_weights e i ln c He Hln Hc) as (W & HW & HshW).
    destruct (wf_lookup_biases e i c He Hc) as (b & Hb & Hlenb).
    rewrite Nat.add_1_r, Hc, HW, Hb. simpl.
    rewrite <- Hlencur in HshW.
    destruct (forward_neuron_loop c W b cur HshW Hlenb) as (a & z & Hrun & Hlc).
    cbv zeta in Hrun. rewrite Hrun. simpl. eexists. split; [done|]. unfold P.
    rewrite !length_app, Ha, Hp. simpl.
    split; [lia|]. split; [lia|]. split.
    { rewrite lookup_app_r by lia. by rewrite Ha, Nat.sub_diag. }
    split. { rewrite lookup_app_l by lia. done. }
    split. { rewrite lookup_app_l by lia. done. }
    split. { exists c. split; [done|]. by destruct Hlc as (_ & ? & _). }
    intros i' l Hi' Hl.
    destruct (decide (i' = i)) as [->|Hne].
    + assert (l = c) as -> by congruence.
      exists cur, W, b, z, a.
      rewrite lookup_app_l by lia.
      rewrite !lookup_app_r by lia. rewrite Ha, Hp, Nat.sub_diag. done.
    + destruct (Hlay i' l) as (prev' & W' & b' & z' & a' & ? & ? & ? & ? & ? & ? & ?);
        [lia|done|].
      exists prev', W', b', z', a'.
      rewrite !lookup_app_l by lia. done.
  - simpl. split; [done|]. split; [done|]. split; [done|].
    split; [done|]. split; [done|]. split; [eauto|]. intros; lia.
Qed.
End Forward2.

(** ** [train]: the gradients of one sample *)

Section Backprop.
Context {A : Arith}.
Implicit Types (e : MiniNeuralNet).

Lemma at1_fmap_seq (f : nat → num) n i : i < n → at1 (f <$> seq 0 n) i = f i.
Proof.
  intros Hi. apply at1_lookup.
  by rewrite list_lookup_fmap, lookup_seq_lt.
Qed.

Lemma shape2_zero_neuronGradients e :
  shape2 (zero_neuronGradients e) = neurons <$> layers e.
Proof.
  unfold shape2, zero_neuronGradients. rewrite <- list_fmap_compose.
  apply list_fmap_ext. intros i l _. simpl. apply length_replicate.
Qed.

Lemma shape3_zero_weightGradients e :
  shape3 (zero_weightGradients e) = shape3 (weights e).
Proof.
  unfold shape3, zero_weightGradients. rewrite <- list_fmap_compose.
  apply list_fmap_ext. intros i W _. simpl.
  unfold shape2. rewrite <- list_fmap_compose.
  apply list_fmap_ext. intros j row _. simpl. apply length_replicate.
Qed.

Lemma get2_zero_neuronGradients e i j x :
  get2 (zero_neuronGradients e) i j = Some x → x = lit 0.
Proof.
  unfold get2, zero_neuronGradients. rewrite list_lookup_fmap.
  destruct (layers e !! i) as [l|]; simpl; [|done].
  intros Hx. by apply lookup_replicate in Hx as [-> _].
Qed.

Lemma get3_zero_weightGradients e i j k x :
  get3 (zero_weightGradients e) i j k = Some x → x = lit 0.
Proof.
  unfold get3, zero_weightGradients. rewrite list_lookup_fmap.
  destruct (weights e !! i) as [W|]; simpl; [|done].
  rewrite list_lookup_fmap. destruct (W !! j) as [row|]; simpl; [|done].
  intros Hx. by apply lookup_replicate in Hx as [-> _].
Qed.

Lemma row_at_lookup {X} (m : list (list X)) i row :
  m !! i = Some row → row_at m i = row.
Proof. unfold row_at. by intros ->. Qed.

Lemma shape2_layers_lookup {X} (m : list (list X)) e i l :
  shape2 m = neurons <$> layers e → layers e !! i = Some l →
  ∃ row, m !! i = Some row ∧ length row = neurons l.
Proof.
  intros Hsh Hl.
  assert (shape2 m !! i = Some (neurons l)) as Hi
    by (by rewrite Hsh, list_lookup_fmap, Hl).
  rewrite shape2_lookup in Hi.
  destruct (m !! i) as [row|]; simplify_eq/=. eauto.
Qed.

Lemma delta_row_output e targets :
  delta_row e targets (length (layers e) - 1) =
  output_deltas (activation (layer_at e (length (layers e) - 1)))
    (row_at (activations e) (length (layers e) - 1)) targets
    (row_at (preActivations e) (length (layers e) - 1)).
Proof. unfold delta_row. by rewrite Nat.sub_diag. Qed.

Lemma delta_row_hidden e targets i :
  i < length (layers e) - 1 →
  delta_row e targets i =
  hidden_deltas (layer_at e i) (layer_at e (Datatypes.S i))
    (row_at (weights e) i)
    (row_at (activations e) i) (row_at (preActivations e) i)
    (delta_row e targets (Datatypes.S i)).
Proof.
  intros Hi. unfold delta_row.
  replace (length (layers e) - 1 - i)
    with (Datatypes.S (length (layers e) - 1 - Datatypes.S i)) by lia.
  simpl.
  replace (length (layers e) - 1 - Datatypes.S (length (layers e) - 1 - Datatypes.S i))
    with i by lia.
  done.
Qed.

Lemma js_index_pred n : 0 < n → js_index (Z.of_nat n - 1) = Some (n - 1).
Proof.
  intros Hn. unfold js_index.
  destruct (Z.leb_spec 0 (Z.of_nat n - 1)); [|lia]. f_equal. lia.
Qed.

Section Sample.
Variables (e : MiniNeuralNet) (targets : list num).
Hypothesis Hwf : wf e.
Hypothesis Hacts : shape2 (activations e) = neurons <$> layers e.
Hypothesis Hpres : shape2 (preActivations e) = neurons <$> layers e.
Hypothesis Htargets :
  length targets = neurons (layer_at e (length (layers e) - 1)).

Let n := length (layers e) - 1.

Lemma layers_pos : 0 < length (layers e).
Proof. by apply wf_layers_pos. Qed.

Lemma lookup_layer i : i ≤ n → layers e !! i = Some (layer_at e i).
Proof. intros Hi. by apply wf_lookup_layer. Qed.

Lemma lookup_acts i :
  i ≤ n → activations e !! i = Some (row_at (activations e) i) ∧
          length (row_at (activations e) i) = neurons (layer_at e i).
Proof.
  intros Hi.
  destruct (shape2_layers_lookup _ e i _ Hacts (lookup_layer i Hi))
    as (row & Hrow & Hlen).
  by rewrite (row_at_lookup _ _ _ Hrow).
Qed.

Lemma lookup_pres i :
  i ≤ n → preActivations e !! i = Some (row_at (preActivations e) i) ∧
          length (row_at (preActivations e) i) = neurons (layer_at e i).
Proof.
  intros Hi.
  destruct (shape2_layers_lookup _ e i _ Hpres (lookup_layer i Hi))
    as (row & Hrow & Hlen).
  by rewrite (row_at_lookup _ _ _ Hrow).
Qed.

Lemma get2_acts i j :
  i ≤ n → j < neurons (layer_at e i) →
  get2 (activations e) i j = Some (at2 (activations e) i j) ∧
  at1 (row_at (activations e) i) j = at2 (activations e) i j.
Proof.
  intros Hi Hj. destruct (lookup_acts i Hi) as [Hrow Hlen].
  destruct (lookup_lt_is_Some_2 (row_at (activations e) i) j) as [x Hx]; [lia|].
  assert (get2 (activations e) i j = Some x) as Hg
    by (unfold get2; rewrite Hrow; done).
  by rewrite (at2_get2 _ _ _ _ Hg), (at1_lookup _ _ _ Hx).
Qed.

Lemma get2_pres i j :
  i ≤ n → j < neurons (layer_at e i) →
  get2 (preActivations e) i j = Some (at2 (preActivations e) i j) ∧
  at1 (row_at (preActivations e) i) j = at2 (preActivations e) i j.
Proof.
  intros Hi Hj. destruct (lookup_pres i Hi) as [Hrow Hlen].
  destruct (lookup_lt_is_Some_2 (row_at (preActivations e) i) j) as [x Hx]; [lia|].
  assert (get2 (preActivations e) i j = Some x) as Hg
    by (unfold get2; rewrite Hrow; done).
  by rewrite (at2_get2 _ _ _ _ Hg), (at1_lookup _ _ _ Hx).
Qed.

Lemma length_delta_row i :
  i ≤ n → length (delta_row e targets i) = neurons (layer_at e i).
Proof.
  intros Hi. destruct (decide (i = n)) as [->|Hne].
  - unfold n. rewrite delta_row_output. unfold output_deltas.
    rewrite length_fmap, length_seq. by apply lookup_acts.
  - rewrite delta_row_hidden by (unfold n in *; lia).
    unfold hidden_deltas. by rewrite length_fmap, length_seq.
Qed.

(** Step 2 (lines 155-169). *)
Lemma output_error_spec :
  ∃ ng,
    output_error e (row_at (activations e) n) targets (zero_neuronGradients e)
    = Some ng ∧
    matrix_upd (λ i _, i =? n) (stored_delta e targets) (zero_neuronGradients e) ng.
Proof.
  pose proof layers_pos as Hpos.
  destruct (lookup_acts n (le_n _)) as [Hout Hlen].
  destruct (lookup_pres n (le_n _)) as [Hz Hlenz].
  unfold output_error.
  rewrite (foldM_ext _ (λ ng i, upd2 n i ((stored_delta e targets) n i) ng)).
  - destruct (matrix_row_loop (λ _ _, false) (stored_delta e targets) (zero_neuronGradients e)
      (zero_neuronGradients e) n (length (row_at (activations e) n)))
      as (ng & Hrun & Hng).
    + split; [done|]. done.
    + rewrite shape2_zero_neuronGradients, list_lookup_fmap.
      rewrite (lookup_layer n (le_n _)). simpl. by rewrite Hlen.
    + done.
    + exists ng. split; [exact Hrun|]. revert Hng. by apply matrix_upd_ext.
  - intros ng i Hi. apply elem_of_seq in Hi. simpl in Hi.
    destruct (lookup_lt_is_Some_2 (row_at (activations e) n) i) as [o Ho]; [lia|].
    destruct (lookup_lt_is_Some_2 targets i) as [t Ht]; [unfold n in *; lia|].
    destruct (get2_pres n i) as [Hgz Hatz]; [done|lia|].
    rewrite Ho, Ht. simpl. rewrite js_index_pred by done. simpl.
    fold n. rewrite Hgz. simpl. rewrite (lookup_layer n (le_n _)). simpl.
    unfold set2, set1, upd2, stored_delta. unfold n at 5. rewrite delta_row_output. fold n.
    unfold output_deltas. rewrite at1_fmap_seq by lia.
    rewrite (at1_lookup _ _ _ Ho), (at1_lookup _ _ _ Ht), Hatz. done.
Qed.

Lemma list_eq_at1 (l1 l2 : list num) :
  length l1 = length l2 →
  (∀ k, k < length l1 → l1 !! k = Some (at1 l2 k)) → l1 = l2.
Proof.
  intros Hlen Hk. apply list_eq. intros k.
  destruct (decide (k < length l1)) as [Hlt|Hge].
  - rewrite (Hk k Hlt).
    destruct (lookup_lt_is_Some_2 l2 k) as [x Hx]; [lia|].
    by rewrite (at1_lookup _ _ _ Hx).
  - rewrite !lookup_ge_None_2; [done|lia|lia].
Qed.

Variables (accW0 : list (list (list num))) (accB0 : list (list num)).
Hypothesis HaccW0 : shape3 accW0 = shape3 (weights e).
Hypothesis HaccB0 : shape2 accB0 = shape2 (biases e).

Lemma delta_row_stored i ng V :
  i ≤ n → matrix_upd V (stored_delta e targets) (zero_neuronGradients e) ng →
  (∀ j, V i j = true) →
  ng !! i = Some (delta_row e targets i).
Proof.
  intros Hi [Hsh Hget] HV.
  rewrite shape2_zero_neuronGradients in Hsh.
  destruct (shape2_layers_lookup ng e i _ Hsh (lookup_layer i Hi))
    as (row & Hrow & Hlen).
  rewrite Hrow. f_equal. apply list_eq_at1.
  - rewrite length_delta_row by lia. done.
  - intros k Hk.
    assert (get2 ng i k = row !! k) as <- by (unfold get2; by rewrite Hrow).
    rewrite Hget, HV.
    destruct (get2 (zero_neuronGradients e) i k) as [x|] eqn:Hx; [done|].
    exfalso. assert (is_Some (get2 (zero_neuronGradients e) i k))
      as [? ?]; [|congruence].
    apply get2_is_Some. exists (neurons (layer_at e i)).
    rewrite shape2_zero_neuronGradients, list_lookup_fmap.
    rewrite (lookup_layer i) by lia. split; [done|lia].
Qed.

Lemma next_gradients i ng :
  i < n →
  matrix_upd (λ i' _, (i' =? n) || ((Datatypes.S i <=? i') && (0 <? i'))) (stored_delta e targets)
    (zero_neuronGradients e) ng →
  ng !! Datatypes.S i = Some (delta_row e targets (Datatypes.S i)).
Proof.
  intros Hi Hng. eapply delta_row_stored; [lia|exact Hng|].
  intros j. simpl. by rewrite Nat.leb_refl, orb_true_r.
Qed.

(** The loops over the weights between layers [i] and [i+1]
    (lines 177-186). *)
Lemma weight_gradient_loops i wi prev wg accW :
  i < n → weights e !! i = Some wi → activations e !! i = Some prev →
  tensor_upd (λ i' _ _, Datatypes.S i <=? i') (stored_gradient e targets) (zero_weightGradients e) wg →
  tensor_upd (λ i' _ _, Datatypes.S i <=? i') (added_gradient e targets) accW0 accW →
  ∃ wg' accW',
    foldM (λ st j,
      wij ← wi !! j;
      foldM (λ '(wg, accW) k,
        d ← delta_row e targets (Datatypes.S i) !! k;
        a ← prev !! j;
        wg ← set3 i j k (mul d a) wg;
        accW ← upd3 i j k (λ x, add x (mul d a)) accW;
        Some (wg, accW))
        st (seq 0 (length wij)))
      (wg, accW) (seq 0 (length wi)) = Some (wg', accW') ∧
    tensor_upd (λ i' _ _, i <=? i') (stored_gradient e targets) (zero_weightGradients e) wg' ∧
    tensor_upd (λ i' _ _, i <=? i') (added_gradient e targets) accW0 accW'.
Proof.
  intros Hi Hwi Hprev Hwg HaccW.
  destruct (wf_lookup_weights e i _ _ Hwf (lookup_layer i ltac:(lia))
              (lookup_layer (Datatypes.S i) ltac:(lia))) as (W & HW & HshW).
  assert (W = wi) as -> by congruence.
  set (r := neurons (layer_at e i)) in *.
  set (c := neurons (layer_at e (Datatypes.S i))) in *.
  destruct (lookup_acts i ltac:(lia)) as [Hrow Hlenprev].
  assert (row_at (activations e) i = prev) as Hprev' by congruence.
  rewrite Hprev' in Hlenprev. fold r in Hlenprev.
  rewrite (shape2_replicate_length _ _ _ HshW).
  rewrite (foldM_ext _ (λ '(wg, accW) j,
     a' ← foldM (λ t k, upd3 i j k ((stored_gradient e targets) i j k) t) wg (seq 0 c);
     b' ← foldM (λ t k, upd3 i j k ((added_gradient e targets) i j k) t) accW (seq 0 c);
     Some (a', b'))).
  - rewrite foldM_pair.
    assert (shape3 (zero_weightGradients e) !! i = Some (replicate r c)) as Hs1.
    { rewrite shape3_zero_weightGradients, shape3_lookup, Hwi. simpl.
      by rewrite HshW. }
    assert (shape3 accW0 !! i = Some (replicate r c)) as Hs2.
    { rewrite HaccW0, shape3_lookup, Hwi. simpl. by rewrite HshW. }
    destruct (tensor_slice_loop _ (stored_gradient e targets) _ wg i r c Hwg Hs1) as (wg' & -> & Hwg').
    { intros _ _. apply Nat.leb_gt. lia. }
    destruct (tensor_slice_loop _ (added_gradient e targets) _ accW i r c HaccW Hs2)
      as (accW' & -> & HaccW').
    { intros _ _. apply Nat.leb_gt. lia. }
    exists wg', accW'. split; [done|]. split.
    + revert Hwg'. apply tensor_upd_ext; [|done]. intros i' _ _ _.
      destruct (Nat.leb_spec (Datatypes.S i) i'), (Nat.eqb_spec i' i),
        (Nat.leb_spec i i'); simpl; try done; lia.
    + revert HaccW'. apply tensor_upd_ext; [|done]. intros i' _ _ _.
      destruct (Nat.leb_spec (Datatypes.S i) i'), (Nat.eqb_spec i' i),
        (Nat.leb_spec i i'); simpl; try done; lia.
  - intros [wg1 accW1] j Hj. apply elem_of_seq in Hj. simpl in Hj.
    destruct (lookup_lt_is_Some_2 wi j) as [wij Hwij].
    { rewrite (shape2_replicate_length _ _ _ HshW). lia. }
    rewrite Hwij. simpl.
    assert (length wij = c) as ->.
    { pose proof (shape2_replicate_rows _ _ _ HshW) as Hrows.
      rewrite Forall_lookup in Hrows. by apply (Hrows j). }
    rewrite <- foldM_pair. apply foldM_ext.
    intros [wg2 accW2] k Hk. apply elem_of_seq in Hk. simpl in Hk.
    destruct (lookup_lt_is_Some_2 (delta_row e targets (Datatypes.S i)) k)
      as [d Hd]; [rewrite length_delta_row by lia; fold c; lia|].
    destruct (lookup_lt_is_Some_2 prev j) as [a Ha]; [lia|].
    rewrite Hd, Ha. simpl.
    unfold set3, set1, upd3, stored_gradient, added_gradient.
    assert (at2 (activations e) i j = a) as ->.
    { apply at2_get2. unfold get2. by rewrite Hprev. }
    rewrite (at1_lookup _ _ _ Hd). done.
Qed.

(** The loop over the biases of layer [i+1] (lines 189-191). *)
Lemma bias_gradient_loop i bi accB :
  i < n → biases e !! i = Some bi →
  matrix_upd (λ i' _, Datatypes.S i <=? i') (added_delta e targets) accB0 accB →
  ∃ accB',
    foldM (λ accB k,
      d ← delta_row e targets (Datatypes.S i) !! k;
      upd2 i k (λ x, add x d) accB)
      accB (seq 0 (length bi)) = Some accB' ∧
    matrix_upd (λ i' _, i <=? i') (added_delta e targets) accB0 accB'.
Proof.
  intros Hi Hbi HaccB.
  destruct (wf_lookup_biases e i _ Hwf (lookup_layer (Datatypes.S i) ltac:(lia)))
    as (b & Hb & Hlenb).
  assert (b = bi) as -> by congruence.
  rewrite (foldM_ext _ (λ accB k, upd2 i k ((added_delta e targets) i k) accB)).
  - destruct (matrix_row_loop _ (added_delta e targets) accB0 accB i (length bi) HaccB)
      as (accB' & -> & HaccB').
    + by rewrite HaccB0, shape2_lookup, Hbi.
    + intros _. apply Nat.leb_gt. lia.
    + exists accB'. split; [done|]. revert HaccB'.
      apply matrix_upd_ext; [|done]. intros i' _ _.
      destruct (Nat.leb_spec (Datatypes.S i) i'), (Nat.eqb_spec i' i),
        (Nat.leb_spec i i'); simpl; try done; lia.
  - intros accB1 k Hk. apply elem_of_seq in Hk. simpl in Hk.
    destruct (lookup_lt_is_Some_2 (delta_row e targets (Datatypes.S i)) k)
      as [d Hd]; [rewrite length_delta_row by lia; lia|].
    rewrite Hd. simpl. unfold added_delta. by rewrite (at1_lookup _ _ _ Hd).
Qed.

(** The innermost loop of the error terms (lines 196-199). *)
Lemma error_sum_loop (next : list num) (W : list (list num)) j c :
  c ≤ length next → (∀ k, k < c → is_Some (get2 W j k)) →
  foldM (λ errorSum k,
      d ← next !! k; w ← get2 W j k; Some (add errorSum (mul d w)))
    (lit 0) (seq 0 c)
  = Some (error_sum next W j c).
Proof.
  intros Hc HW. unfold error_sum. apply foldM_pure.
  intros s k Hk. apply elem_of_seq in Hk.
  destruct (lookup_lt_is_Some_2 next k) as [d Hd]; [lia|].
  destruct (HW k) as [w Hw]; [lia|].
  rewrite Hd, Hw. simpl.
  by rewrite (at1_lookup _ _ _ Hd), (at2_get2 _ _ _ _ Hw).
Qed.

(** The loop over the neurons of a hidden layer [i] (lines 195-211). *)
Lemma hidden_delta_loop i wi ng :
  0 < i → i < n → weights e !! i = Some wi →
  matrix_upd (λ i' _, (i' =? n) || ((Datatypes.S i <=? i') && (0 <? i'))) (stored_delta e targets)
    (zero_neuronGradients e) ng →
  ∃ ng',
    foldM (λ ng j,
      lnext ← layers e !! (i + 1);
      errorSum ←
        foldM (λ errorSum k,
          d ← delta_row e targets (Datatypes.S i) !! k;
          w ← get2 wi j k;
          Some (add errorSum (mul d w)))
          (lit 0) (seq 0 (neurons lnext));
      z ← get2 (preActivations e) i j;
      a ← get2 (activations e) i j;
      set2 i j (mul errorSum (activationPrime (activation (layer_at e i)) a z))
        ng)
      ng (seq 0 (neurons (layer_at e i))) = Some ng' ∧
    matrix_upd (λ i' _, (i' =? n) || ((i <=? i') && (0 <? i'))) (stored_delta e targets)
      (zero_neuronGradients e) ng'.
Proof.
  intros Hpos Hi Hwi Hng.
  destruct (wf_lookup_weights e i _ _ Hwf (lookup_layer i ltac:(lia))
              (lookup_layer (Datatypes.S i) ltac:(lia))) as (W & HW & HshW).
  assert (W = wi) as -> by congruence.
  rewrite (foldM_ext _ (λ ng j, upd2 i j ((stored_delta e targets) i j) ng)).
  - destruct (matrix_row_loop _ (stored_delta e targets) _ ng i (neurons (layer_at e i)) Hng)
      as (ng' & -> & Hng').
    + rewrite shape2_zero_neuronGradients, list_lookup_fmap.
      by rewrite (lookup_layer i) by lia.
    + intros _. apply orb_false_iff. split.
      * apply Nat.eqb_neq. lia.
      * apply andb_false_iff. left. apply Nat.leb_gt. lia.
    + exists ng'. split; [done|]. revert Hng'.
      apply matrix_upd_ext; [|done]. intros i' _ _.
      destruct (Nat.eqb_spec i' n), (Nat.leb_spec (Datatypes.S i) i'),
        (Nat.ltb_spec 0 i'), (Nat.eqb_spec i' i), (Nat.leb_spec i i');
        simpl; try done; lia.
  - intros ng1 j Hj. apply elem_of_seq in Hj. simpl in Hj.
    rewrite Nat.add_1_r, (lookup_layer (Datatypes.S i)) by lia. simpl.
    rewrite error_sum_loop; last first.
    { intros k Hk. eapply shape2_replicate_get2; [done|lia|done]. }
    { rewrite length_delta_row by lia. done. }
    simpl.
    destruct (get2_pres i j) as [Hz Hatz]; [lia|lia|].
    destruct (get2_acts i j) as [Ha Hata]; [lia|lia|].
    rewrite Hz, Ha. simpl.
    unfold set2, set1, upd2, stored_delta.
    rewrite (delta_row_hidden e targets i) by (fold n; lia).
    unfold hidden_deltas. rewrite at1_fmap_seq by lia.
    rewrite (row_at_lookup _ _ _ Hwi), Hatz, Hata. done.
Qed.

(** One iteration of the loop of step 3. *)
Lemma backprop_layer_spec i st :
  i < n → backprop_inv e targets accW0 accB0 (Datatypes.S i) st →
  ∃ st', backprop_layer e st i = Some st' ∧ backprop_inv e targets accW0 accB0 i st'.
Proof.
  intros Hi. destruct st as [[[ng wg] accW] accB].
  unfold backprop_inv. cbv zeta. fold n.
  intros (Hng & Hwg & HaccW & HaccB).
  unfold backprop_layer.
  destruct (lookup_acts i ltac:(lia)) as [Hprev _].
  rewrite Hprev. simpl.
  rewrite Nat.add_1_r, (next_gradients i ng Hi Hng). simpl.
  destruct (wf_lookup_weights e i _ _ Hwf (lookup_layer i ltac:(lia))
              (lookup_layer (Datatypes.S i) ltac:(lia))) as (wi & Hwi & HshW).
  rewrite Hwi. simpl.
  destruct (weight_gradient_loops i wi _ wg accW Hi Hwi Hprev Hwg HaccW)
    as (wg' & accW' & Hrun & Hwg' & HaccW').
  rewrite Hrun. simpl.
  destruct (wf_lookup_biases e i _ Hwf (lookup_layer (Datatypes.S i) ltac:(lia)))
    as (bi & Hbi & Hlenb).
  rewrite Hbi. simpl.
  destruct (bias_gradient_loop i bi accB Hi Hbi HaccB) as (accB' & Hrun2 & HaccB').
  rewrite Hrun2. simpl.
  destruct (Nat.ltb_spec 0 i) as [Hpos|Hzero].
  - rewrite (lookup_layer i) by lia. simpl.
    destruct (hidden_delta_loop i wi ng Hpos Hi Hwi Hng) as (ng' & Hrun3 & Hng').
    rewrite Nat.add_1_r in Hrun3. rewrite Hrun3. simpl.
    eexists. split; [done|]. done.
  - simpl. eexists. split; [done|]. split; [|done].
    revert Hng. apply matrix_upd_ext; [|done]. intros i' _ _.
    destruct (Nat.eqb_spec i' n), (Nat.leb_spec (Datatypes.S i) i'),
      (Nat.ltb_spec 0 i'), (Nat.leb_spec i i'); simpl; try done; lia.
Qed.

(** Steps 2 and 3 of [train]. *)
Lemma backprop_spec :
  ∃ ng1 st,
    output_error e (row_at (activations e) n) targets (zero_neuronGradients e)
    = Some ng1 ∧
    foldM (backprop_layer e) (ng1, zero_weightGradients e, accW0, accB0)
          (rev (seq 0 (length (weights e)))) = Some st ∧
    backprop_inv e targets accW0 accB0 0 st.
Proof.
  destruct output_error_spec as (ng1 & Hout & Hng1).
  exists ng1.
  destruct (foldM_rev_seq_ind (backprop_inv e targets accW0 accB0) (backprop_layer e)
              (ng1, zero_weightGradients e, accW0, accB0)
              (length (weights e))) as (st & Hrun & Hst).
  - pose proof (wf_length_weights e Hwf) as Hlen. fold n in Hlen.
    rewrite Hlen. unfold backprop_inv. cbv zeta. fold n.
    split; [|split; [|split]].
    + revert Hng1. apply matrix_upd_ext; [|done]. intros i' j' Hs.
      apply get2_is_Some in Hs as (c & Hc & _).
      rewrite shape2_zero_neuronGradients in Hc.
      apply lookup_lt_Some in Hc. rewrite length_fmap in Hc.
      destruct (Nat.eqb_spec i' n), (Nat.leb_spec n i'), (Nat.ltb_spec 0 i');
        simpl; try done; unfold n in *; lia.
    + split; [done|]. intros i' j' k'.
      destruct (Nat.leb_spec n i'); [|done].
      rewrite (proj2 (eq_None_not_Some _)); [done|].
      intros Hs. apply get3_is_Some in Hs as (sh & c & Hsh & _).
      apply lookup_lt_Some in Hsh.
      rewrite shape3_length in Hsh. unfold zero_weightGradients in Hsh.
      rewrite length_fmap in Hsh. lia.
    + split; [done|]. intros i' j' k'.
      destruct (Nat.leb_spec n i'); [|done].
      rewrite (proj2 (eq_None_not_Some _)); [done|].
      intros Hs. apply get3_is_Some in Hs as (sh & c & Hsh & _).
      apply lookup_lt_Some in Hsh.
      rewrite HaccW0, shape3_length in Hsh. lia.
    + split; [done|]. intros i' k'.
      destruct (Nat.leb_spec n i'); [|done].
      rewrite (proj2 (eq_None_not_Some _)); [done|].
      intros Hs. apply get2_is_Some in Hs as (c & Hsh & _).
      apply lookup_lt_Some in Hsh.
      rewrite HaccB0, shape2_length, (wf_length_biases e Hwf) in Hsh.
      fold n in Hsh. lia.
  - intros i st Hi Hst. apply backprop_layer_spec; [|done].
    rewrite (wf_length_weights e Hwf) in Hi. exact Hi.
  - exists st. done.
Qed.

Lemma weights_range i j k :
  is_Some (get3 (weights e) i j k) →
  i < n ∧ j < neurons (layer_at e i) ∧ k < neurons (layer_at e (Datatypes.S i)).
Proof. intros Hs. by apply wf_weights_range. Qed.

Lemma at2_row_at (m : list (list num)) i j row :
  m !! i = Some row → at2 m i j = at1 row j.
Proof. intros Hm. unfold at2, at1, get2. by rewrite Hm. Qed.

(** What the per-sample arrays and the accumulators hold after steps 2
    and 3. *)
Lemma backprop_inv_deltas ng wg accW accB :
  backprop_inv e targets accW0 accB0 0 (ng, wg, accW, accB) →
  shape2 ng = neurons <$> layers e ∧
  (∀ j, j < neurons (layer_at e n) →
     get2 ng n j =
     Some (mul (sub (at2 (activations e) n j) (at1 targets j))
               (activationPrime (activation (layer_at e n))
                  (at2 (activations e) n j) (at2 (preActivations e) n j)))) ∧
  (∀ i j, 0 < i < n → j < neurons (layer_at e i) →
     get2 ng i j =
     Some (mul (error_sum (row_at ng (Datatypes.S i)) (row_at (weights e) i) j
                  (neurons (layer_at e (Datatypes.S i))))
               (activationPrime (activation (layer_at e i))
                  (at2 (activations e) i j) (at2 (preActivations e) i j)))) ∧
  (0 < n → ∀ j, j < neurons (layer_at e 0) → get2 ng 0 j = Some (lit 0)).
Proof.
  unfold backprop_inv. cbv zeta. fold n.
  intros (Hng & _). pose proof Hng as [Hsh Hget].
  assert (∀ i j, i ≤ n → j < neurons (layer_at e i) →
            get2 (zero_neuronGradients e) i j = Some (lit 0)) as Hzero.
  { intros i j Hi Hj.
    assert (is_Some (get2 (zero_neuronGradients e) i j)) as [x Hx].
    { apply get2_is_Some. exists (neurons (layer_at e i)).
      rewrite shape2_zero_neuronGradients, list_lookup_fmap.
      rewrite (lookup_layer i) by lia. done. }
    by rewrite Hx, (get2_zero_neuronGradients _ _ _ _ Hx). }
  split; [by rewrite Hsh, shape2_zero_neuronGradients|]. split; [|split].
  - intros j Hj. rewrite Hget, Nat.eqb_refl. simpl.
    rewrite Hzero by done. simpl. unfold stored_delta.
    unfold n at 1. rewrite delta_row_output. fold n. unfold output_deltas.
    destruct (lookup_acts n (le_n _)) as [_ Hlen].
    rewrite at1_fmap_seq by lia.
    destruct (get2_acts n j) as [_ ->]; [done|done|].
    destruct (get2_pres n j) as [_ ->]; [done|done|]. done.
  - intros i j [Hpos Hi] Hj. rewrite Hget.
    replace ((i =? n) || ((0 <=? i) && (0 <? i))) with true.
    2:{ symmetry. apply orb_true_iff. right. apply andb_true_iff.
        split; [done|]. by apply Nat.ltb_lt. }
    rewrite Hzero by (done || lia). simpl. unfold stored_delta.
    rewrite (delta_row_hidden e targets i) by (fold n; lia).
    unfold hidden_deltas. rewrite at1_fmap_seq by lia.
    destruct (get2_acts i j) as [_ ->]; [lia|done|].
    destruct (get2_pres i j) as [_ ->]; [lia|done|].
    rewrite (row_at_lookup ng (Datatypes.S i) (delta_row e targets (Datatypes.S i))).
    + done.
    + eapply delta_row_stored; [lia|exact Hng|]. intros ?. simpl.
      apply orb_true_r.
  - intros Hn j Hj. rewrite Hget.
    replace ((0 =? n) || ((0 <=? 0) && (0 <? 0))) with false.
    + apply Hzero; [lia|done].
    + symmetry. apply orb_false_iff. split; [|done]. apply Nat.eqb_neq. lia.
Qed.

Lemma backprop_inv_gradients ng wg accW accB :
  backprop_inv e targets accW0 accB0 0 (ng, wg, accW, accB) →
  shape3 wg = shape3 (weights e) ∧
  (∀ i j k, is_Some (get3 (weights e) i j k) →
     get3 wg i j k = Some (mul (at2 ng (Datatypes.S i) k)
                               (at2 (activations e) i j))) ∧
  shape3 accW = shape3 (weights e) ∧ shape2 accB = shape2 (biases e) ∧
  (∀ i j k x, get3 accW0 i j k = Some x →
     get3 accW i j k = Some (add x (at3 wg i j k))) ∧
  (∀ i k x, get2 accB0 i k = Some x →
     get2 accB i k = Some (add x (at2 ng (Datatypes.S i) k))).
Proof.
  unfold backprop_inv. cbv zeta. fold n.
  intros (Hng & [Hshwg Hwg] & [HshaccW HaccW] & [HshaccB HaccB]).
  assert (∀ i k, i < n → at2 ng (Datatypes.S i) k =
                         at1 (delta_row e targets (Datatypes.S i)) k) as Hnext.
  { intros i k Hi. apply at2_row_at.
    eapply delta_row_stored; [lia|exact Hng|]. intros ?. simpl. apply orb_true_r. }
  assert (∀ i j k, is_Some (get3 (weights e) i j k) →
     get3 wg i j k = Some (mul (at2 ng (Datatypes.S i) k)
                               (at2 (activations e) i j))) as Hwg'.
  { intros i j k Hs. destruct (weights_range i j k Hs) as (Hi & Hj & Hk).
    rewrite Hwg. simpl.
    assert (is_Some (get3 (zero_weightGradients e) i j k)) as [x ->].
    { apply get3_is_Some. apply get3_is_Some in Hs.
      by rewrite shape3_zero_weightGradients. }
    simpl. unfold stored_gradient. by rewrite Hnext. }
  split; [by rewrite Hshwg, shape3_zero_weightGradients|].
  split; [done|]. split; [congruence|]. split; [congruence|]. split.
  - intros i j k x Hx.
    assert (is_Some (get3 (weights e) i j k)) as Hs.
    { apply get3_is_Some. rewrite <- HaccW0. apply get3_is_Some. eauto. }
    destruct (weights_range i j k Hs) as (Hi & Hj & Hk).
    rewrite HaccW, Hx. simpl. unfold added_gradient.
    by rewrite (at3_get3 _ _ _ _ _ (Hwg' i j k Hs)), Hnext.
  - intros i k x Hx.
    assert (i < n) as Hi.
    { assert (is_Some (get2 accB0 i k)) as Hs by eauto.
      apply get2_is_Some in Hs as (c & Hc & _).
      apply lookup_lt_Some in Hc.
      by rewrite HaccB0, shape2_length, (wf_length_biases e Hwf) in Hc. }
    rewrite HaccB, Hx. simpl. unfold added_delta. by rewrite Hnext.
Qed.
End Sample.
End Backprop.

(** ** [train]: the update of step 4 *)

Section Update.
Context {A : Arith}.
Implicit Types (e : MiniNeuralNet).

Lemma apply_update_spec e accW accB :
  wf e → shape3 accW = shape3 (weights e) → shape2 accB = shape2 (biases e) →
  ∃ ws bs,
    apply_update e accW accB = Some (ws, bs) ∧
    tensor_upd (λ _ _ _, true) (stepped_weight e accW) (weights e) ws ∧
    matrix_upd (λ _ _, true) (stepped_bias e accB) (biases e) bs.
Proof.
  intros Hwf HaccW HaccB. unfold apply_update.
  edestruct (foldM_seq_ind (λ i (st : list (list (list num)) * list (list num)),
      tensor_upd (λ i' _ _, i' <? i) (stepped_weight e accW) (weights e) st.1 ∧
      matrix_upd (λ i' _, i' <? i) (stepped_bias e accB) (biases e) st.2))
    as ([ws bs] & Hrun & Hws & Hbs); last first.
  { exists ws, bs. split; [exact Hrun|]. simpl in *. split.
    - revert Hws. apply tensor_upd_ext; [|done]. intros i' j' k' Hs.
      apply get3_is_Some in Hs as (sh & c & Hsh & _).
      apply lookup_lt_Some in Hsh. rewrite shape3_length in Hsh.
      by apply Nat.ltb_lt.
    - revert Hbs. apply matrix_upd_ext; [|done]. intros i' k' Hs.
      apply get2_is_Some in Hs as (c & Hsh & _).
      apply lookup_lt_Some in Hsh.
      rewrite shape2_length, (wf_length_biases e Hwf),
        <- (wf_length_weights e Hwf) in Hsh.
      by apply Nat.ltb_lt. }
  - intros i [ws bs] [_ Hi] [Hws Hbs]. simpl in Hi, Hws, Hbs.
    destruct (wf_lookup_layers e i Hwf Hi) as (p & c & Hp & Hc).
    destruct (wf_lookup_weights e i p c Hwf Hp Hc) as (W & HW & HshW).
    destruct (wf_lookup_biases e i c Hwf Hc) as (b & Hb & Hlenb).
    assert (∃ wi, ws !! i = Some wi ∧ shape2 wi = replicate (neurons p) (neurons c))
      as (wi & Hwi & Hshwi).
    { destruct Hws as [Hsh _].
      assert (shape3 ws !! i = Some (replicate (neurons p) (neurons c))) as Hl
        by (by rewrite Hsh, shape3_lookup, HW; simpl; rewrite HshW).
      rewrite shape3_lookup in Hl.
      destruct (ws !! i) as [wi|]; simplify_eq/=. eauto. }
    assert (∃ bi, bs !! i = Some bi ∧ length bi = neurons c)
      as (bi & Hbi & Hlenbi).
    { destruct Hbs as [Hsh _].
      assert (shape2 bs !! i = Some (neurons c)) as Hl
        by (by rewrite Hsh, shape2_lookup, Hb; simpl; rewrite Hlenb).
      rewrite shape2_lookup in Hl.
      destruct (bs !! i) as [bi|]; simplify_eq/=. eauto. }
    rewrite Hwi. simpl.
    rewrite (shape2_replicate_length _ _ _ Hshwi).
    rewrite (foldM_ext _ (λ t j,
      foldM (λ t k, upd3 i j k (stepped_weight e accW i j k) t) t (seq 0 (neurons c)))).
    2:{ intros t j Hj. apply elem_of_seq in Hj. simpl in Hj.
        destruct (lookup_lt_is_Some_2 wi j) as [wij Hwij].
        { rewrite (shape2_replicate_length _ _ _ Hshwi). lia. }
        rewrite Hwij. simpl.
        assert (length wij = neurons c) as ->.
        { pose proof (shape2_replicate_rows _ _ _ Hshwi) as Hrows.
          rewrite Forall_lookup in Hrows. by apply (Hrows j). }
        apply foldM_ext. intros t' k Hk. apply elem_of_seq in Hk. simpl in Hk.
        assert (is_Some (get3 accW i j k)) as [acc Hacc].
        { apply get3_is_Some. exists (replicate (neurons p) (neurons c)), (neurons c).
          rewrite HaccW, shape3_lookup, HW. simpl. rewrite HshW.
          split; [done|]. split; [|lia]. apply lookup_replicate_2. lia. }
        rewrite Hacc. simpl. unfold stepped_weight. by rewrite (at3_get3 _ _ _ _ _ Hacc). }
    destruct (tensor_slice_loop _ (stepped_weight e accW) (weights e) ws i
                (neurons p) (neurons c) Hws) as (ws' & -> & Hws').
    { by rewrite shape3_lookup, HW; simpl; rewrite HshW. }
    { intros _ _. apply Nat.ltb_irrefl. }
    simpl. rewrite Hbi. simpl.
    rewrite (foldM_ext _ (λ m k, upd2 i k (stepped_bias e accB i k) m)).
    2:{ intros m k Hk. apply elem_of_seq in Hk. simpl in Hk.
        assert (is_Some (get2 accB i k)) as [acc Hacc].
        { apply get2_is_Some. exists (neurons c).
          rewrite HaccB, shape2_lookup, Hb. simpl. rewrite Hlenb.
          split; [done|lia]. }
        rewrite Hacc. simpl. unfold stepped_bias. by rewrite (at2_get2 _ _ _ _ Hacc). }
    destruct (matrix_row_loop _ (stepped_bias e accB) (biases e) bs i (length bi) Hbs)
      as (bs' & -> & Hbs').
    { by rewrite shape2_lookup, Hb; simpl; rewrite Hlenb, Hlenbi. }
    { intros _. apply Nat.ltb_irrefl. }
    simpl. eexists. split; [done|]. simpl. split.
    + revert Hws'. apply tensor_upd_ext; [|done]. intros i' _ _ _.
      destruct (Nat.ltb_spec i' i), (Nat.eqb_spec i' i),
        (Nat.ltb_spec i' (Datatypes.S i)); simpl; try done; lia.
    + revert Hbs'. apply matrix_upd_ext; [|done]. intros i' _ _.
      destruct (Nat.ltb_spec i' i), (Nat.eqb_spec i' i),
        (Nat.ltb_spec i' (Datatypes.S i)); simpl; try done; lia.
  - simpl. split; split; try done.
Qed.
End Update.

(** ** [train]: one call *)

Section TrainCall.
Context {A : Arith} {ML : MathLib A}.
Implicit Types (e : MiniNeuralNet).

Lemma wf_with_forward_state e acts pres :
  wf e → wf (with_forward_state e acts pres).
Proof. intros [? ? ? ? ?]. by split. Qed.

Lemma forward_computed_shapes e inputs acts pres l0 :
  layers e !! 0 = Some l0 → length inputs = neurons l0 →
  forward_computed e inputs acts pres →
  shape2 acts = neurons <$> layers e ∧ shape2 pres = neurons <$> layers e.
Proof.
  intros Hl0 Hin (Hla & Hlp & Ha0 & Hp0 & Hlay).
  split; apply list_eq; intros i; rewrite shape2_lookup, list_lookup_fmap.
  - destruct i as [|i].
    + by rewrite Ha0, Hl0; simpl; rewrite Hin.
    + destruct (layers e !! Datatypes.S i) as [l|] eqn:Hl.
      * destruct (Hlay i l Hl) as (? & ? & ? & z & a & ? & ? & ? & ? & Ha & ? & ? & Hlen & ?).
        rewrite Ha. simpl. by rewrite Hlen.
      * apply lookup_ge_None in Hl. rewrite (lookup_ge_None_2 acts); [done|lia].
  - destruct i as [|i].
    + by rewrite Hp0, Hl0; simpl; rewrite Hin.
    + destruct (layers e !! Datatypes.S i) as [l|] eqn:Hl.
      * destruct (Hlay i l Hl) as (? & ? & ? & z & a & ? & ? & ? & Hz & ? & ? & Hlen & ?).
        rewrite Hz. simpl. by rewrite Hlen.
      * apply lookup_ge_None in Hl. rewrite (lookup_ge_None_2 pres); [done|lia].
Qed.

(** The first three steps of [train]: the forward pass, the error terms
    and the accumulation. *)
Lemma train_gradients e inputs targets l0 :
  wf e → layers e !! 0 = Some l0 → length inputs = neurons l0 →
  length targets = neurons (layer_at e (length (layers e) - 1)) →
  ∃ out acts pres ng1 st,
    let e1 := with_forward_state e acts pres in
    forward e inputs = Some (out, e1) ∧
    forward_computed e inputs acts pres ∧ last acts = Some out ∧
    output_error e1 out targets (zero_neuronGradients e1) = Some ng1 ∧
    foldM (backprop_layer e1)
      (ng1, zero_weightGradients e1, accWeightGradients e, accBiasGradients e)
      (rev (seq 0 (length (weights e)))) = Some st ∧
    backprop_inv e1 targets (accWeightGradients e) (accBiasGradients e) 0 st.
Proof.
  intros Hwf Hl0 Hin Htg.
  destruct (forward_spec e inputs l0 Hwf Hl0 Hin) as (out & acts & pres & Hfwd & Hfc & Hlast).
  exists out, acts, pres.
  destruct (forward_computed_shapes e inputs acts pres l0 Hl0 Hin Hfc) as [Hsa Hsp].
  destruct (backprop_spec (with_forward_state e acts pres) targets
    (wf_with_forward_state e acts pres Hwf) Hsa Hsp Htg
    (accWeightGradients e) (accBiasGradients e) (wf_accW e Hwf) (wf_accB e Hwf))
    as (ng1 & st & Hout & Hrun & Hst).
  exists ng1, st. simpl. split; [done|]. split; [done|]. split; [done|].
  assert (row_at acts (length (layers e) - 1) = out) as Hrow.
  { apply row_at_lookup. rewrite last_lookup in Hlast.
    destruct Hfc as (Hla & _). rewrite Hla in Hlast.
    by replace (length (layers e) - 1) with (Init.Nat.pred (length (layers e))) by lia. }
  simpl in Hout. rewrite Hrow in Hout. done.
Qed.

Lemma Forall_get2 {X : Type} (P : X → Prop) (m : list (list X)) i j x :
  Forall (Forall P) m → get2 m i j = Some x → P x.
Proof.
  intros Hm Hx. unfold get2 in Hx.
  destruct (m !! i) as [row|] eqn:Hrow; [|done]. simpl in Hx.
  rewrite Forall_lookup in Hm. pose proof (Hm i row Hrow) as Hr.
  rewrite Forall_lookup in Hr. by apply (Hr j).
Qed.

Lemma Forall_get3 {X : Type} (P : X → Prop) (t : list (list (list X)))
    i j k x :
  Forall (Forall (Forall P)) t → get3 t i j k = Some x → P x.
Proof.
  intros Ht Hx. rewrite get3_unfold in Hx.
  destruct (t !! i) as [m|] eqn:Hm; [|done]. simpl in Hx.
  rewrite Forall_lookup in Ht. by eapply Forall_get2; [apply (Ht i m Hm)|].
Qed.

Lemma accumulators_zero_reset (e : MiniNeuralNet) :
  accumulators_zero (resetAccumulators e).
Proof.
  split; simpl.
  - apply Forall_fmap, Forall_true. intros W. simpl.
    apply Forall_fmap, Forall_true. intros row. simpl.
    by apply Forall_replicate.
  - apply Forall_fmap, Forall_true. intros b. simpl.
    by apply Forall_replicate.
Qed.

Lemma wf_resetAccumulators (e : MiniNeuralNet) :
  layers e ≠ [] → shape3 (weights e) = weights_shape (layers e) →
  shape2 (biases e) = biases_shape (layers e) →
  wf (resetAccumulators e).
Proof.
  intros Hl Hw Hb. split; simpl; try done.
  - apply (shape3_zero_weightGradients e).
  - unfold shape2. rewrite <- list_fmap_compose.
    apply list_fmap_ext. intros i l _. simpl. apply length_replicate.
Qed.

(** One call of [train] on a well-formed engine, with a sample of the
    widths of its input and output layers. *)
Lemma train_spec e inputs targets l0 :
  wf e → layers e !! 0 = Some l0 → length inputs = neurons l0 →
  length targets = neurons (layer_at e (length (layers e) - 1)) →
  ∃ out e' accW accB,
    train e inputs targets = Some (out, e') ∧
    wf e' ∧ layers e' = layers e ∧ learningRate e' = learningRate e ∧
    batchSize e' = batchSize e ∧
    forward_computed e inputs (activations e') (preActivations e') ∧
    last (activations e') = Some out ∧
    deltas_computed (weights e) e' targets ∧
    gradients_computed (weights e) e' ∧
    accumulated e e' accW accB ∧
    if (batchSize e <=? currentBatchCount e + 1)%Z
    then updated e e' accW accB ∧ currentBatchCount e' = 0%Z ∧
         accumulators_zero e'
    else weights e' = weights e ∧ biases e' = biases e ∧
         currentBatchCount e' = (currentBatchCount e + 1)%Z ∧
         accWeightGradients e' = accW ∧ accBiasGradients e' = accB.
Proof.
  intros Hwf Hl0 Hin Htg.
  destruct (train_gradients e inputs targets l0 Hwf Hl0 Hin Htg)
    as (out & acts & pres & ng1 & [[[ng wg] accW] accB]
        & Hfwd & Hfc & Hlast & Hout & Hrun & Hinv).
  simpl in Hfwd, Hout, Hrun, Hinv.
  destruct (forward_computed_shapes e inputs acts pres l0 Hl0 Hin Hfc) as [Hsa Hsp].
  pose proof (wf_with_forward_state e acts pres Hwf) as Hwf1.
  assert (deltas_computed (weights e)
            {| layers := layers e; weights := weights e; biases := biases e;
               activations := acts; preActivations := pres;
               neuronGradients := ng; weightGradients := wg;
               learningRate := learningRate e; batchSize := batchSize e;
               currentBatchCount := currentBatchCount e;
               accWeightGradients := accW; accBiasGradients := accB |}
            targets) as Hdeltas.
  { eapply (backprop_inv_deltas (with_forward_state e acts pres) targets);
      first [exact Hwf1 | exact Hsa | exact Hsp | exact Htg | exact Hinv]. }
  edestruct (backprop_inv_gradients (with_forward_state e acts pres) targets)
    as (Hshwg & Hwg & HshaccW & HshaccB & HaccW & HaccB);
    [first [exact Hwf1 | exact Hsa | exact Hsp | exact Htg
           | exact (wf_accW e Hwf) | exact (wf_accB e Hwf) | exact Hinv] ..|].
  exists out. unfold train. rewrite Hfwd. simpl. rewrite Hout. simpl.
  rewrite Hrun. simpl.
  destruct (Z.leb_spec (batchSize e) (currentBatchCount e + 1)) as [Hfull|Hpart].
  - destruct (apply_update_spec (with_forward_state e acts pres) accW accB
                Hwf1 HshaccW HshaccB) as (ws & bs & Hupd & [Hshws Hws] & [Hshbs Hbs]).
    rewrite Hupd. simpl. eexists _, accW, accB. split; [done|].
    simpl in Hshws, Hshbs.
    split.
    { apply wf_resetAccumulators; simpl.
      - apply Hwf.
      - rewrite Hshws. apply Hwf.
      - rewrite Hshbs. apply Hwf. }
    simpl. do 5 (split; [done|]). split; [exact Hdeltas|].
    split; [by split|]. split; [by split|].
    split; [|split; [done|apply accumulators_zero_reset]].
    split; [done|]. split; [done|]. split.
    + intros i j k w Hw. rewrite Hws. simpl in *. by rewrite Hw.
    + intros i k b Hb. rewrite Hbs. simpl in *. by rewrite Hb.
  - eexists _, accW, accB. split; [done|]. split.
    { destruct Hwf. by split. }
    simpl. do 5 (split; [done|]). split; [exact Hdeltas|].
    split; [by split|]. split; [by split|]. done.
Qed.
End TrainCall.

(** ** The constructor *)

Section Constructor.
Context {A : Arith}.
Variable Math_random : nat → num.
Implicit Types (e : MiniNeuralNet) (ls : list LayerConfig).

Lemma length_random_pushes g n r :
  length (random_pushes Math_random g n r).1 = n.
Proof. unfold random_pushes. simpl. by rewrite length_fmap, length_seq. Qed.

(** The loop over the neurons of the previous layer (lines 77-86): [p]
    rows of [c] weights, and as many rows of [c] zeros. *)
Lemma weight_rows_loop (c : nat) (g : num → num) p a lw lwg r :
  ∃ rows r',
    fold_left (λ '(lw, lwg, r) (_ : nat),
        let '(neuronWeights, r) := random_pushes Math_random g c r in
        let neuronWeightGrads := replicate c (lit 0) in
        (lw ++ [neuronWeights], lwg ++ [neuronWeightGrads], r))
      (seq a p) (lw, lwg, r)
    = (lw ++ rows, lwg ++ replicate p (replicate c (lit 0)), r') ∧
    shape2 rows = replicate p c.
Proof.
  revert a lw lwg r. induction p as [|p IH]; intros a lw lwg r; simpl.
  - exists [], r. by rewrite !app_nil_r.
  - destruct (IH (Datatypes.S a)
                (lw ++ [((λ k, g (Math_random (r + k))) <$> seq 0 c)])
                (lwg ++ [replicate c (lit 0)]) (r + c))
      as (rows & r' & Hrun & Hsh).
    exists (((λ k, g (Math_random (r + k))) <$> seq 0 c) :: rows), r'.
    split.
    + unfold random_pushes in *. simpl in *. rewrite Hrun.
      by rewrite <- !app_assoc.
    + unfold shape2 in *. by rewrite fmap_cons, Hsh, length_fmap, length_seq.
Qed.

Lemma take_S_lookup {X} (l : list X) n x :
  l !! n = Some x → take (Datatypes.S n) l = take n l ++ [x].
Proof. intros H. by apply take_S_r. Qed.

(** The loop over the layers (lines 70-98). *)
Lemma initialize_layers_loop ls lr b r :
  ∃ ws wgs bs ngs r',
    foldM (λ '(ws, wgs, bs, ngs, r) i,
      prev ← layers (blank ls lr b) !! (i - 1);
      curr ← layers (blank ls lr b) !! i;
      let prevNeurons := neurons prev in
      let currNeurons := neurons curr in
      let '(layerWeights, layerWeightGrads, r) :=
        fold_left (λ '(lw, lwg, r) (_ : nat),
          let '(neuronWeights, r) :=
            random_pushes Math_random (λ x, sub (mul x (lit 2)) (lit 1))
              currNeurons r in
          let neuronWeightGrads := replicate currNeurons (lit 0) in
          (lw ++ [neuronWeights], lwg ++ [neuronWeightGrads], r))
          (seq 0 prevNeurons)
          ([] : list (list num), [] : list (list num), r) in
      let '(layerBiases, r) :=
        random_pushes Math_random (λ x, sub x (lit 0.5)) currNeurons r in
      let layerNeuronGrads := replicate currNeurons (lit 0) in
      Some (ws ++ [layerWeights], wgs ++ [layerWeightGrads],
            bs ++ [layerBiases], ngs ++ [layerNeuronGrads], r))
      ([], [], [], [], r) (seq 1 (length ls - 1))
    = Some (ws, wgs, bs, ngs, r') ∧
    shape3 ws = weights_shape ls ∧
    wgs = (λ sh : list nat, (λ n, replicate n (lit 0)) <$> sh) <$> weights_shape ls ∧
    shape2 bs = biases_shape ls ∧
    ngs = (λ l, replicate (neurons l) (lit 0)) <$> tail ls.
Proof.
  edestruct (foldM_seq_ind
    (λ k (st : list (list (list num)) * list (list (list num)) *
               list (list num) * list (list num) * nat),
       let '(ws, wgs, bs, ngs, r) := st in
       shape3 ws = take (k - 1) (weights_shape ls) ∧
       wgs = (λ sh : list nat, (λ n, replicate n (lit 0)) <$> sh)
             <$> take (k - 1) (weights_shape ls) ∧
       shape2 bs = take (k - 1) (biases_shape ls) ∧
       ngs = (λ l, replicate (neurons l) (lit 0)) <$> take (k - 1) (tail ls)))
    as ([[[[ws wgs] bs] ngs] r'] & Hrun & Hws & Hwgs & Hbs & Hngs); last first.
  { exists ws, wgs, bs, ngs, r'. split; [exact Hrun|].
    replace (1 + (length ls - 1) - 1) with (length ls - 1) in * by lia.
    rewrite take_ge in Hws, Hwgs by (rewrite weights_shape_length; lia).
    rewrite take_ge in Hbs
      by (unfold biases_shape; rewrite length_fmap, length_tl; lia).
    rewrite take_ge in Hngs by (rewrite length_tl; lia).
    done. }
  - intros k [[[[ws wgs] bs] ngs] r1] [Hk1 Hk2] (Hws & Hwgs & Hbs & Hngs).
    simpl layers.
    destruct (lookup_lt_is_Some_2 ls (k - 1)) as [prev Hprev]; [lia|].
    destruct (lookup_lt_is_Some_2 ls k) as [curr Hcurr]; [lia|].
    rewrite Hprev, Hcurr. simpl.
    destruct (weight_rows_loop (neurons curr)
                (λ x, sub (mul x (lit 2)) (lit 1)) (neurons prev) 0 [] [] r1)
      as (rows & r2 & Hrows & Hshrows).
    simpl in Hrows. rewrite Hrows. simpl.
    eexists. split; [done|]. cbv beta iota.
    replace (k - 0) with (Datatypes.S (k - 1)) by lia.
    assert (weights_shape ls !! (k - 1)
            = Some (replicate (neurons prev) (neurons curr))) as Hwsh.
    { apply weights_shape_lookup; [done|].
      by replace (Datatypes.S (k - 1)) with k by lia. }
    assert (tail ls !! (k - 1) = Some curr) as Htl.
    { rewrite lookup_tail. by replace (Datatypes.S (k - 1)) with k by lia. }
    rewrite (take_S_lookup _ _ _ Hwsh), (take_S_lookup _ _ _ Htl).
    assert (biases_shape ls !! (k - 1) = Some (neurons curr)) as Hbsh.
    { unfold biases_shape. by rewrite list_lookup_fmap, Htl. }
    rewrite (take_S_lookup _ _ _ Hbsh).
    split; [|split; [|split]].
    + unfold shape3 in *. rewrite fmap_app, Hws. simpl. by rewrite Hshrows.
    + rewrite fmap_app, Hwgs. simpl. f_equal. f_equal.
      by rewrite fmap_replicate.
    + unfold shape2 in *. rewrite fmap_app, Hbs. simpl.
      by rewrite length_fmap, length_seq.
    + by rewrite fmap_app, Hngs.
  - simpl. done.
Qed.

Lemma constructor_spec ls lr b r :
  ls ≠ [] →
  ∃ e r',
    new_MiniNeuralNet Math_random ls lr b r = Some (e, r') ∧
    wf e ∧ layers e = ls ∧
    activations e = [] ∧ preActivations e = [] ∧
    neuronGradients e = zero_neuronGradients e ∧
    weightGradients e = zero_weightGradients e ∧
    accumulators_zero e.
Proof.
  intros Hls. unfold new_MiniNeuralNet, initializeWeights.
  destruct (initialize_layers_loop ls (default (lit 0.1) lr) (default 1%Z b) r)
    as (ws & wgs & bs & ngs & r' & Hrun & Hws & Hwgs & Hbs & Hngs).
  unfold blank in Hrun. simpl in *. rewrite Hrun. simpl.
  destruct ls as [|l0 ls']; [done|]. simpl.
  eexists _, r'. split; [done|]. split.
  { apply wf_resetAccumulators; simpl; done. }
  simpl. do 3 (split; [done|]). split; [|split].
  - unfold zero_neuronGradients. simpl. by rewrite Hngs.
  - unfold zero_weightGradients. simpl. rewrite Hwgs, <- Hws.
    unfold shape3, shape2. rewrite <- !list_fmap_compose.
    apply list_fmap_ext. intros i W _. simpl.
    by rewrite <- list_fmap_compose.
  - apply accumulators_zero_reset.
Qed.
End Constructor.

(** ** The snapshot of a fresh engine *)

Section Snapshot.
Context {A : Arith}.
Local Open Scope js_scope.
Implicit Types (e : MiniNeuralNet).

(** A loop that appends [G k] at step [k]. *)
Lemma foldM_appends {X : Type} (G : nat → list X)
    (f : list X → nat → option (list X)) acc n :
  (∀ acc k, (k < n)%nat → f acc k = Some (acc ++ G k)) →
  foldM f acc (seq 0 n) = Some (acc ++ mjoin (G <$> seq 0 n)).
Proof.
  intros Hf.
  destruct (foldM_seq_ind (λ k acc', acc' = acc ++ mjoin (G <$> seq 0 k))
              f acc 0 n) as (acc' & -> & ->); [|  |done].
  - simpl. by rewrite app_nil_r.
  - intros k acc' [_ Hk] ->. rewrite Hf by done. eexists. split; [done|].
    rewrite seq_S, fmap_app, join_app. simpl.
    by rewrite app_nil_r, app_assoc.
Qed.

Lemma join_singletons {X Y : Type} (g : X → Y) (l : list X) :
  mjoin ((λ x, [g x]) <$> l) = g <$> l.
Proof. induction l as [|x l IH]; csimpl; [done|]. by rewrite IH. Qed.

Lemma filter_join {X : Type} (P : X → Prop) `{∀ x, Decision (P x)}
    (ls : list (list X)) :
  filter P (mjoin ls) = mjoin (filter P <$> ls).
Proof.
  induction ls as [|l ls IH]; csimpl; [done|]. by rewrite filter_app, IH.
Qed.

Lemma filter_fresh_layer e i i' :
  filter (λ n, Neuron.layerIndex n = i) (fresh_layer e i')
  = if decide (i' = i) then fresh_layer e i' else [].
Proof.
  unfold fresh_layer. induction (seq 0 (neurons (layer_at e i'))) as [|j js IH].
  - by case_decide.
  - rewrite fmap_cons, filter_cons. simpl. rewrite IH.
    by repeat case_decide.
Qed.

Lemma join_select {X : Type} (G : nat → list X) (i a n : nat) :
  mjoin ((λ i', if decide (i' = i) then G i' else []) <$> seq a n)
  = if decide (a ≤ i < a + n)%nat then G i else [].
Proof.
  revert a. induction n as [|n IH]; intros a; csimpl.
  - case_decide; [lia|done].
  - rewrite IH. repeat case_decide; subst; simpl;
      rewrite ?app_nil_r; try done; lia.
Qed.

Lemma filter_fresh_neurons e i :
  (i < length (layers e))%nat →
  filter (λ n, Neuron.layerIndex n = i) (fresh_neurons e) = fresh_layer e i.
Proof.
  intros Hi. unfold fresh_neurons. rewrite filter_join, <- list_fmap_compose.
  rewrite (list_fmap_ext _ (λ i', if decide (i' = i) then fresh_layer e i' else [])).
  - rewrite join_select. by rewrite decide_True by lia.
  - intros k i' _. simpl. apply filter_fresh_layer.
Qed.

Lemma length_fresh_layer e i :
  length (fresh_layer e i) = neurons (layer_at e i).
Proof. unfold fresh_layer. by rewrite length_fmap, length_seq. Qed.

Lemma snapshot_fresh e :
  wf e → activations e = [] → preActivations e = [] →
  neuronGradients e = zero_neuronGradients e →
  weightGradients e = zero_weightGradients e →
  getVisualizationData e
  = Some {| snap_neurons := fresh_neurons e;
            snap_connections := fresh_connections e |}.
Proof.
  intros Hwf Ha Hp Hng Hwg. unfold getVisualizationData.
  assert (∀ i, (i < length (layers e))%nat →
            layers e !! i = Some (layer_at e i)) as Hlayer.
  { intros i Hi. destruct (lookup_lt_is_Some_2 (layers e) i) as [l Hl]; [lia|].
    by rewrite (layer_at_lookup _ _ _ Hl). }
  rewrite (foldM_appends (fresh_layer e)); last first.
  { intros acc i Hi. rewrite (Hlayer i Hi). simpl.
    rewrite (foldM_appends (λ j, [fresh_neuron e i j])).
    { by rewrite join_singletons. }
    intros acc' j Hj.
    unfold row_or_zero. rewrite Ha, Hp, Hng. simpl.
    assert (zero_neuronGradients e !! i = Some (replicate (neurons (layer_at e i)) (lit 0))) as ->.
    { unfold zero_neuronGradients. by rewrite list_lookup_fmap, (Hlayer i Hi). }
    rewrite lookup_replicate_2 by done. simpl.
    destruct (Nat.ltb_spec 0 i) as [Hpos|Hzero].
    - destruct (wf_lookup_biases e (i - 1) (layer_at e i) Hwf) as (b & Hb & Hlenb).
      { replace (Datatypes.S (i - 1)) with i by lia. by apply Hlayer. }
      destruct (lookup_lt_is_Some_2 b j) as [x Hx]; [lia|].
      assert (get2 (biases e) (i - 1) j = Some x) as Hg
        by (unfold get2; by rewrite Hb).
      rewrite Hg. simpl. unfold fresh_neuron.
      rewrite (proj2 (Nat.ltb_lt 0 i)) by done.
      by rewrite (at2_get2 _ _ _ _ Hg).
    - simpl. unfold fresh_neuron.
      by rewrite (proj2 (Nat.ltb_ge 0 i)) by done. }
  simpl.
  rewrite (foldM_appends (λ i,
    mjoin ((λ j, (λ k, fresh_connection e i j k)
                 <$> seq 0 (neurons (layer_at e (i + 1))))
           <$> seq 0 (neurons (layer_at e i))))); [done|].
  intros acc i Hi.
  pose proof (wf_length_weights e Hwf) as Hlen.
  fold (fresh_neurons e).
  rewrite !filter_fresh_neurons by lia.
  rewrite !length_fresh_layer.
  apply foldM_appends. intros acc' j Hj.
  rewrite (foldM_appends (λ k, [fresh_connection e i j k])).
  { by rewrite join_singletons. }
  intros acc'' k Hk.
  destruct (wf_lookup_weights e i _ _ Hwf (Hlayer i ltac:(lia))
              (Hlayer (Datatypes.S i) ltac:(lia))) as (W & HW & HshW).
  rewrite Nat.add_1_r in *.
  destruct (shape2_replicate_get2 W _ _ j k HshW Hj Hk) as [w Hw].
  assert (get3 (weights e) i j k = Some w) as Hg3
    by (rewrite get3_unfold, HW; done).
  rewrite Hg3. simpl.
  rewrite Hwg.
  assert (is_Some (get3 (zero_weightGradients e) i j k)) as [g Hg].
  { apply get3_is_Some. rewrite shape3_zero_weightGradients.
    apply get3_is_Some. eauto. }
  pose proof (get3_zero_weightGradients _ _ _ _ _ Hg) as ->.
  rewrite get3_unfold in Hg.
  destruct (zero_weightGradients e !! i) as [G|]; [|done]. simpl in Hg.
  rewrite Hg. simpl.
  unfold fresh_layer. rewrite !list_lookup_fmap, !lookup_seq_lt by done.
  simpl. unfold fresh_connection. rewrite Nat.add_1_r.
  by rewrite (at3_get3 _ _ _ _ _ Hg3).
Qed.
End Snapshot.

(** * The claims *)

(** ** C1 and C2: the forward pass and the error terms *)

Section ClaimsForward.
Context {A : Arith} {ML : MathLib A}.
Local Open Scope js_scope.

Lemma activate_cases (kind : ActivationType) (z : num) :
  (kind = SIGMOID → activate kind z = lit 1 / (lit 1 + Math_exp (- z))) ∧
  (kind = RELU → activate kind z = Math_max (lit 0) z) ∧
  (kind = TANH → activate kind z = Math_tanh z).
Proof. repeat split; intros ->; reflexivity. Qed.

(** C1.  For every well-formed engine and every input vector as long as
    the input layer is wide, [forward] returns the activation vector of
    the last layer and replaces the forward state, whatever it was, by the
    [z] and [a] vectors of every layer: the inputs for the input layer
    and, for neuron [j] of every later layer, [z_j] the bias plus the sum
    over [k] of [previous activation k * weight k→j] and [a_j] the
    activation function of the layer at [z_j]: [1 / (1 + exp (- z))] for
    [SIGMOID], [Math.max(0, z)] for [RELU], [Math.tanh(z)] for [TANH]. *)
Theorem forward_computes_every_layer (e : MiniNeuralNet) (inputs : list num)
    (l0 : LayerConfig) :
  wf e → layers e !! 0%nat = Some l0 → length inputs = neurons l0 →
  ∃ out acts pres,
    forward e inputs = Some (out, with_forward_state e acts pres) ∧
    (∀ acts0 pres0,
       forward (with_forward_state e acts0 pres0) inputs
       = Some (out, with_forward_state e acts pres)) ∧
    length acts = length (layers e) ∧ length pres = length (layers e) ∧
    acts !! 0%nat = Some inputs ∧ pres !! 0%nat = Some inputs ∧
    last acts = Some out ∧
    ∀ i l, layers e !! Datatypes.S i = Some l →
      ∃ prev W b z a,
        acts !! i = Some prev ∧ weights e !! i = Some W ∧
        biases e !! i = Some b ∧
        pres !! Datatypes.S i = Some z ∧ acts !! Datatypes.S i = Some a ∧
        length W = length prev ∧ Forall (λ row, length row = neurons l) W ∧
        length b = neurons l ∧ length z = neurons l ∧ length a = neurons l ∧
        ∀ j, (j < neurons l)%nat →
          ∃ bj zj aj,
            b !! j = Some bj ∧ z !! j = Some zj ∧ a !! j = Some aj ∧
            zj = weighted_sum bj prev W j ∧
            (activation l = SIGMOID →
               aj = lit 1 / (lit 1 + Math_exp (- zj))) ∧
            (activation l = RELU → aj = Math_max (lit 0) zj) ∧
            (activation l = TANH → aj = Math_tanh zj).
Proof.
  intros Hwf Hl0 Hin.
  destruct (forward_spec e inputs l0 Hwf Hl0 Hin)
    as (out & acts & pres & Hfwd & (Hla & Hlp & Ha0 & Hp0 & Hlay) & Hlast).
  exists out, acts, pres. split; [done|]. split.
  { intros acts0 pres0. exact Hfwd. }
  do 5 (split; [done|]). intros i l Hl.
  destruct (Hlay i l Hl)
    as (prev & W & b & z & a & Hprev & HW & Hb & Hz & Ha & HshW & Hlz & Hlen_a & Hj).
  exists prev, W, b, z, a. do 5 (split; [done|]).
  split; [by apply (shape2_replicate_length _ _ _ HshW)|].
  split; [by apply (shape2_replicate_rows _ _ _ HshW)|].
  destruct (wf_lookup_biases e i l Hwf Hl) as (b' & Hb' & Hlenb).
  assert (b' = b) as -> by congruence.
  do 3 (split; [done|]). intros j Hjl.
  destruct (Hj j Hjl) as (bj & Hbj & Hzj & Haj).
  exists bj, (weighted_sum bj prev W j),
    (activate (activation l) (weighted_sum bj prev W j)).
  do 4 (split; [done|]). apply activate_cases.
Qed.

Lemma activationPrime_cases (kind : ActivationType) (a z : num) :
  (kind = SIGMOID → activationPrime kind a z = a * (lit 1 - a)) ∧
  (kind = RELU →
     activationPrime kind a z = if z >? lit 0 then lit 1 else lit 0) ∧
  (kind = TANH → activationPrime kind a z = lit 1 - a * a).
Proof. repeat split; intros ->; reflexivity. Qed.

(** C2.  After a call of [train] on a well-formed engine with a sample of
    the widths of its input and output layers, the error term of output
    neuron [i] is [(prediction_i - target_i) * prime] and the error term
    of neuron [j] of a hidden layer [i] is
    [(Σ_k δ_{i+1,k} * weight_{j→k}) * prime], the weights being those the
    call started with, where [prime] is [a * (1 - a)] for [SIGMOID] and
    [1 - a * a] for [TANH], on the activation [a] of the neuron, and
    [1 if z > 0 else 0] for [RELU], on its pre-activation [z]. *)
Theorem train_error_terms (e : MiniNeuralNet) (inputs targets : list num)
    (l0 : LayerConfig) :
  wf e → layers e !! 0%nat = Some l0 → length inputs = neurons l0 →
  length targets = neurons (layer_at e (length (layers e) - 1)) →
  ∃ out e',
    train e inputs targets = Some (out, e') ∧
    last (activations e') = Some out ∧
    let n := (length (layers e) - 1)%nat in
    let δ := neuronGradients e' in
    (∀ i, (i < neurons (layer_at e n))%nat →
       ∃ a z prime,
         get2 (activations e') n i = Some a ∧ out !! i = Some a ∧
         get2 (preActivations e') n i = Some z ∧
         get2 δ n i = Some ((a - at1 targets i) * prime) ∧
         (activation (layer_at e n) = SIGMOID → prime = a * (lit 1 - a)) ∧
         (activation (layer_at e n) = RELU →
            prime = if z >? lit 0 then lit 1 else lit 0) ∧
         (activation (layer_at e n) = TANH → prime = lit 1 - a * a)) ∧
    (∀ i j, (0 < i < n)%nat → (j < neurons (layer_at e i))%nat →
       ∃ a z prime next W,
         get2 (activations e') i j = Some a ∧
         get2 (preActivations e') i j = Some z ∧
         δ !! Datatypes.S i = Some next ∧ weights e !! i = Some W ∧
         get2 δ i j =
           Some (error_sum next W j (neurons (layer_at e (Datatypes.S i)))
                 * prime) ∧
         (activation (layer_at e i) = SIGMOID → prime = a * (lit 1 - a)) ∧
         (activation (layer_at e i) = RELU →
            prime = if z >? lit 0 then lit 1 else lit 0) ∧
         (activation (layer_at e i) = TANH → prime = lit 1 - a * a)).
Proof.
  intros Hwf Hl0 Hin Htg.
  destruct (train_spec e inputs targets l0 Hwf Hl0 Hin Htg)
    as (out & e' & accW & accB & Htrain & Hwf' & Hlay & _ & _ & Hfc & Hlast
        & Hdelta & _).
  exists out, e'. split; [done|]. split; [done|].
  destruct (forward_computed_shapes e inputs _ _ l0 Hl0 Hin Hfc) as [Hsa Hsp].
  destruct Hdelta as (Hshng & Hout & Hhid & _). rewrite Hlay in *.
  unfold layer_at in *. rewrite Hlay in *. fold (layer_at e) in *.
  assert (0 < length (layers e))%nat as Hpos.
  { destruct (layers e); [done|simpl; lia]. }
  assert (∀ i, (i ≤ length (layers e) - 1)%nat →
            layers e !! i = Some (layer_at e i)) as Hlayer.
  { intros i Hi. destruct (lookup_lt_is_Some_2 (layers e) i) as [l Hl]; [lia|].
    by rewrite (layer_at_lookup _ _ _ Hl). }
  assert (∀ (m : list (list num)) i j,
            shape2 m = neurons <$> layers e →
            (i ≤ length (layers e) - 1)%nat → (j < neurons (layer_at e i))%nat →
            ∃ row, m !! i = Some row ∧ get2 m i j = Some (at2 m i j)) as Hget.
  { intros m i j Hsh Hi Hj.
    destruct (shape2_layers_lookup m e i _ Hsh (Hlayer i Hi)) as (row & Hrow & Hlen).
    exists row. split; [done|].
    destruct (lookup_lt_is_Some_2 row j) as [x Hx]; [lia|].
    assert (get2 m i j = Some x) as Hg by (unfold get2; by rewrite Hrow).
    by rewrite (at2_get2 _ _ _ _ Hg). }
  split.
  - intros i Hi.
    destruct (Hget (activations e') _ i Hsa (le_n _) Hi) as (rowa & Hrowa & Ha).
    destruct (Hget (preActivations e') _ i Hsp (le_n _) Hi) as (rowz & Hrowz & Hz).
    exists (at2 (activations e') (length (layers e) - 1) i),
           (at2 (preActivations e') (length (layers e) - 1) i),
           (activationPrime (activation (layer_at e (length (layers e) - 1)))
              (at2 (activations e') (length (layers e) - 1) i)
              (at2 (preActivations e') (length (layers e) - 1) i)).
    split; [done|]. split.
    { rewrite last_lookup in Hlast. destruct Hfc as (Hla & _).
      rewrite Hla in Hlast.
      replace (Init.Nat.pred (length (layers e)))
        with (length (layers e) - 1)%nat in Hlast by lia.
      unfold get2 in Ha. rewrite Hlast in Ha. exact Ha. }
    split; [done|]. split; [by apply Hout|]. apply activationPrime_cases.
  - intros i j Hi Hj.
    destruct (Hget (activations e') i j Hsa ltac:(lia) Hj) as (rowa & Hrowa & Ha).
    destruct (Hget (preActivations e') i j Hsp ltac:(lia) Hj) as (rowz & Hrowz & Hz).
    destruct (shape2_layers_lookup _ e (Datatypes.S i) _ Hshng
                (Hlayer (Datatypes.S i) ltac:(lia))) as (next & Hnext & _).
    destruct (wf_lookup_weights e i _ _ Hwf (Hlayer i ltac:(lia))
                (Hlayer (Datatypes.S i) ltac:(lia))) as (W & HW & _).
    exists (at2 (activations e') i j), (at2 (preActivations e') i j),
           (activationPrime (activation (layer_at e i))
              (at2 (activations e') i j) (at2 (preActivations e') i j)),
           next, W.
    do 4 (split; [done|]). split.
    + rewrite (Hhid i j Hi Hj).
      by rewrite (row_at_lookup _ _ _ Hnext), (row_at_lookup _ _ _ HW).
    + apply activationPrime_cases.
Qed.
End ClaimsForward.

(** ** C3 and C4: mini-batches *)

Section ClaimsBatch.
Context {A : Arith} {ML : MathLib A}.
Local Open Scope js_scope.
Implicit Types (e : MiniNeuralNet) (samples : list DataPoint).

Lemma default_last_cons {X : Type} (x y : X) (l : list X) :
  default x (last (y :: l)) = default y (last l).
Proof.
  revert x y. induction l as [|z l IH]; intros x y; [done|].
  by rewrite last_cons_cons, (IH x z), (IH y z).
Qed.

Lemma exists_last_sample {X : Type} (l : list X) :
  (0 < length l)%nat → ∃ init s, l = init ++ [s].
Proof.
  destruct l as [|x l _] using rev_ind; simpl; [lia|eauto].
Qed.

Lemma train_all_app e xs ys :
  train_all e (xs ++ ys) =
  es1 ← train_all e xs;
  es2 ← train_all (default e (last es1)) ys;
  Some (es1 ++ es2).
Proof.
  revert e. induction xs as [|s xs IH]; intros e; simpl.
  - by destruct (train_all e ys).
  - destruct (train e (inputs s) (target s)) as [[out e']|]; simpl; [|done].
    rewrite IH. destruct (train_all e' xs) as [es1|]; simpl; [|done].
    rewrite default_last_cons.
    by destruct (train_all (default e' (last es1)) ys).
Qed.

Lemma wf_layer0 e : wf e → layers e !! 0%nat = Some (layer_at e 0).
Proof.
  intros Hwf. destruct (layers e) as [|l ls] eqn:Hl.
  - by destruct (wf_layers e Hwf).
  - unfold layer_at. by rewrite Hl.
Qed.

Lemma fits_same_layers e e' s : layers e' = layers e → fits e s → fits e' s.
Proof. unfold fits, layer_at. by intros ->. Qed.

(** Calls that do not fill the batch leave the parameters alone and add
    their gradients to the accumulators, in the order of the calls. *)
Lemma train_all_partial e samples :
  wf e → Forall (fits e) samples →
  (currentBatchCount e + Z.of_nat (length samples) < batchSize e)%Z →
  ∃ es,
    train_all e samples = Some es ∧ length es = length samples ∧
    Forall (λ e_t, same_parameters e e_t ∧ gradients_computed (weights e) e_t) es ∧
    same_parameters e (default e (last es)) ∧
    currentBatchCount (default e (last es))
    = (currentBatchCount e + Z.of_nat (length samples))%Z ∧
    (∀ i j k x, get3 (accWeightGradients e) i j k = Some x →
       get3 (accWeightGradients (default e (last es))) i j k =
       Some (fold_left add ((λ e_t, at3 (weightGradients e_t) i j k) <$> es) x)) ∧
    (∀ i k x, get2 (accBiasGradients e) i k = Some x →
       get2 (accBiasGradients (default e (last es))) i k =
       Some (fold_left add
               ((λ e_t, at2 (neuronGradients e_t) (Datatypes.S i) k) <$> es) x)).
Proof.
  revert e. induction samples as [|s rest IH]; intros e Hwf Hfits Hlt.
  - exists []. simpl. do 3 (split; [done|]).
    split; [by unfold same_parameters|]. split; [lia|]. done.
  - apply Forall_cons in Hfits as [[Hin Htg] Hrest]. simpl in Hlt.
    destruct (train_spec e (inputs s) (target s) _ Hwf (wf_layer0 e Hwf) Hin Htg)
      as (out & e' & accW & accB & Htrain & Hwf' & Hlay & Hlr & Hbs & _ & _
          & _ & Hgrad & (_ & _ & HaccW & HaccB) & Hbranch).
    destruct (Z.leb_spec (batchSize e) (currentBatchCount e + 1)) as [?|_]; [lia|].
    destruct Hbranch as (Hw & Hb & Hcnt & HaccW' & HaccB').
    destruct (IH e') as (es & Hrun & Hlen & Hall & Hlast & Hcount & HsumW & HsumB).
    { done. }
    { eapply Forall_impl; [exact Hrest|]. intros s'. by apply fits_same_layers. }
    { rewrite Hbs, Hcnt. lia. }
    exists (e' :: es). simpl. rewrite Htrain. simpl. rewrite Hrun. simpl.
    split; [done|]. split; [by rewrite Hlen|].
    assert (same_parameters e e') as Hsame by (by unfold same_parameters).
    assert (∀ e'', same_parameters e' e'' → same_parameters e e'') as Htrans.
    { intros e'' (? & ? & ? & ? & ? & ?). unfold same_parameters.
      split; [done|]. repeat split; congruence. }
    rewrite default_last_cons.
    split.
    { apply Forall_cons. split; [by split|].
      eapply Forall_impl; [exact Hall|]. intros e'' [? ?].
      split; [by apply Htrans|]. by rewrite <- Hw. }
    split; [by apply Htrans|]. split; [rewrite Hcount, Hcnt; lia|]. split.
    + intros i j k x Hx. apply HsumW. rewrite HaccW'. by apply HaccW.
    + intros i k x Hx. apply HsumB. rewrite HaccB'. by apply HaccB.
Qed.

(** C3.  On a well-formed engine with batch size [B] whose accumulators
    and batch counter are zero, [B] consecutive calls of [train] succeed;
    the first [B - 1] leave every weight and bias as it was; after the
    [B]-th every weight is its old value minus
    [learningRate * (s * (1 / B))], where [s] is the sum, from zero and in
    the order of the calls, of the [B] per-sample gradients of that weight
    (each [δ_{i+1,k} * a_{i,j}] of its call), every bias likewise with the
    per-sample bias gradients [δ_{i+1,k}], and the accumulators and the
    batch counter read zero. *)
Theorem batch_update_after_B_calls e samples :
  wf e → (1 ≤ batchSize e)%Z → batchSize e = Z.of_nat (length samples) →
  currentBatchCount e = 0%Z → accumulators_zero e →
  Forall (fits e) samples →
  ∃ es e_B,
    train_all e samples = Some es ∧ length es = length samples ∧
    last es = Some e_B ∧
    (∀ t e_t, (t < length samples - 1)%nat → es !! t = Some e_t →
       weights e_t = weights e ∧ biases e_t = biases e) ∧
    Forall (gradients_computed (weights e)) es ∧
    (∀ i j k w, get3 (weights e) i j k = Some w →
       get3 (weights e_B) i j k =
       Some (w - learningRate e
                 * (sum_from_zero
                      ((λ e_t, at3 (weightGradients e_t) i j k) <$> es)
                    * (lit 1 / lit (inject_Z (batchSize e)))))) ∧
    (∀ i k b, get2 (biases e) i k = Some b →
       get2 (biases e_B) i k =
       Some (b - learningRate e
                 * (sum_from_zero
                      ((λ e_t, at2 (neuronGradients e_t) (Datatypes.S i) k)
                       <$> es)
                    * (lit 1 / lit (inject_Z (batchSize e)))))) ∧
    wf e_B ∧ accumulators_zero e_B ∧ currentBatchCount e_B = 0%Z.
Proof.
  intros Hwf HB HBlen Hc0 [HzW HzB] Hfits.
  destruct (exists_last_sample samples) as (init & s & ->); [lia|].
  rewrite length_app in HBlen. simpl in HBlen.
  apply Forall_app in Hfits as [Hinit Hs].
  apply Forall_inv in Hs. destruct Hs as [Hin Htg].
  destruct (train_all_partial e init Hwf Hinit)
    as (es1 & Hrun1 & Hlen1 & Hall1 & Hmid & Hcnt & HsumW & HsumB); [lia|].
  set (e_mid := default e (last es1)) in *.
  destruct Hmid as (Hwfm & Hlaym & Hlrm & Hbsm & Hwm & Hbm).
  destruct (train_spec e_mid (inputs s) (target s) _ Hwfm (wf_layer0 _ Hwfm))
    as (out & e_B & accW & accB & Htrain & HwfB & HlayB & HlrB & HbsB & _ & _
        & _ & Hgrad & (HshaccW & HshaccB & HaccW & HaccB) & Hbranch).
  { unfold fits, layer_at in *. by rewrite Hlaym. }
  { unfold fits, layer_at in *. by rewrite Hlaym. }
  destruct (Z.leb_spec (batchSize e_mid) (currentBatchCount e_mid + 1))
    as [_|?]; [|lia].
  destruct Hbranch as ((HshW & HshB & HupdW & HupdB) & HcB & HzeroB).
  exists (es1 ++ [e_B]), e_B.
  rewrite train_all_app, Hrun1. simpl. fold e_mid. rewrite Htrain. simpl.
  split; [done|]. split; [by rewrite !length_app, Hlen1|].
  split; [by rewrite last_snoc|]. split.
  { intros t e_t Ht Hlook. rewrite length_app in Ht. simpl in Ht.
    rewrite lookup_app_l in Hlook by lia.
    rewrite Forall_lookup in Hall1.
    destruct (Hall1 t e_t Hlook) as [(_ & _ & _ & _ & ? & ?) _]. done. }
  split.
  { apply Forall_app. split.
    - eapply Forall_impl; [exact Hall1|]. by intros ? [_ ?].
    - apply Forall_singleton. by rewrite <- Hwm. }
  assert (∀ i j k, is_Some (get3 (weights e) i j k) →
            at3 accW i j k =
            sum_from_zero ((λ e_t, at3 (weightGradients e_t) i j k)
                           <$> es1 ++ [e_B])) as HsW.
  { intros i j k Hs.
    assert (is_Some (get3 (accWeightGradients e) i j k)) as [x Hx].
    { apply get3_is_Some. rewrite (wf_accW e Hwf). by apply get3_is_Some. }
    pose proof (Forall_get3 _ _ _ _ _ _ HzW Hx) as ->.
    apply at3_get3. rewrite (HaccW i j k _ (HsumW i j k _ Hx)).
    unfold sum_from_zero. by rewrite fmap_app, fold_left_app. }
  assert (∀ i k, is_Some (get2 (biases e) i k) →
            at2 accB i k =
            sum_from_zero ((λ e_t, at2 (neuronGradients e_t) (Datatypes.S i) k)
                           <$> es1 ++ [e_B])) as HsB.
  { intros i k Hs.
    assert (is_Some (get2 (accBiasGradients e) i k)) as [x Hx].
    { apply get2_is_Some. rewrite (wf_accB e Hwf). by apply get2_is_Some. }
    pose proof (Forall_get2 _ _ _ _ _ HzB Hx) as ->.
    apply at2_get2. rewrite (HaccB i k _ (HsumB i k _ Hx)).
    unfold sum_from_zero. by rewrite fmap_app, fold_left_app. }
  split.
  { intros i j k w Hw. rewrite (HupdW i j k w) by (by rewrite Hwm).
    unfold averaged_step. rewrite Hlrm, Hbsm, HsW by eauto. done. }
  split.
  { intros i k b Hb. rewrite (HupdB i k b) by (by rewrite Hbm).
    unfold averaged_step. rewrite Hlrm, Hbsm, HsB by eauto. done. }
  done.
Qed.

Lemma updateConfig_learningRate e lr b : learningRate (updateConfig e lr b) = lr.
Proof. unfold updateConfig. by case_decide. Qed.

Lemma updateConfig_other_batchSize e lr b :
  b ≠ batchSize e →
  batchSize (updateConfig e lr b) = b ∧
  currentBatchCount (updateConfig e lr b) = 0%Z ∧
  accumulators_zero (updateConfig e lr b) ∧
  weights (updateConfig e lr b) = weights e ∧
  biases (updateConfig e lr b) = biases e.
Proof.
  intros Hb. unfold updateConfig. rewrite decide_True by done.
  split; [done|]. split; [done|]. split; [apply accumulators_zero_reset|done].
Qed.

(** C4, as amended.  On a well-formed engine with batch size [B] and
    batch counter [c], [k] calls of [train] with [c + k < B] succeed and
    update no weight and no bias; [updateConfig] with a batch size
    different from [B] then leaves the accumulators and the batch counter
    at zero, puts the new batch size in effect and still changes no
    weight and no bias; the learning rate is replaced whatever the batch
    size is. *)
Theorem updateConfig_discards_partial_batch e samples (lr : num) (B' : Z) :
  wf e → Forall (fits e) samples →
  (currentBatchCount e + Z.of_nat (length samples) < batchSize e)%Z →
  B' ≠ batchSize e →
  ∃ es,
    train_all e samples = Some es ∧ length es = length samples ∧
    Forall (λ e_t, weights e_t = weights e ∧ biases e_t = biases e) es ∧
    let e_k := default e (last es) in
    batchSize e_k = batchSize e ∧
    accumulators_zero (updateConfig e_k lr B') ∧
    currentBatchCount (updateConfig e_k lr B') = 0%Z ∧
    batchSize (updateConfig e_k lr B') = B' ∧
    weights (updateConfig e_k lr B') = weights e ∧
    biases (updateConfig e_k lr B') = biases e ∧
    ∀ b, learningRate (updateConfig e_k lr b) = lr.
Proof.
  intros Hwf Hfits Hlt HB.
  destruct (train_all_partial e samples Hwf Hfits Hlt)
    as (es & Hrun & Hlen & Hall & (_ & _ & _ & Hbs & Hw & Hb) & _).
  exists es. split; [done|]. split; [done|]. split.
  { eapply Forall_impl; [exact Hall|].
    by intros e_t [(_ & _ & _ & _ & ? & ?) _]. }
  simpl. split; [done|].
  destruct (updateConfig_other_batchSize (default e (last es)) lr B')
    as (? & ? & ? & Hw' & Hb'); [congruence|].
  rewrite Hw', Hb'. do 5 (split; [done|]).
  intros b. apply updateConfig_learningRate.
Qed.
End ClaimsBatch.

(** Over the reals the update of step 4 divides the accumulated sum by
    the batch size. *)
Lemma averaged_step_real (e : @MiniNeuralNet R_arith) (s p : R) :
  (1 ≤ batchSize e)%Z →
  @averaged_step R_arith e s p
  = (p - learningRate e * (s / IZR (batchSize e)))%R.
Proof.
  intros HB. unfold averaged_step. simpl.
  assert (Q2R (inject_Z (batchSize e)) = IZR (batchSize e)) as ->.
  { unfold Q2R, inject_Z. simpl. lra. }
  assert (Q2R 1 = 1%R) as -> by (unfold Q2R; simpl; lra).
  assert (IZR (batchSize e) ≠ 0%R) as Hne.
  { apply not_0_IZR. lia. }
  field. exact Hne.
Qed.

(** ** C5: the batch counter *)

Section ClaimsCounter.
Context {A : Arith} {ML : MathLib A}.
Variable Math_random : nat → num.
Implicit Types (e : MiniNeuralNet).

Lemma forward_frame e inputs out e' :
  forward e inputs = Some (out, e') →
  e' = with_forward_state e (activations e') (preActivations e').
Proof.
  unfold forward. intros H.
  destruct (foldM _ _ _) as [[[acts pres] cur]|]; simplify_eq/=. done.
Qed.

Lemma train_counter e inputs targets out e' :
  train e inputs targets = Some (out, e') →
  batchSize e' = batchSize e ∧
  currentBatchCount e' =
    if (batchSize e <=? currentBatchCount e + 1)%Z then 0%Z
    else (currentBatchCount e + 1)%Z.
Proof.
  unfold train. intros H.
  destruct (forward e inputs) as [[outputs e1]|] eqn:Hfwd; [|done].
  apply forward_frame in Hfwd. simpl in H.
  destruct (output_error _ _ _ _) as [ng|]; [|done]. simpl in H.
  destruct (foldM _ _ _) as [[[[ng' wg] accW] accB]|]; [|done]. simpl in H.
  rewrite Hfwd in H. simpl in H.
  destruct (batchSize e <=? currentBatchCount e + 1)%Z.
  - destruct (apply_update _ _ _) as [[ws bs]|]; simplify_eq/=. done.
  - simplify_eq/=. done.
Qed.

Lemma call_batch_invariant e c e' :
  batch_invariant e → positive_batch c → call e c = Some e' →
  batch_invariant e'.
Proof.
  unfold batch_invariant. intros Hinv Hpos Hcall. destruct c as [i|i t|lr b|]; simpl in *.
  - destruct (forward e i) as [[out e1]|] eqn:Hfwd; simplify_eq/=.
    apply forward_frame in Hfwd. by rewrite Hfwd.
  - destruct (train e i t) as [[out e1]|] eqn:Htrain; simplify_eq/=.
    destruct (train_counter _ _ _ _ _ Htrain) as [-> ->].
    destruct (Z.leb_spec (batchSize e) (currentBatchCount e + 1)); lia.
  - simplify_eq. unfold updateConfig. case_decide; simpl; lia.
  - destruct (getVisualizationData e); simplify_eq/=. done.
Qed.

Lemma constructor_fields ls lr b r e r' :
  new_MiniNeuralNet Math_random ls lr b r = Some (e, r') →
  layers e = ls ∧ learningRate e = default (lit 0.1) lr ∧
  batchSize e = default 1%Z b ∧ currentBatchCount e = 0%Z ∧
  activations e = [] ∧ preActivations e = [].
Proof.
  unfold new_MiniNeuralNet, initializeWeights. intros H.
  destruct (foldM _ _ _) as [[[[[ws wgs] bs] ngs] r1]|]; [|done]. simpl in H.
  destruct (ls !! 0%nat); simplify_eq/=. done.
Qed.

(** C5, as amended.  On an engine constructed with a positive batch size
    (or the default one), [0 <= batchCounter < batchSize] holds after
    construction and after every completed [forward], [train],
    [updateConfig] and [getVisualizationData] call of any sequence of
    calls whose [updateConfig] calls pass a positive batch size. *)
Theorem batch_counter_below_batch_size ls lr (b : option Z) r e0 r' cs e :
  new_MiniNeuralNet Math_random ls lr b r = Some (e0, r') →
  (0 < default 1 b)%Z →
  Forall positive_batch cs →
  calls e0 cs = Some e →
  batch_invariant e0 ∧ batch_invariant e.
Proof.
  intros Hnew Hb Hcs Hcalls.
  destruct (constructor_fields _ _ _ _ _ _ Hnew) as (_ & _ & HB & Hc & _).
  assert (batch_invariant e0) as H0 by (unfold batch_invariant; lia).
  split; [done|]. unfold calls in Hcalls.
  clear Hnew HB Hc. revert e0 H0 Hcalls.
  induction Hcs as [|c cs Hc _ IH]; intros e0 H0 Hcalls; simpl in Hcalls.
  - by simplify_eq.
  - destruct (call e0 c) as [e1|] eqn:Hcall; [|done]. simpl in Hcalls.
    eapply IH; [|exact Hcalls]. by eapply call_batch_invariant.
Qed.
End ClaimsCounter.

(** ** C6, C7 and C8: the dataset generator and unknown kinds *)

Section ClaimsData.
Context {A : Arith} {ML : MathLib A}.
Variable Math_random : nat → num.
Local Open Scope js_scope.

(** C6.  [generateData(XOR, 8)] returns exactly the eight points
    [(0.1,0.1)→[0]], [(0.9,0.1)→[1]], [(0.1,0.9)→[1]], [(0.9,0.9)→[0]],
    [(0.2,0.2)→[0]], [(0.8,0.2)→[1]], [(0.2,0.8)→[1]], [(0.8,0.8)→[0]],
    in that order, and draws no random number. *)
Theorem generateData_XOR_8 (r : nat) :
  generateData Math_random XOR (Some 8%Z) r = (point_of <$> xor_table, r).
Proof.
  unfold generateData. rewrite decide_True by reflexivity. reflexivity.
Qed.

Lemma generateData_XOR (count : option Z) (r : nat) :
  generateData Math_random XOR count r = (point_of <$> xor_table, r).
Proof.
  unfold generateData. rewrite decide_True by reflexivity. reflexivity.
Qed.

Lemma generateData_length (type : DatasetType) (count : option Z) (r : nat) :
  length (generateData Math_random type count r).1 = 8%nat.
Proof.
  unfold generateData. repeat case_decide; reflexivity.
Qed.

(** C7, as amended.  For every task kind [generateData] returns exactly
    [8] points when the count is omitted and when it is [8]; the XOR set
    is its eight fixed points whatever count is requested. *)
Theorem generateData_count (type : DatasetType) (r : nat) :
  length (generateData Math_random type None r).1 = 8%nat ∧
  length (generateData Math_random type (Some 8%Z) r).1 = 8%nat ∧
  ∀ count, (generateData Math_random XOR count r).1 = point_of <$> xor_table.
Proof.
  split; [apply generateData_length|]. split; [apply generateData_length|].
  intros count. by rewrite generateData_XOR.
Qed.



End ClaimsData.

(** ** C9: the ranges of the activation functions *)

Lemma Q2R_0 : Q2R 0 = 0%R.
Proof. unfold Q2R. simpl. lra. Qed.

Lemma Q2R_1 : Q2R 1 = 1%R.
Proof. unfold Q2R. simpl. lra. Qed.






(** *** Rounding in binary64 *)

Section Binary64.
Local Open Scope Z_scope.







(** **** Shifting a mantissa to the right *)






End Binary64.

Section Binary64Rounding.
Local Open Scope Z_scope.


(** **** Rounding a number that is at most one *)







(** **** Rounding a number that is at least one *)



End Binary64Rounding.

Section Binary64Operations.
Local Open Scope Z_scope.









End Binary64Operations.

(** Integers beyond the 63 bits of a machine integer and beyond the 53
    bits of a mantissa are rounded to the nearest double, ties to even. *)
Lemma float_of_Z_rounds :
  float_of_Z (- 2 ^ 63) = (-0x1p63)%float ∧
  float_of_Z (2 ^ 63 + 1) = 0x1p63%float ∧
  float_of_Z (2 ^ 53 + 1) = 0x1p53%float ∧
  float_of_Z (2 ^ 53 + 3) = 0x1.0000000000002p53%float ∧
  float_of_Z (2 ^ 1024) = infinity.
Proof. repeat split; vm_compute; reflexivity. Qed.





(** ** C10: the snapshot of a fresh engine *)

Section ClaimSnapshot.
Context {A : Arith}.
Variable Math_random : nat → num.

Lemma elem_of_fresh_neurons (e : MiniNeuralNet) (n : Neuron.t) :
  n ∈ fresh_neurons e ↔
  ∃ i j, (i < length (layers e))%nat ∧ (j < neurons (layer_at e i))%nat ∧
         n = fresh_neuron e i j.
Proof.
  unfold fresh_neurons. rewrite list_elem_of_join. split.
  - intros (l & Hn & Hl). apply list_elem_of_fmap in Hl as (i & -> & Hi).
    apply elem_of_seq in Hi. unfold fresh_layer in Hn.
    apply list_elem_of_fmap in Hn as (j & -> & Hj). apply elem_of_seq in Hj.
    exists i, j. split; [lia|]. split; [lia|done].
  - intros (i & j & Hi & Hj & ->). exists (fresh_layer e i). split.
    + unfold fresh_layer. apply list_elem_of_fmap. exists j.
      split; [done|]. apply elem_of_seq. lia.
    + apply list_elem_of_fmap. exists i. split; [done|]. apply elem_of_seq. lia.
Qed.

Lemma elem_of_fresh_connections (e : MiniNeuralNet) (c : Connection.t) :
  c ∈ fresh_connections e ↔
  ∃ i j k, (i < length (weights e))%nat ∧ (j < neurons (layer_at e i))%nat ∧
           (k < neurons (layer_at e (i + 1)))%nat ∧
           c = fresh_connection e i j k.
Proof.
  unfold fresh_connections. rewrite list_elem_of_join. split.
  - intros (l & Hc & Hl). apply list_elem_of_fmap in Hl as (i & -> & Hi).
    apply elem_of_seq in Hi.
    apply list_elem_of_join in Hc as (l' & Hc & Hl').
    apply list_elem_of_fmap in Hl' as (j & -> & Hj). apply elem_of_seq in Hj.
    apply list_elem_of_fmap in Hc as (k & -> & Hk). apply elem_of_seq in Hk.
    exists i, j, k. repeat split; first [lia|done].
  - intros (i & j & k & Hi & Hj & Hk & ->).
    exists (mjoin ((λ j, (λ k, fresh_connection e i j k)
                         <$> seq 0 (neurons (layer_at e (i + 1))))
                   <$> seq 0 (neurons (layer_at e i)))).
    split.
    + apply list_elem_of_join.
      exists ((λ k, fresh_connection e i j k)
              <$> seq 0 (neurons (layer_at e (i + 1)))).
      split.
      * apply list_elem_of_fmap. exists k. split; [done|]. apply elem_of_seq. lia.
      * apply list_elem_of_fmap. exists j. split; [done|]. apply elem_of_seq. lia.
    + apply list_elem_of_fmap. exists i. split; [done|]. apply elem_of_seq. lia.
Qed.

(** C10.  On the engine the constructor returns for a non-empty layer
    list, [getVisualizationData] succeeds, although the forward-state
    arrays are empty; its neuron list has a record for neuron [j] of
    every layer [i], every neuron record has activation, pre-activation
    and gradient [0], and bias [0] in the input layer; its connection
    list has a record for every weight, with that weight, and every
    connection record has gradient [0]. *)
Theorem fresh_engine_snapshot (ls : list LayerConfig) (lr : option num)
    (b : option Z) (r : nat) :
  ls ≠ [] →
  ∃ e r' snap,
    new_MiniNeuralNet Math_random ls lr b r = Some (e, r') ∧
    activations e = [] ∧ preActivations e = [] ∧
    getVisualizationData e = Some snap ∧
    snap_neurons snap = fresh_neurons e ∧
    snap_connections snap = fresh_connections e ∧
    (∀ i l j, ls !! i = Some l → (j < neurons l)%nat →
       ∃ n, n ∈ snap_neurons snap ∧
            Neuron.layerIndex n = i ∧ Neuron.neuronIndex n = j) ∧
    Forall (λ n, Neuron.activation n = lit 0 ∧
                 Neuron.preActivation n = lit 0 ∧
                 Neuron.gradient n = lit 0 ∧
                 (Neuron.layerIndex n = 0%nat → Neuron.bias n = lit 0))
           (snap_neurons snap) ∧
    (∀ i j k w, get3 (weights e) i j k = Some w →
       ∃ c, c ∈ snap_connections snap ∧
            Connection.sourceId c = neuron_id i j ∧
            Connection.targetId c = neuron_id (i + 1) k ∧
            Connection.weight c = w) ∧
    Forall (λ c, Connection.gradient c = lit 0) (snap_connections snap).
Proof.
  intros Hls.
  destruct (constructor_spec Math_random ls lr b r Hls)
    as (e & r' & Hnew & Hwf & Hlay & Ha & Hp & Hng & Hwg & _).
  exists e, r', {| snap_neurons := fresh_neurons e;
                   snap_connections := fresh_connections e |}.
  split; [done|]. split; [done|]. split; [done|].
  split; [by apply snapshot_fresh|]. simpl. split; [done|]. split; [done|].
  split; [|split; [|split]].
  - intros i l j Hl Hj. exists (fresh_neuron e i j). split; [|done].
    apply elem_of_fresh_neurons. exists i, j. rewrite Hlay.
    split; [by eapply lookup_lt_Some|]. split; [|done].
    unfold layer_at. by rewrite Hlay, Hl.
  - apply Forall_forall. intros n Hn.
    apply elem_of_fresh_neurons in Hn as (i & j & _ & _ & ->). simpl.
    do 3 (split; [done|]). by intros ->.
  - intros i j k w Hw. exists (fresh_connection e i j k). split.
    + apply elem_of_fresh_connections. exists i, j, k.
      destruct (wf_weights_range e i j k Hwf) as (Hi & Hj & Hk); [eauto|].
      rewrite Nat.add_1_r. rewrite (wf_length_weights e Hwf). done.
    + simpl. do 2 (split; [done|]). by apply at3_get3.
  - apply Forall_forall. intros c Hc.
    by apply elem_of_fresh_connections in Hc as (i & j & k & _ & _ & _ & ->).
Qed.
End ClaimSnapshot.

(** * The theorems at sample engines *)

Lemma wf_demo_net : wf demo_net.
Proof. split; vm_compute; (discriminate || reflexivity). Qed.

Lemma forward_computes_every_layer_witness :
  (wf demo_net ∧
   layers demo_net !! 0%nat = Some {| neurons := 2; activation := RELU |} ∧
   length (inputs demo_sample) = 2%nat) ∧
  ∃ out acts pres,
    @forward R_arith R_math demo_net (inputs demo_sample)
    = Some (out, with_forward_state demo_net acts pres) ∧
    length acts = 3%nat ∧ last acts = Some out.
Proof.
  split; [split; [exact wf_demo_net|split; reflexivity]|].
  destruct (@forward_computes_every_layer R_arith R_math demo_net
              (inputs demo_sample) {| neurons := 2; activation := RELU |}
              wf_demo_net eq_refl eq_refl)
    as (out & acts & pres & Hfwd & _ & Hlen & _ & _ & _ & Hlast & _).
  exists out, acts, pres. split; [exact Hfwd|]. split; [exact Hlen|exact Hlast].
Defined.

Lemma train_error_terms_witness :
  (wf demo_net ∧
   layers demo_net !! 0%nat = Some {| neurons := 2; activation := RELU |} ∧
   length (inputs demo_sample) = 2%nat ∧
   length (target demo_sample)
   = neurons (layer_at demo_net (length (layers demo_net) - 1))) ∧
  ∃ out e',
    @train R_arith R_math demo_net (inputs demo_sample) (target demo_sample)
    = Some (out, e') ∧
    last (activations e') = Some out.
Proof.
  split; [split; [exact wf_demo_net|repeat split; reflexivity]|].
  destruct (@train_error_terms R_arith R_math demo_net
              (inputs demo_sample) (target demo_sample)
              {| neurons := 2; activation := RELU |}
              wf_demo_net eq_refl eq_refl eq_refl)
    as (out & e' & Htrain & Hlast & _).
  exists out, e'. split; [exact Htrain|exact Hlast].
Defined.

Lemma accumulators_zero_demo_net : accumulators_zero demo_net.
Proof. split; vm_compute; repeat constructor. Qed.

Lemma fits_demo_samples : Forall (fits demo_net) demo_samples.
Proof. repeat constructor. Qed.

Lemma batch_update_after_B_calls_witness :
  (wf demo_net ∧ (1 ≤ batchSize demo_net)%Z ∧
   batchSize demo_net = Z.of_nat (length demo_samples) ∧
   currentBatchCount demo_net = 0%Z ∧ accumulators_zero demo_net ∧
   Forall (fits demo_net) demo_samples) ∧
  ∃ es e_B,
    @train_all R_arith R_math demo_net demo_samples = Some es ∧
    length es = 2%nat ∧ last es = Some e_B ∧
    accumulators_zero e_B ∧ currentBatchCount e_B = 0%Z.
Proof.
  assert ((1 ≤ batchSize demo_net)%Z) as HB by (vm_compute; discriminate).
  split.
  { split; [exact wf_demo_net|]. split; [exact HB|].
    split; [reflexivity|]. split; [reflexivity|].
    split; [exact accumulators_zero_demo_net|exact fits_demo_samples]. }
  destruct (@batch_update_after_B_calls R_arith R_math demo_net demo_samples
              wf_demo_net HB eq_refl eq_refl accumulators_zero_demo_net
              fits_demo_samples)
    as (es & e_B & Hrun & Hlen & Hlast & _ & _ & _ & _ & _ & Hzero & Hc).
  exists es, e_B.
  split; [exact Hrun|]. split; [exact Hlen|]. split; [exact Hlast|].
  split; [exact Hzero|exact Hc].
Defined.

Lemma updateConfig_discards_partial_batch_witness :
  (wf demo_net ∧ Forall (fits demo_net) [demo_sample] ∧
   (currentBatchCount demo_net + Z.of_nat (length [demo_sample])
    < batchSize demo_net)%Z ∧
   4%Z ≠ batchSize demo_net) ∧
  ∃ es,
    @train_all R_arith R_math demo_net [demo_sample] = Some es ∧
    accumulators_zero (updateConfig (default demo_net (last es)) (1 / 5)%R 4) ∧
    weights (updateConfig (default demo_net (last es)) (1 / 5)%R 4)
    = weights demo_net.
Proof.
  assert (Forall (fits demo_net) [demo_sample]) as Hfits
    by (repeat constructor).
  assert ((currentBatchCount demo_net + Z.of_nat (length [demo_sample])
           < batchSize demo_net)%Z) as Hlt by (vm_compute; reflexivity).
  assert (4%Z ≠ batchSize demo_net) as Hne by (vm_compute; discriminate).
  split; [by repeat split; try exact wf_demo_net|].
  destruct (@updateConfig_discards_partial_batch R_arith R_math demo_net
              [demo_sample] (1 / 5)%R 4 wf_demo_net Hfits Hlt Hne)
    as (es & Hrun & _ & _ & _ & Hzero & _ & _ & Hw & _).
  exists es. split; [exact Hrun|]. split; [exact Hzero|exact Hw].
Defined.

Lemma calls_demo_net :
  @calls R_arith R_math demo_net demo_calls = Some demo_net_after_calls.
Proof.
  unfold demo_net_after_calls.
  assert (is_Some (@calls R_arith R_math demo_net demo_calls)) as [e He].
  { apply (bool_decide_unpack _). vm_compute. exact I. }
  rewrite He. reflexivity.
Qed.

Lemma batch_counter_below_batch_size_witness :
  (@new_MiniNeuralNet R_arith demo_random demo_layers (Some (1 / 10)%R)
     (Some 2%Z) 0 = Some (demo_net, 13%nat) ∧
   (0 < default 1 (Some 2))%Z ∧
   Forall positive_batch demo_calls ∧
   @calls R_arith R_math demo_net demo_calls = Some demo_net_after_calls) ∧
  batch_invariant demo_net ∧ batch_invariant demo_net_after_calls.
Proof.
  assert (@new_MiniNeuralNet R_arith demo_random demo_layers
            (Some (1 / 10)%R) (Some 2%Z) 0 = Some (demo_net, 13%nat))
    as Hnew by (vm_compute; reflexivity).
  assert ((0 < default 1 (Some 2))%Z) as Hb by reflexivity.
  assert (Forall positive_batch demo_calls) as Hcs
    by (repeat constructor).
  split.
  - split; [exact Hnew|]. split; [exact Hb|].
    split; [exact Hcs|exact calls_demo_net].
  - exact (@batch_counter_below_batch_size R_arith R_math demo_random
             demo_layers (Some (1 / 10)%R) (Some 2%Z) 0%nat demo_net 13%nat
             demo_calls demo_net_after_calls Hnew Hb Hcs calls_demo_net).
Defined.

Lemma fresh_engine_snapshot_witness :
  demo_layers ≠ [] ∧
  ∃ e r' snap,
    @new_MiniNeuralNet R_arith demo_random demo_layers None None 0
    = Some (e, r') ∧
    getVisualizationData e = Some snap ∧
    length (snap_neurons snap) = 6%nat ∧
    length (snap_connections snap) = 9%nat.
Proof.
  assert (demo_layers ≠ []) as Hne by discriminate.
  split; [exact Hne|].
  destruct (@fresh_engine_snapshot R_arith demo_random demo_layers None None 0
              Hne)
    as (e & r' & snap & Hnew & _ & _ & Hsnap & Hn & Hc & _).
  exists e, r', snap. split; [exact Hnew|]. split; [exact Hsnap|].
  rewrite Hn, Hc.
  assert (layers e = demo_layers ∧ length (weights e) = 2%nat) as [Hl Hw].
  { vm_compute in Hnew. injection Hnew as <- _. split; reflexivity. }
  unfold fresh_neurons, fresh_connections, fresh_layer, layer_at.
  rewrite Hl, Hw. split; reflexivity.
Defined.




(** ** Counterexamples to the claims as stated *)

Ltac decide_reals :=
  repeat match goal with
         | H : context [Rle_dec ?x ?y] |- _ => destruct (Rle_dec x y)
         | H : context [Rlt_dec ?x ?y] |- _ => destruct (Rlt_dec x y)
         | |- context [Rle_dec ?x ?y] => destruct (Rle_dec x y)
         | |- context [Rlt_dec ?x ?y] => destruct (Rlt_dec x y)
         end.

(** C4 as stated fails for an engine that is in the middle of a batch.
    [relu_net_mid] has batch size [2], has accumulated one sample and
    holds the weight [1].  One further [train] call ([k = 1 < 2]) completes
    the batch and moves the weight to [17/20]; [updateConfig] with the
    batch size [4] then leaves it there. *)
Lemma partial_batch_counterexample :
  (∃ out, @train R_arith R_math relu_net (inputs relu_sample)
            (target relu_sample) = Some (out, relu_net_mid)) ∧
  batchSize relu_net_mid = 2%Z ∧
  currentBatchCount relu_net_mid = 1%Z ∧
  weights relu_net_mid = [[[1%R]]] ∧
  (Z.of_nat (length [relu_sample]) < batchSize relu_net_mid)%Z ∧
  4%Z ≠ batchSize relu_net_mid ∧
  ∃ e2,
    @train_all R_arith R_math relu_net_mid [relu_sample] = Some [e2] ∧
    weights (updateConfig e2 (1 / 10)%R 4) = [[[(17 / 20)%R]]] ∧
    weights (updateConfig e2 (1 / 10)%R 4) ≠ weights relu_net_mid.
Proof.
  split; [eexists; vm_compute; reflexivity|].
  split; [reflexivity|]. split; [reflexivity|].
  split; [vm_compute; do 3 f_equal; lra|].
  split; [reflexivity|]. split; [discriminate|].
  eexists. split; [vm_compute; reflexivity|].
  split.
  - vm_compute. do 3 f_equal. decide_reals; lra.
  - vm_compute. intros H. injection H as H. decide_reals; lra.
Qed.

(** C5 as stated fails when [updateConfig] is handed the batch size [0]:
    the engine was constructed with the batch size [1], the call
    completes, and afterwards counter and batch size are both [0]. *)
Lemma zero_batch_size_counterexample :
  (0 < batchSize default_net)%Z ∧
  batch_invariant default_net ∧
  ∃ e,
    @call R_arith R_math default_net (@CallUpdateConfig R_arith (1 / 10)%R 0)
    = Some e ∧
    currentBatchCount e = 0%Z ∧ batchSize e = 0%Z ∧
    ¬ batch_invariant e.
Proof.
  split; [reflexivity|]. split; [by vm_compute|].
  eexists. split; [reflexivity|]. split; [reflexivity|].
  split; [reflexivity|]. unfold batch_invariant. vm_compute. intros [_ H].
  discriminate H.
Qed.

(** C7 as stated fails for every count other than [8]: asked for [3]
    points, each of the three generators returns [8]. *)
Lemma requested_count_counterexample :
  length (@generateData R_arith R_math demo_random XOR (Some 3%Z) 0).1
  = 8%nat ∧
  length (@generateData R_arith R_math demo_random QUADRANTS (Some 3%Z) 0).1
  = 8%nat ∧
  length (@generateData R_arith R_math demo_random CIRCLE (Some 3%Z) 0).1
  = 8%nat.
Proof. repeat split; vm_compute; reflexivity. Qed.


(** C3 as stated fails in double arithmetic for a batch size that is not
    a power of two: the code multiplies the sum of the gradients by
    [1 / B], and [s * (1 / 3)] and [s / 3] round differently.  The three
    calls on [double_samples] succeed; the first two leave the weight
    [0.5] of [double_net] as it is, and after the third it is
    [0x1.da1cac083126fp-2] (printed [0.463]), while both readings of
    [w - learningRate * s / B] give [0x1.da1cac083126ep-2] (printed
    [0.46299999999999997]), whatever the host's [Math] library is. *)
Lemma third_of_sum_counterexample :
  (batchSize double_net = 3%Z ∧ currentBatchCount double_net = 0%Z ∧
   weights double_net = [[[0.5%float]]] ∧
   accWeightGradients double_net = [[[0%float]]] ∧
   accBiasGradients double_net = [[0%float]] ∧
   length double_samples = 3%nat) ∧
  ∀ ML : MathLib float_arith,
    let es :=
      default [] (@train_all float_arith ML double_net double_samples) in
    let s :=
      @sum_from_zero float_arith
        ((λ e_t, @at3 float_arith (weightGradients e_t) 0 0 0) <$> es) in
    let lr := learningRate double_net in
    length es = 3%nat ∧
    weights <$> es
    = [ [[[0.5%float]]]; [[[0.5%float]]];
        [[[(0.5 - lr * (s * (1 / 3)))%float]]] ] ∧
    (0.5 - lr * (s * (1 / 3)))%float = 0x1.da1cac083126fp-2%float ∧
    (0.5 - lr * s / 3)%float = 0x1.da1cac083126ep-2%float ∧
    (0.5 - lr * (s / 3))%float = 0x1.da1cac083126ep-2%float ∧
    PrimFloat.eqb 0x1.da1cac083126fp-2 0x1.da1cac083126ep-2 = false.
Proof.
  split; [repeat split; vm_compute; reflexivity|].
  intros ML. repeat split; vm_compute; reflexivity.
Qed.


(** * Further properties of the engine *)

(** ** [forward] and [train] as a pair *)

Section ForwardTrain.
Context {A : Arith} {ML : MathLib A}.
Local Open Scope js_scope.
Implicit Types (e : MiniNeuralNet).

(** [forward] keeps the layers and the hyperparameters. *)
Lemma forward_keeps e inputs out e' :
  forward e inputs = Some (out, e') →
  layers e' = layers e ∧ learningRate e' = learningRate e ∧
  batchSize e' = batchSize e.
Proof.
  unfold forward. intros H.
  destruct (foldM _ _ _) as [[[acts pres] cur]|]; simplify_eq/=. done.
Qed.

(** X1.  [forward] leaves everything but the forward state as it was,
    and a second call with the same inputs changes nothing at all. *)
Theorem forward_is_idempotent e inputs out e' :
  forward e inputs = Some (out, e') →
  layers e' = layers e ∧ weights e' = weights e ∧ biases e' = biases e ∧
  neuronGradients e' = neuronGradients e ∧
  weightGradients e' = weightGradients e ∧
  learningRate e' = learningRate e ∧ batchSize e' = batchSize e ∧
  currentBatchCount e' = currentBatchCount e ∧
  accWeightGradients e' = accWeightGradients e ∧
  accBiasGradients e' = accBiasGradients e ∧
  forward e' inputs = Some (out, e').
Proof.
  intros H. pose proof H as H0. unfold forward in H.
  destruct (foldM _ _ _) as [[[acts pres] cur]|] eqn:Hrun; simplify_eq/=.
  do 10 (split; [done|]).
  unfold forward. simpl. rewrite Hrun. done.
Qed.

(** X2.  The prediction [train] returns is the one [forward] makes on the
    engine as it was before the call, and the forward state [train]
    leaves is that of this [forward] call: after a call that updates the
    parameters the stored activations are still those of the old
    parameters. *)
Theorem train_predicts_before_update e inputs targets out e' :
  train e inputs targets = Some (out, e') →
  ∃ e1,
    forward e inputs = Some (out, e1) ∧
    activations e' = activations e1 ∧
    preActivations e' = preActivations e1 ∧
    layers e' = layers e ∧ learningRate e' = learningRate e ∧
    batchSize e' = batchSize e.
Proof.
  unfold train. intros H.
  destruct (forward e inputs) as [[outputs e1]|] eqn:Hfwd; [|done].
  simpl in H. exists e1.
  destruct (forward_keeps e inputs outputs e1 Hfwd)
    as (Hl & Hlr & Hbs).
  destruct (output_error _ _ _ _) as [ng|]; [|done]. simpl in H.
  destruct (foldM _ _ _) as [[[[ng' wg] accW] accB]|]; [|done]. simpl in H.
  destruct (batchSize e1 <=? currentBatchCount e1 + 1)%Z.
  - destruct (apply_update _ _ _) as [[ws bs]|]; simplify_eq/=. done.
  - simplify_eq/=. done.
Qed.

End ForwardTrain.

(** ** [forward] and the length of its input *)

Section ForwardLength.
Context {A : Arith} {ML : MathLib A}.
Local Open Scope js_scope.
Implicit Types (e : MiniNeuralNet).

(** A loop fails when its body fails at one of its elements, whatever
    the state then is. *)
Lemma foldM_fails {S X : Type} (f : S → X → option S) (s : S) (xs : list X)
    (x : X) :
  x ∈ xs → (∀ s, f s x = None) → foldM f s xs = None.
Proof.
  intros Hx Hf. revert s. induction xs as [|y xs IH]; intros s.
  - by apply elem_of_nil in Hx.
  - simpl. apply elem_of_cons in Hx as [<-|Hx].
    + by rewrite Hf.
    + destruct (f s y); [by apply IH|done].
Qed.

(** The loop over the neurons of a layer on activations that are not
    longer than the weight matrix has rows. *)
Lemma forward_neuron_loop_short (l : LayerConfig) W (b cur : list num) p :
  shape2 W = replicate p (neurons l) → length cur ≤ p →
  length b = neurons l →
  ∃ a z,
    foldM (λ '(nextActivations, nextPreActivations) j,
        bj ← b !! j;
        sum ← foldM (λ sum k, a ← cur !! k; w ← get2 W k j; Some (sum + a * w))
                    bj (seq 0 (length cur));
        let val := activate (activation l) sum in
        Some (nextActivations ++ [val], nextPreActivations ++ [sum]))
      ([], []) (seq 0 (neurons l)) = Some (a, z) ∧
    layer_computed l W b cur z a.
Proof.
  intros HW Hcur Hb.
  pose (P := λ (n : nat) (st : list num * list num),
    length st.1 = n ∧ length st.2 = n ∧
    ∀ j, j < n → ∃ bj, b !! j = Some bj ∧
      st.2 !! j = Some (weighted_sum bj cur W j) ∧
      st.1 !! j = Some (activate (activation l) (weighted_sum bj cur W j))).
  edestruct (foldM_seq_ind P) as ([a z] & Hrun & Ha & Hz & Hj); last first.
  { exists a, z. split; [exact Hrun|]. split; [done|]. split; [done|]. exact Hj. }
  - intros j [nas nzs] [_ Hjn] (Hlen1 & Hlen2 & Hprev). simpl in *.
    destruct (lookup_lt_is_Some_2 b j) as [bj Hbj]; [lia|].
    rewrite Hbj. simpl. rewrite forward_sum_loop; last first.
    { intros k Hk. eapply shape2_replicate_get2; [done|lia|lia]. }
    simpl. eexists. split; [done|]. unfold P. simpl.
    rewrite !length_app, Hlen1, Hlen2. simpl. split; [lia|]. split; [lia|].
    intros j' Hj'. destruct (decide (j' = j)) as [->|].
    + exists bj. split; [done|].
      rewrite !lookup_app_r by lia. rewrite Hlen1, Hlen2, Nat.sub_diag. done.
    + destruct (Hprev j') as (bj' & ? & ? & ?); [lia|].
      exists bj'. rewrite !lookup_app_l by lia. done.
  - split; [done|]. split; [done|]. intros; lia.
Qed.

(** [forward] on an input that is not longer than the input layer. *)
Lemma forward_short_spec e inputs l0 :
  wf e → layers e !! 0 = Some l0 → length inputs ≤ neurons l0 →
  ∃ out acts pres,
    forward e inputs = Some (out, with_forward_state e acts pres) ∧
    length acts = length (layers e) ∧ length pres = length (layers e) ∧
    acts !! 0 = Some inputs ∧ pres !! 0 = Some inputs ∧
    last acts = Some out ∧
    ∀ i l, layers e !! Datatypes.S i = Some l →
      ∃ prev W b z a,
        acts !! i = Some prev ∧ weights e !! i = Some W ∧
        biases e !! i = Some b ∧
        pres !! Datatypes.S i = Some z ∧ acts !! Datatypes.S i = Some a ∧
        layer_computed l W b prev z a.
Proof.
  intros He Hl0 Hin.
  pose (P := λ (n : nat) (st : list (list num) * list (list num) * list num),
    let '(acts, pres, cur) := st in
    length acts = Datatypes.S n ∧ length pres = Datatypes.S n ∧
    acts !! n = Some cur ∧
    acts !! 0 = Some inputs ∧ pres !! 0 = Some inputs ∧
    (∃ ln, layers e !! n = Some ln ∧ length cur ≤ neurons ln) ∧
    ∀ i l, i < n → layers e !! Datatypes.S i = Some l →
      ∃ prev W b z a,
        acts !! i = Some prev ∧ weights e !! i = Some W ∧
        biases e !! i = Some b ∧
        pres !! Datatypes.S i = Some z ∧ acts !! Datatypes.S i = Some a ∧
        layer_computed l W b prev z a).
  unfold forward.
  edestruct (foldM_seq_ind P) as ([[acts pres] cur] & -> & HP); last first.
  { simpl in HP. destruct HP as (Ha & Hp & Hcur & Ha0 & Hp0 & _ & Hlay).
    pose proof (wf_length_weights e He) as Hlen.
    assert (length (layers e) ≠ 0) as Hne.
    { destruct (layers e); [done|simpl; lia]. }
    exists cur, acts, pres. split; [done|].
    split; [lia|]. split; [lia|]. split; [done|]. split; [done|]. split.
    - rewrite last_lookup, Ha. simpl. done.
    - intros i l Hl. apply Hlay; [|done].
      apply lookup_lt_Some in Hl. lia. }
  - intros i [[acts pres] cur] [_ Hi]
      (Ha & Hp & Hcur & Ha0 & Hp0 & (ln & Hln & Hlencur) & Hlay).
    simpl in Hi.
    destruct (wf_lookup_layers e i He Hi) as (p & c & Hp' & Hc).
    assert (p = ln) as -> by congruence.
    destruct (wf_lookup_weights e i ln c He Hln Hc) as (W & HW & HshW).
    destruct (wf_lookup_biases e i c He Hc) as (b & Hb & Hlenb).
    rewrite Nat.add_1_r, Hc, HW, Hb. simpl.
    destruct (forward_neuron_loop_short c W b cur _ HshW Hlencur Hlenb)
      as (a & z & Hrun & Hlc).
    cbv zeta in Hrun. rewrite Hrun. simpl. eexists. split; [done|]. unfold P.
    rewrite !length_app, Ha, Hp. simpl.
    split; [lia|]. split; [lia|]. split.
    { rewrite lookup_app_r by lia. by rewrite Ha, Nat.sub_diag. }
    split. { rewrite lookup_app_l by lia. done. }
    split. { rewrite lookup_app_l by lia. done. }
    split. { exists c. split; [done|]. destruct Hlc as (_ & ? & _). lia. }
    intros i' l Hi' Hl.
    destruct (decide (i' = i)) as [->|Hne].
    + assert (l = c) as -> by congruence.
      exists cur, W, b, z, a.
      rewrite lookup_app_l by lia.
      rewrite !lookup_app_r by lia. rewrite Ha, Hp, Nat.sub_diag. done.
    + destruct (Hlay i' l) as (prev' & W' & b' & z' & a' & ? & ? & ? & ? & ? & ?);
        [lia|done|].
      exists prev', W', b', z', a'.
      rewrite !lookup_app_l by lia. done.
  - simpl. split; [done|]. split; [done|]. split; [done|].
    split; [done|]. split; [done|]. split; [eauto|]. intros; lia.
Qed.

(** X3.  [forward] does not compare the length of its input with the
    width of the input layer.  On an engine with a non-empty second
    layer it fails exactly when the input is longer than the input layer
    (it reads a row of weights that does not exist); a shorter input is
    accepted, and the pre-activations of the second layer are then the
    bias plus the weighted sum over the inputs that were given. *)
Theorem forward_accepts_short_inputs e inputs l0 l1 :
  wf e → layers e !! 0%nat = Some l0 → layers e !! 1%nat = Some l1 →
  (0 < neurons l1)%nat →
  (forward e inputs = None ↔ (neurons l0 < length inputs)%nat) ∧
  ((length inputs ≤ neurons l0)%nat →
   ∃ out acts pres W b z,
     forward e inputs = Some (out, with_forward_state e acts pres) ∧
     last acts = Some out ∧ acts !! 0%nat = Some inputs ∧
     weights e !! 0%nat = Some W ∧ biases e !! 0%nat = Some b ∧
     pres !! 1%nat = Some z ∧ length z = neurons l1 ∧
     ∀ j, (j < neurons l1)%nat →
       z !! j = Some (weighted_sum (at1 b j) inputs W j)).
Proof.
  intros Hwf Hl0 Hl1 Hn1.
  assert ((length inputs ≤ neurons l0)%nat →
    ∃ out acts pres W b z,
     forward e inputs = Some (out, with_forward_state e acts pres) ∧
     last acts = Some out ∧ acts !! 0%nat = Some inputs ∧
     weights e !! 0%nat = Some W ∧ biases e !! 0%nat = Some b ∧
     pres !! 1%nat = Some z ∧ length z = neurons l1 ∧
     ∀ j, (j < neurons l1)%nat →
       z !! j = Some (weighted_sum (at1 b j) inputs W j)) as Hshort.
  { intros Hin.
    destruct (forward_short_spec e inputs l0 Hwf Hl0 Hin)
      as (out & acts & pres & Hfwd & _ & _ & Ha0 & _ & Hlast & Hlay).
    destruct (Hlay 0 l1 Hl1)
      as (prev & W & b & z & a & Hprev & HW & Hb & Hz & _ & Hlz & _ & Hj).
    assert (prev = inputs) as -> by congruence.
    exists out, acts, pres, W, b, z. do 7 (split; [done|]).
    intros j Hjl. destruct (Hj j Hjl) as (bj & Hbj & Hzj & _).
    by rewrite (at1_lookup _ _ _ Hbj). }
  split; [|exact Hshort]. split.
  - intros Hnone. destruct (Nat.lt_ge_cases (neurons l0) (length inputs))
      as [?|Hle]; [done|].
    destruct (Hshort Hle) as (? & ? & ? & ? & ? & ? & Hfwd & _). congruence.
  - intros Hlong. unfold forward.
    destruct (wf_lookup_weights e 0 l0 l1 Hwf Hl0 Hl1) as (W & HW & HshW).
    destruct (wf_lookup_biases e 0 l1 Hwf Hl1) as (b & Hb & Hlenb).
    assert (length (weights e) ≠ 0%nat) as Hlen.
    { apply lookup_lt_Some in HW. lia. }
    destruct (length (weights e)) as [|n]; [done|].
    simpl. rewrite Hl1, HW, Hb. simpl.
    destruct (neurons l1) as [|m] eqn:Hm; [lia|]. simpl.
    destruct (lookup_lt_is_Some_2 b 0) as [b0 Hb0]; [lia|].
    rewrite Hb0. simpl.
    rewrite (foldM_fails _ _ _ (neurons l0)).
    + done.
    + apply elem_of_seq. lia.
    + intros s. destruct (inputs !! neurons l0); [|done]. simpl.
      assert (get2 W (neurons l0) 0 = None) as ->; [|done].
      unfold get2. rewrite (lookup_ge_None_2 W); [done|].
      apply (f_equal length) in HshW.
      rewrite shape2_length, length_replicate in HshW. lia.
Qed.

End ForwardLength.

(** ** The constructor *)

Section ConstructorDraws.
Context {A : Arith}.
Variable Math_random : nat → num.
Implicit Types (e : MiniNeuralNet) (ls : list LayerConfig).

Lemma sum_list_snoc (l : list nat) (n : nat) :
  sum_list (l ++ [n]) = sum_list l + n.
Proof. induction l as [|m l IH]; simpl; lia. Qed.

Lemma param_offset_S ls i :
  param_offset ls (Datatypes.S i) = param_offset ls i + layer_params ls i.
Proof.
  unfold param_offset. rewrite seq_S, fmap_app. simpl. by rewrite sum_list_snoc.
Qed.

(** The rows of one layer (lines 77-86), with the draws they use. *)
Lemma weight_rows_draws (c : nat) (g : num → num) p a lw lwg r :
  ∃ lwg',
    fold_left (λ '(lw, lwg, r) (_ : nat),
        let '(neuronWeights, r) := random_pushes Math_random g c r in
        let neuronWeightGrads := replicate c (lit 0) in
        (lw ++ [neuronWeights], lwg ++ [neuronWeightGrads], r))
      (seq a p) (lw, lwg, r)
    = (lw ++ ((λ j, (λ k, g (Math_random (r + j * c + k))) <$> seq 0 c)
              <$> seq 0 p),
       lwg', r + p * c).
Proof.
  revert a lw lwg r. induction p as [|p IH]; intros a lw lwg r; simpl.
  - exists lwg. rewrite app_nil_r. do 2 f_equal. lia.
  - destruct (IH (Datatypes.S a)
                (lw ++ [((λ k, g (Math_random (r + k))) <$> seq 0 c)])
                (lwg ++ [replicate c (lit 0)]) (r + c))
      as (lwg' & Hrun).
    exists lwg'. unfold random_pushes in *. simpl in *. rewrite Hrun.
    rewrite <- app_assoc. simpl. f_equal; [|lia]. f_equal. f_equal.
    f_equal.
    + apply list_fmap_ext. intros _ k _. do 2 f_equal. lia.
    + rewrite <- fmap_S_seq, <- list_fmap_compose.
      apply list_fmap_ext. intros _ j _. simpl.
      apply list_fmap_ext. intros _ k _. do 2 f_equal. lia.
Qed.

Lemma neurons_at_lookup ls i l : ls !! i = Some l → neurons_at ls i = neurons l.
Proof. unfold neurons_at. by intros ->. Qed.

(** The parameters and the number of draws of a constructed engine. *)
Lemma constructor_parameters ls lr b r e r' :
  new_MiniNeuralNet Math_random ls lr b r = Some (e, r') →
  weights e = drawn_weights Math_random ls r ∧
  biases e = drawn_biases Math_random ls r ∧
  r' = r + param_offset ls (length ls - 1).
Proof.
  unfold new_MiniNeuralNet, initializeWeights. simpl. intros H.
  edestruct (foldM_seq_ind
    (λ k (st : list (list (list num)) * list (list (list num)) *
               list (list num) * list (list num) * nat),
       let '(ws, wgs, bs, ngs, r1) := st in
       ws = take (k - 1) (drawn_weights Math_random ls r) ∧
       bs = take (k - 1) (drawn_biases Math_random ls r) ∧
       r1 = r + param_offset ls (k - 1)))
    as ([[[[ws wgs] bs] ngs] r1] & Hrun & Hws & Hbs & Hr); last first.
  { rewrite Hrun in H. simpl in H.
    destruct (ls !! 0) as [l0|]; simplify_eq/=.
    rewrite Nat.sub_0_r.
    rewrite !take_ge; [done|..];
      unfold drawn_biases, drawn_weights; rewrite length_fmap, length_seq; lia. }
  - intros k [[[[ws wgs] bs] ngs] r1] [Hk1 Hk2] (Hws & Hbs & Hr).
    destruct (lookup_lt_is_Some_2 ls (k - 1)) as [prev Hprev]; [lia|].
    destruct (lookup_lt_is_Some_2 ls k) as [curr Hcurr]; [lia|].
    rewrite Hprev, Hcurr. simpl.
    destruct (weight_rows_draws (neurons curr)
                (λ x, sub (mul x (lit 2)) (lit 1)) (neurons prev) 0 [] [] r1)
      as (lwg' & Hrows).
    simpl in Hrows. rewrite Hrows. simpl.
    eexists. split; [done|]. cbv beta iota.
    replace (k - 0) with (Datatypes.S (k - 1)) by lia.
    assert (neurons_at ls (k - 1) = neurons prev) as Hnp
      by (by apply neurons_at_lookup).
    assert (neurons_at ls (Datatypes.S (k - 1)) = neurons curr) as Hnc.
    { apply neurons_at_lookup. by replace (Datatypes.S (k - 1)) with k by lia. }
    assert (drawn_weights Math_random ls r !! (k - 1)
            = Some ((λ j, (λ k0, sub (mul (Math_random
                                (r1 + j * neurons curr + k0)) (lit 2)) (lit 1))
                          <$> seq 0 (neurons curr))
                    <$> seq 0 (neurons prev))) as HW.
    { unfold drawn_weights. rewrite list_lookup_fmap, lookup_seq_lt by lia.
      simpl. by rewrite Hnp, Hnc, Hr. }
    assert (drawn_biases Math_random ls r !! (k - 1)
            = Some ((λ k0, sub (Math_random
                                  (r1 + neurons prev * neurons curr + k0))
                               (lit 0.5))
                    <$> seq 0 (neurons curr))) as HB.
    { unfold drawn_biases. rewrite list_lookup_fmap, lookup_seq_lt by lia.
      simpl. by rewrite Hnp, Hnc, Hr. }
    split; [|split].
    + by rewrite (take_S_r _ _ _ HW), Hws.
    + by rewrite (take_S_r _ _ _ HB), Hbs.
    + rewrite param_offset_S. unfold layer_params, random_pushes. simpl.
      rewrite Hnp, Hnc, Hr. lia.
  - simpl. done.
Qed.

(** X4.  The constructor fails exactly on the empty layer list (it
    reads [layers[0].neurons]); a list of one layer is accepted. *)
Theorem constructor_fails_iff_no_layers ls lr b r :
  new_MiniNeuralNet Math_random ls lr b r = None ↔ ls = [].
Proof.
  split.
  - intros H. destruct ls as [|l ls]; [done|].
    destruct (constructor_spec Math_random (l :: ls) lr b r)
      as (e & r' & Hnew & _); [done|congruence].
  - by intros ->.
Qed.

(** X5.  For a non-empty layer list the constructor makes one draw of
    [Math.random] for every parameter and no other: the weight from
    neuron [j] of layer [i] to neuron [k] of layer [i + 1] is
    [u * 2 - 1] for the draw [u] number [offset i + j * n_{i+1} + k], the
    bias of neuron [k] of layer [i + 1] is [u - 0.5] for the draw number
    [offset i + n_i * n_{i+1} + k], where [offset i] counts the
    parameters of the layers before. *)
Theorem constructor_draws_every_parameter ls lr b r :
  ls ≠ [] →
  ∃ e,
    new_MiniNeuralNet Math_random ls lr b r
    = Some (e, r + param_offset ls (length ls - 1)) ∧
    weights e = drawn_weights Math_random ls r ∧
    biases e = drawn_biases Math_random ls r ∧
    (∀ i j k,
       Datatypes.S i < length ls → j < neurons_at ls i →
       k < neurons_at ls (Datatypes.S i) →
       get3 (weights e) i j k
       = Some (sub (mul (Math_random
                           (r + param_offset ls i
                            + j * neurons_at ls (Datatypes.S i) + k))
                        (lit 2)) (lit 1))) ∧
    (∀ i k,
       Datatypes.S i < length ls → k < neurons_at ls (Datatypes.S i) →
       get2 (biases e) i k
       = Some (sub (Math_random
                      (r + param_offset ls i
                       + neurons_at ls i * neurons_at ls (Datatypes.S i) + k))
                   (lit 0.5))).
Proof.
  intros Hls.
  destruct (constructor_spec Math_random ls lr b r Hls)
    as (e & r' & Hnew & _).
  destruct (constructor_parameters _ _ _ _ _ _ Hnew) as (Hw & Hb & ->).
  exists e. split; [done|]. split; [done|]. split; [done|]. split.
  - intros i j k Hi Hj Hk. rewrite Hw. unfold get3, drawn_weights.
    rewrite list_lookup_fmap, lookup_seq_lt by lia. simpl.
    rewrite list_lookup_fmap, lookup_seq_lt by lia. simpl.
    by rewrite list_lookup_fmap, lookup_seq_lt by lia.
  - intros i k Hi Hk. rewrite Hb. unfold get2, drawn_biases.
    rewrite list_lookup_fmap, lookup_seq_lt by lia. simpl.
    by rewrite list_lookup_fmap, lookup_seq_lt by lia.
Qed.

End ConstructorDraws.

(** Over the reals, with draws in [[0, 1)]. *)
Lemma Q2R_2 : Q2R 2 = 2%R.
Proof. unfold Q2R. simpl. lra. Qed.

Lemma Q2R_half : Q2R 0.5 = (1 / 2)%R.
Proof. unfold Q2R. simpl. lra. Qed.

(** X6.  In exact arithmetic, when every draw of [Math.random] lies in
    [[0, 1)], every weight of a constructed engine lies in [[-1, 1)] and
    every bias in [[-1/2, 1/2)]. *)
Theorem constructor_parameter_ranges (Math_random : nat → R)
    (ls : list LayerConfig) (lr : option R) (b : option Z) (r : nat) :
  (∀ k, (0 <= Math_random k < 1)%R) →
  ls ≠ [] →
  ∃ e r',
    @new_MiniNeuralNet R_arith Math_random ls lr b r = Some (e, r') ∧
    Forall (Forall (Forall (λ w : R, (-1 <= w < 1)%R))) (weights e) ∧
    Forall (Forall (λ x : R, (-1 / 2 <= x < 1 / 2)%R)) (biases e).
Proof.
  intros Hdraw Hls.
  destruct (@constructor_spec R_arith Math_random ls lr b r Hls)
    as (e & r' & Hnew & _).
  destruct (@constructor_parameters R_arith _ _ _ _ _ _ _ Hnew)
    as (Hw & Hb & _).
  exists e, r'. split; [done|]. rewrite Hw, Hb. split.
  - unfold drawn_weights.
    apply Forall_fmap, Forall_forall. intros i _.
    apply Forall_fmap, Forall_forall. intros j _.
    apply Forall_fmap, Forall_forall. intros k _. simpl.
    rewrite Q2R_2, Q2R_1.
    specialize (Hdraw (r + param_offset ls i
                       + j * neurons_at ls (Datatypes.S i) + k)).
    lra.
  - unfold drawn_biases.
    apply Forall_fmap, Forall_forall. intros i _.
    apply Forall_fmap, Forall_forall. intros k _. simpl.
    rewrite Q2R_half.
    specialize (Hdraw (r + param_offset ls i
                       + neurons_at ls i * neurons_at ls (Datatypes.S i) + k)).
    lra.
Qed.

(** ** Batches *)

Section Batches.
Context {A : Arith} {ML : MathLib A}.
Local Open Scope js_scope.
Implicit Types (e : MiniNeuralNet) (samples : list DataPoint).

(** One call of [train] on a sample that fits. *)
Lemma train_step e s :
  wf e → fits e s →
  ∃ out e',
    train e (inputs s) (target s) = Some (out, e') ∧
    wf e' ∧ layers e' = layers e ∧ batchSize e' = batchSize e ∧
    learningRate e' = learningRate e ∧
    currentBatchCount e' =
      (if (batchSize e <=? currentBatchCount e + 1)%Z then 0
       else currentBatchCount e + 1)%Z ∧
    ((currentBatchCount e + 1 < batchSize e)%Z →
     weights e' = weights e ∧ biases e' = biases e).
Proof.
  intros Hwf [Hin Htg].
  destruct (train_spec e (inputs s) (target s) _ Hwf (wf_layer0 e Hwf) Hin Htg)
    as (out & e' & accW & accB & Htrain & Hwf' & Hlay & Hlr & Hbs & _ & _
        & _ & _ & _ & Hbranch).
  exists out, e'. do 5 (split; [done|]).
  destruct (Z.leb_spec (batchSize e) (currentBatchCount e + 1)) as [Hfull|Hpart].
  - destruct Hbranch as (_ & Hc & _). split; [done|]. lia.
  - destruct Hbranch as (Hw & Hb & Hc & _). done.
Qed.

(** X7.  Consecutive calls of [train] with samples that fit all succeed,
    and after the [t]-th call the batch counter is the number of calls
    made since construction modulo the batch size: starting from a
    counter [c] with [0 <= c < B] it is [(c + t) mod B].  A call after
    which the counter is not [0] has changed no weight and no bias. *)
Theorem batch_counter_counts_modulo e samples :
  wf e → batch_invariant e → Forall (fits e) samples →
  ∃ es,
    train_all e samples = Some es ∧ length es = length samples ∧
    ∀ t e_p e_t,
      (e :: es) !! t = Some e_p → es !! t = Some e_t →
      batchSize e_t = batchSize e ∧
      currentBatchCount e_t
      = ((currentBatchCount e + Z.of_nat (t + 1)) mod batchSize e)%Z ∧
      (currentBatchCount e_t ≠ 0%Z →
       weights e_t = weights e_p ∧ biases e_t = biases e_p).
Proof.
  intros Hwf Hinv Hfits. revert e Hwf Hinv Hfits.
  induction samples as [|s rest IH]; intros e Hwf Hinv Hfits.
  - exists []. simpl. split; [done|]. split; [done|]. intros t ? ? _ Ht.
    by rewrite lookup_nil in Ht.
  - apply Forall_cons in Hfits as [Hs Hrest].
    destruct (train_step e s Hwf Hs)
      as (out & e' & Htrain & Hwf' & Hlay & Hbs & _ & Hc & Hsame).
    unfold batch_invariant in Hinv.
    assert (currentBatchCount e'
            = ((currentBatchCount e + 1) mod batchSize e)%Z) as Hc'.
    { rewrite Hc.
      destruct (Z.leb_spec (batchSize e) (currentBatchCount e + 1)).
      - assert (currentBatchCount e + 1 = batchSize e)%Z as -> by lia.
        by rewrite Z_mod_same_full.
      - rewrite Z.mod_small; lia. }
    destruct (IH e') as (es & Hrun & Hlen & Hall).
    { done. }
    { unfold batch_invariant. rewrite Hbs, Hc'.
      apply Z.mod_pos_bound. lia. }
    { eapply Forall_impl; [exact Hrest|]. intros s'. by apply fits_same_layers. }
    exists (e' :: es). simpl. rewrite Htrain. simpl. rewrite Hrun. simpl.
    split; [done|]. split; [by rewrite Hlen|].
    intros t e_p e_t Hp Ht. destruct t as [|t]; simpl in Hp, Ht.
    + simplify_eq. split; [done|]. split; [done|].
      intros Hne. apply Hsame.
      destruct (Z.leb_spec (batchSize e_p) (currentBatchCount e_p + 1)); lia.
    + destruct (Hall t e_p e_t Hp Ht) as (Hb1 & Hc1 & Hs1).
      split; [congruence|]. split; [|done].
      rewrite Hc1, Hbs, Hc'. rewrite Zplus_mod_idemp_l. f_equal. lia.
Qed.

(** Calls that fill the batch exactly, from any accumulators [x]. *)
Lemma train_all_fills_batch e samples :
  wf e → Forall (fits e) samples → 0 < length samples →
  (currentBatchCount e + Z.of_nat (length samples) = batchSize e)%Z →
  ∃ es e_B,
    train_all e samples = Some es ∧ length es = length samples ∧
    last es = Some e_B ∧
    (∀ i j k w x,
       get3 (weights e) i j k = Some w →
       get3 (accWeightGradients e) i j k = Some x →
       get3 (weights e_B) i j k =
       Some (w - learningRate e
                 * (fold_left add
                      ((λ e_t, at3 (weightGradients e_t) i j k) <$> es) x
                    * (lit 1 / lit (inject_Z (batchSize e)))))) ∧
    (∀ i k b x,
       get2 (biases e) i k = Some b →
       get2 (accBiasGradients e) i k = Some x →
       get2 (biases e_B) i k =
       Some (b - learningRate e
                 * (fold_left add
                      ((λ e_t, at2 (neuronGradients e_t) (Datatypes.S i) k)
                       <$> es) x
                    * (lit 1 / lit (inject_Z (batchSize e)))))) ∧
    wf e_B ∧ layers e_B = layers e ∧ accumulators_zero e_B ∧
    currentBatchCount e_B = 0%Z.
Proof.
  intros Hwf Hfits Hpos HB.
  destruct (exists_last_sample samples) as (init & s & ->); [lia|].
  rewrite length_app in HB. simpl in HB.
  apply Forall_app in Hfits as [Hinit Hs].
  apply Forall_inv in Hs. destruct Hs as [Hin Htg].
  destruct (train_all_partial e init Hwf Hinit)
    as (es1 & Hrun1 & Hlen1 & Hall1 & Hmid & Hcnt & HsumW & HsumB); [lia|].
  set (e_mid := default e (last es1)) in *.
  destruct Hmid as (Hwfm & Hlaym & Hlrm & Hbsm & Hwm & Hbm).
  destruct (train_spec e_mid (inputs s) (target s) _ Hwfm (wf_layer0 _ Hwfm))
    as (out & e_B & accW & accB & Htrain & HwfB & HlayB & HlrB & HbsB & _ & _
        & _ & Hgrad & (HshaccW & HshaccB & HaccW & HaccB) & Hbranch).
  { unfold fits, layer_at in *. by rewrite Hlaym. }
  { unfold fits, layer_at in *. by rewrite Hlaym. }
  destruct (Z.leb_spec (batchSize e_mid) (currentBatchCount e_mid + 1))
    as [_|?]; [|lia].
  destruct Hbranch as ((HshW & HshB & HupdW & HupdB) & HcB & HzeroB).
  exists (es1 ++ [e_B]), e_B.
  rewrite train_all_app, Hrun1. simpl. fold e_mid. rewrite Htrain. simpl.
  split; [done|]. split; [by rewrite !length_app, Hlen1|].
  split; [by rewrite last_snoc|]. split.
  { intros i j k w x Hw Hx. rewrite (HupdW i j k w) by (by rewrite Hwm).
    unfold averaged_step. rewrite Hlrm, Hbsm.
    rewrite (at3_get3 _ _ _ _ _ (HaccW i j k _ (HsumW i j k _ Hx))).
    by rewrite fmap_app, fold_left_app. }
  split.
  { intros i k b x Hb Hx. rewrite (HupdB i k b) by (by rewrite Hbm).
    unfold averaged_step. rewrite Hlrm, Hbsm.
    rewrite (at2_get2 _ _ _ _ (HaccB i k _ (HsumB i k _ Hx))).
    by rewrite fmap_app, fold_left_app. }
  split; [done|]. split; [congruence|]. done.
Qed.

Lemma updateConfig_same_batchSize e lr :
  updateConfig e lr (batchSize e)
  = {| layers := layers e; weights := weights e; biases := biases e;
       activations := activations e; preActivations := preActivations e;
       neuronGradients := neuronGradients e;
       weightGradients := weightGradients e;
       learningRate := lr; batchSize := batchSize e;
       currentBatchCount := currentBatchCount e;
       accWeightGradients := accWeightGradients e;
       accBiasGradients := accBiasGradients e |}.
Proof. unfold updateConfig. by rewrite decide_False by (intros H; by apply H). Qed.

(** X8.  [updateConfig] with the batch size the engine has replaces the
    learning rate and nothing else, so the batch in progress goes on: on
    an engine at the start of a batch of [B], after [k] calls of [train],
    [updateConfig(lr', B)] and the [B - k] calls that fill the batch,
    every weight is its old value minus [lr' * (s * (1 / B))] for the
    sum [s] of all [B] per-sample gradients, those computed before the
    change of the learning rate included; every bias likewise. *)
Theorem learning_rate_change_keeps_batch e samples1 samples2 (lr' : num) :
  wf e → currentBatchCount e = 0%Z → accumulators_zero e →
  Forall (fits e) samples1 → Forall (fits e) samples2 →
  0 < length samples2 →
  Z.of_nat (length samples1 + length samples2) = batchSize e →
  ∃ es1 es2 e_B,
    train_all e samples1 = Some es1 ∧
    let e_k := default e (last es1) in
    let e_k' := updateConfig e_k lr' (batchSize e) in
    learningRate e_k' = lr' ∧
    currentBatchCount e_k' = Z.of_nat (length samples1) ∧
    accWeightGradients e_k' = accWeightGradients e_k ∧
    accBiasGradients e_k' = accBiasGradients e_k ∧
    train_all e_k' samples2 = Some es2 ∧ last es2 = Some e_B ∧
    (∀ i j k w, get3 (weights e) i j k = Some w →
       get3 (weights e_B) i j k =
       Some (w - lr'
                 * (sum_from_zero
                      ((λ e_t, at3 (weightGradients e_t) i j k)
                       <$> es1 ++ es2)
                    * (lit 1 / lit (inject_Z (batchSize e)))))) ∧
    (∀ i k b, get2 (biases e) i k = Some b →
       get2 (biases e_B) i k =
       Some (b - lr'
                 * (sum_from_zero
                      ((λ e_t, at2 (neuronGradients e_t) (Datatypes.S i) k)
                       <$> es1 ++ es2)
                    * (lit 1 / lit (inject_Z (batchSize e)))))) ∧
    accumulators_zero e_B ∧ currentBatchCount e_B = 0%Z.
Proof.
  intros Hwf Hc0 [HzW HzB] Hfits1 Hfits2 Hpos HB.
  destruct (train_all_partial e samples1 Hwf Hfits1)
    as (es1 & Hrun1 & Hlen1 & _ & Hmid & Hcnt & HsumW & HsumB); [lia|].
  exists es1.
  set (e_k := default e (last es1)) in *.
  destruct Hmid as (Hwfk & Hlayk & Hlrk & Hbsk & Hwk & Hbk).
  pose proof (updateConfig_same_batchSize e_k lr') as Hupd.
  rewrite Hbsk in Hupd.
  set (e_k' := updateConfig e_k lr' (batchSize e)) in *.
  assert (wf e_k') as Hwfk'.
  { rewrite Hupd. destruct Hwfk. by split. }
  destruct (train_all_fills_batch e_k' samples2)
    as (es2 & e_B & Hrun2 & Hlen2 & Hlast & HW & HBs & _ & _ & Hzero & HcB).
  { done. }
  { eapply Forall_impl; [exact Hfits2|]. intros s'.
    apply fits_same_layers. rewrite Hupd. simpl. done. }
  { done. }
  { rewrite Hupd. simpl. lia. }
  exists es2, e_B. split; [done|]. cbv zeta. fold e_k. fold e_k'.
  split; [by rewrite Hupd|]. split; [rewrite Hupd; simpl; lia|].
  split; [by rewrite Hupd|]. split; [by rewrite Hupd|].
  split; [done|]. split; [done|]. split; [|split; [|done]].
  - intros i j k w Hw.
    assert (is_Some (get3 (accWeightGradients e) i j k)) as [x Hx].
    { apply get3_is_Some. rewrite (wf_accW e Hwf). apply get3_is_Some. eauto. }
    pose proof (Forall_get3 _ _ _ _ _ _ HzW Hx) as ->.
    erewrite (HW i j k w).
    + rewrite Hupd. simpl. unfold sum_from_zero.
      by rewrite fmap_app, fold_left_app.
    + rewrite Hupd. simpl. by rewrite Hwk.
    + rewrite Hupd. simpl. by apply HsumW.
  - intros i k b Hb.
    assert (is_Some (get2 (accBiasGradients e) i k)) as [x Hx].
    { apply get2_is_Some. rewrite (wf_accB e Hwf). apply get2_is_Some. eauto. }
    pose proof (Forall_get2 _ _ _ _ _ HzB Hx) as ->.
    erewrite (HBs i k b).
    + rewrite Hupd. simpl. unfold sum_from_zero.
      by rewrite fmap_app, fold_left_app.
    + rewrite Hupd. simpl. by rewrite Hbk.
    + rewrite Hupd. simpl. by apply HsumB.
Qed.

(** X9.  A batch size of [1] or less, which nothing rejects, makes every
    call of [train] apply the update at once, with the factor [1 / B]
    whatever [B] is: the weight becomes
    [w - learningRate * ((acc + g) * (1 / B))] for the accumulator [acc]
    and the gradient [g] of the sample, and the accumulators and the
    counter are zero afterwards. *)
Theorem small_batch_updates_every_call e s :
  wf e → fits e s → (batchSize e ≤ 1)%Z → (0 ≤ currentBatchCount e)%Z →
  ∃ out e',
    train e (inputs s) (target s) = Some (out, e') ∧
    batchSize e' = batchSize e ∧ currentBatchCount e' = 0%Z ∧
    accumulators_zero e' ∧
    (∀ i j k w, get3 (weights e) i j k = Some w →
       get3 (weights e') i j k =
       Some (w - learningRate e
                 * ((at3 (accWeightGradients e) i j k
                     + at3 (weightGradients e') i j k)
                    * (lit 1 / lit (inject_Z (batchSize e)))))) ∧
    (∀ i k b, get2 (biases e) i k = Some b →
       get2 (biases e') i k =
       Some (b - learningRate e
                 * ((at2 (accBiasGradients e) i k
                     + at2 (neuronGradients e') (Datatypes.S i) k)
                    * (lit 1 / lit (inject_Z (batchSize e)))))).
Proof.
  intros Hwf [Hin Htg] HB Hc.
  destruct (train_spec e (inputs s) (target s) _ Hwf (wf_layer0 e Hwf) Hin Htg)
    as (out & e' & accW & accB & Htrain & Hwf' & Hlay & Hlr & Hbs & _ & _
        & _ & _ & (_ & _ & HaccW & HaccB) & Hbranch).
  destruct (Z.leb_spec (batchSize e) (currentBatchCount e + 1)) as [_|?]; [|lia].
  destruct Hbranch as ((_ & _ & HupdW & HupdB) & Hc' & Hzero).
  exists out, e'. do 4 (split; [done|]). split.
  - intros i j k w Hw. rewrite (HupdW i j k w Hw). unfold averaged_step.
    assert (is_Some (get3 (accWeightGradients e) i j k)) as [x Hx].
    { apply get3_is_Some. rewrite (wf_accW e Hwf). apply get3_is_Some. eauto. }
    by rewrite (at3_get3 _ _ _ _ _ (HaccW i j k x Hx)), (at3_get3 _ _ _ _ _ Hx).
  - intros i k b Hb. rewrite (HupdB i k b Hb). unfold averaged_step.
    assert (is_Some (get2 (accBiasGradients e) i k)) as [x Hx].
    { apply get2_is_Some. rewrite (wf_accB e Hwf). apply get2_is_Some. eauto. }
    by rewrite (at2_get2 _ _ _ _ (HaccB i k x Hx)), (at2_get2 _ _ _ _ Hx).
Qed.

End Batches.

(** ** The snapshot of any engine *)

Section SnapshotState.
Context {A : Arith}.
Local Open Scope js_scope.
Implicit Types (e : MiniNeuralNet).

Lemma row_or_zero_stored ls (arr : list (list num)) i j l :
  rows_fit ls arr → ls !! i = Some l → (j < neurons l)%nat →
  row_or_zero arr i j = Some (stored_or_zero arr i j).
Proof.
  intros Hfit Hl Hj. unfold row_or_zero, stored_or_zero.
  destruct (arr !! i) as [row|] eqn:Hrow; [|done].
  destruct (lookup_lt_is_Some_2 row j) as [x Hx].
  { rewrite (Hfit i row l Hrow Hl). done. }
  by rewrite Hx, (at1_lookup _ _ _ Hx).
Qed.

(** Selecting a layer from records listed layer by layer. *)
Lemma filter_layer_records (L : nat → list Neuron.t) (n i : nat) :
  (∀ i', Forall (λ x, Neuron.layerIndex x = i') (L i')) → (i < n)%nat →
  filter (λ x, Neuron.layerIndex x = i) (mjoin (L <$> seq 0 n)) = L i.
Proof.
  intros HL Hi. rewrite filter_join, <- list_fmap_compose.
  rewrite (list_fmap_ext _ (λ i', if decide (i' = i) then L i' else [])).
  - rewrite join_select. by rewrite decide_True by lia.
  - intros _ i' _. simpl. specialize (HL i').
    induction (L i') as [|x xs IH]; [by case_decide|].
    apply Forall_cons in HL as [Hx Hxs]. rewrite filter_cons.
    specialize (IH Hxs). rewrite IH.
    repeat case_decide; first [done | congruence].
Qed.

Lemma snapshot_layer_index e i :
  Forall (λ x, Neuron.layerIndex x = i) (snapshot_layer e i).
Proof. unfold snapshot_layer. apply Forall_fmap, Forall_forall. done. Qed.

Lemma length_snapshot_layer e i :
  length (snapshot_layer e i) = neurons (layer_at e i).
Proof. unfold snapshot_layer. by rewrite length_fmap, length_seq. Qed.

(** [getVisualizationData] on an engine in a [ready] state. *)
Lemma snapshot_ready e :
  ready e →
  getVisualizationData e
  = Some {| snap_neurons := snapshot_neurons e;
            snap_connections := snapshot_connections e |}.
Proof.
  intros [Hwf Ha Hp Hng Hwg]. unfold getVisualizationData.
  assert (∀ i, (i < length (layers e))%nat →
            layers e !! i = Some (layer_at e i)) as Hlayer.
  { intros i Hi. destruct (lookup_lt_is_Some_2 (layers e) i) as [l Hl]; [lia|].
    by rewrite (layer_at_lookup _ _ _ Hl). }
  rewrite (foldM_appends (snapshot_layer e)); last first.
  { intros acc i Hi. rewrite (Hlayer i Hi). simpl.
    rewrite (foldM_appends (λ j, [snapshot_neuron e i j])).
    { by rewrite join_singletons. }
    intros acc' j Hj.
    rewrite (row_or_zero_stored _ _ _ _ _ Ha (Hlayer i Hi) Hj).
    rewrite (row_or_zero_stored _ _ _ _ _ Hp (Hlayer i Hi) Hj).
    rewrite (row_or_zero_stored _ _ _ _ _ Hng (Hlayer i Hi) Hj). simpl.
    destruct (Nat.ltb_spec 0 i) as [Hpos|Hzero].
    - destruct (wf_lookup_biases e (i - 1) (layer_at e i) Hwf) as (b & Hb & Hlenb).
      { replace (Datatypes.S (i - 1)) with i by lia. by apply Hlayer. }
      destruct (lookup_lt_is_Some_2 b j) as [x Hx]; [lia|].
      assert (get2 (biases e) (i - 1) j = Some x) as Hg
        by (unfold get2; by rewrite Hb).
      rewrite Hg. simpl. unfold snapshot_neuron.
      rewrite (proj2 (Nat.ltb_lt 0 i)) by done.
      by rewrite (at2_get2 _ _ _ _ Hg).
    - simpl. unfold snapshot_neuron.
      by rewrite (proj2 (Nat.ltb_ge 0 i)) by done. }
  simpl.
  rewrite (foldM_appends (λ i,
    mjoin ((λ j, (λ k, snapshot_connection e i j k)
                 <$> seq 0 (neurons (layer_at e (i + 1))))
           <$> seq 0 (neurons (layer_at e i))))); [done|].
  intros acc i Hi.
  pose proof (wf_length_weights e Hwf) as Hlen.
  rewrite !(filter_layer_records (snapshot_layer e))
    by (first [apply snapshot_layer_index | lia]).
  rewrite !length_snapshot_layer.
  apply foldM_appends. intros acc' j Hj.
  rewrite (foldM_appends (λ k, [snapshot_connection e i j k])).
  { by rewrite join_singletons. }
  intros acc'' k Hk.
  destruct (wf_lookup_weights e i _ _ Hwf (Hlayer i ltac:(lia))
              (Hlayer (Datatypes.S i) ltac:(lia))) as (W & HW & HshW).
  rewrite Nat.add_1_r in *.
  destruct (shape2_replicate_get2 W _ _ j k HshW Hj Hk) as [w Hw].
  assert (get3 (weights e) i j k = Some w) as Hg3
    by (rewrite get3_unfold, HW; done).
  rewrite Hg3. simpl.
  assert (match weightGradients e !! i with
          | Some g => get2 g j k
          | None => Some (lit 0)
          end
          = Some match weightGradients e !! i with
                 | Some g => at2 g j k
                 | None => lit 0
                 end) as ->.
  { destruct (weightGradients e !! i) as [g|] eqn:Hg; [|done].
    assert (is_Some (get2 g j k)) as [x Hx].
    { apply get2_is_Some. rewrite (Hwg i g W Hg HW).
      apply get2_is_Some. eauto. }
    by rewrite Hx, (at2_get2 _ _ _ _ Hx). }
  simpl.
  unfold snapshot_layer. rewrite !list_lookup_fmap, !lookup_seq_lt by done.
  simpl. unfold snapshot_connection, connection_id. rewrite Nat.add_1_r.
  by rewrite (at3_get3 _ _ _ _ _ Hg3).
Qed.

End SnapshotState.

(** ** The state every call leaves *)

Section Ready.
Context {A : Arith} {ML : MathLib A}.
Variable Math_random : nat → num.
Implicit Types (e : MiniNeuralNet).

Lemma rows_fit_nil ls : rows_fit ls ([] : list (list num)).
Proof. intros i row l H. by rewrite lookup_nil in H. Qed.

Lemma rows_fit_shape ls (arr : list (list num)) :
  shape2 arr = neurons <$> ls → rows_fit ls arr.
Proof.
  intros Hsh i row l Hrow Hl.
  assert (shape2 arr !! i = Some (length row)) as H1
    by (by rewrite shape2_lookup, Hrow).
  rewrite Hsh, list_lookup_fmap, Hl in H1. by simplify_eq/=.
Qed.

Lemma shape3_rows {X Y : Type} (t : list (list (list X)))
    (u : list (list (list Y))) i g W :
  shape3 t = shape3 u → t !! i = Some g → u !! i = Some W →
  shape2 g = shape2 W.
Proof.
  intros Hsh Hg HW.
  assert (shape3 t !! i = Some (shape2 g)) as H1
    by (by rewrite shape3_lookup, Hg).
  rewrite Hsh, shape3_lookup, HW in H1. by simplify_eq/=.
Qed.

Lemma ready_constructed ls lr b r e r' :
  new_MiniNeuralNet Math_random ls lr b r = Some (e, r') → ready e.
Proof.
  intros Hnew.
  assert (ls ≠ []) as Hls.
  { intros ->. done. }
  destruct (constructor_spec Math_random ls lr b r Hls)
    as (e1 & r1 & Hnew1 & Hwf & _ & Ha & Hp & Hng & Hwg & _).
  assert (e1 = e) as -> by congruence.
  split; [done|..].
  - rewrite Ha. apply rows_fit_nil.
  - rewrite Hp. apply rows_fit_nil.
  - rewrite Hng. apply rows_fit_shape, shape2_zero_neuronGradients.
  - intros i g W. rewrite Hwg. apply shape3_rows, shape3_zero_weightGradients.
Qed.

Lemma ready_forward e inputs :
  ready e → length inputs = neurons (layer_at e 0) →
  ∃ out e', forward e inputs = Some (out, e') ∧ ready e' ∧
            layers e' = layers e.
Proof.
  intros [Hwf Ha Hp Hng Hwg] Hin.
  destruct (forward_spec e inputs _ Hwf (wf_layer0 e Hwf) Hin)
    as (out & acts & pres & Hfwd & Hfc & _).
  destruct (forward_computed_shapes e inputs acts pres _ (wf_layer0 e Hwf)
              Hin Hfc) as [Hsa Hsp].
  exists out, (with_forward_state e acts pres). split; [done|].
  split; [|done]. split; simpl; try done.
  - by apply wf_with_forward_state.
  - by apply rows_fit_shape.
  - by apply rows_fit_shape.
Qed.

Lemma ready_train e inputs targets :
  ready e → fits e {| inputs := inputs; target := targets |} →
  ∃ out e', train e inputs targets = Some (out, e') ∧ ready e' ∧
            layers e' = layers e.
Proof.
  intros [Hwf Ha Hp Hng Hwg] [Hin Htg]. simpl in Hin, Htg.
  destruct (train_spec e inputs targets _ Hwf (wf_layer0 e Hwf) Hin Htg)
    as (out & e' & accW & accB & Htrain & Hwf' & Hlay & _ & _ & Hfc & _
        & Hdeltas & Hgrad & _ & _).
  destruct (forward_computed_shapes e inputs _ _ _ (wf_layer0 e Hwf)
              Hin Hfc) as [Hsa Hsp].
  exists out, e'. split; [done|]. split; [|done]. split; [done|..].
  - rewrite Hlay. by apply rows_fit_shape.
  - rewrite Hlay. by apply rows_fit_shape.
  - apply rows_fit_shape. by destruct Hdeltas as [? _].
  - intros i g W. apply shape3_rows. destruct Hgrad as [Hsh _].
    rewrite Hsh, (wf_weights e Hwf), (wf_weights e' Hwf'). by rewrite Hlay.
Qed.

Lemma ready_updateConfig e lr b : ready e → ready (updateConfig e lr b).
Proof.
  intros [Hwf Ha Hp Hng Hwg]. unfold updateConfig. case_decide.
  - split; simpl; try done.
    apply wf_resetAccumulators; simpl; apply Hwf.
  - split; simpl; try done. destruct Hwf. by split.
Qed.

Lemma layers_updateConfig e lr b : layers (updateConfig e lr b) = layers e.
Proof. unfold updateConfig. by case_decide. Qed.

Lemma call_fits_same_layers e e' c :
  layers e' = layers e → call_fits e c → call_fits e' c.
Proof.
  intros Hl. destruct c; simpl; unfold fits, layer_at; simpl;
    rewrite ?Hl; done.
Qed.

Lemma ready_call e c :
  ready e → call_fits e c →
  ∃ e', call e c = Some e' ∧ ready e' ∧ layers e' = layers e.
Proof.
  intros Hr Hc. destruct c as [i|i t|lr b|]; simpl in *.
  - destruct (ready_forward e i Hr Hc) as (out & e' & -> & ? & ?).
    by exists e'.
  - destruct (ready_train e i t Hr Hc) as (out & e' & -> & ? & ?).
    by exists e'.
  - eexists. split; [done|]. split; [by apply ready_updateConfig|].
    apply layers_updateConfig.
  - rewrite (snapshot_ready e Hr). simpl. by exists e.
Qed.

Lemma ready_calls e cs :
  ready e → Forall (call_fits e) cs →
  ∃ e', calls e cs = Some e' ∧ ready e' ∧ layers e' = layers e.
Proof.
  unfold calls. revert e. induction cs as [|c cs IH]; intros e Hr Hcs.
  - by exists e.
  - apply Forall_cons in Hcs as [Hc Hcs].
    destruct (ready_call e c Hr Hc) as (e1 & Hcall & Hr1 & Hl1).
    destruct (IH e1 Hr1) as (e' & Hrun & Hr' & Hl').
    { eapply Forall_impl; [exact Hcs|]. intros c'.
      by apply call_fits_same_layers. }
    exists e'. simpl. rewrite Hcall. simpl. split; [done|].
    split; [done|congruence].
Qed.

(** X10.  On an engine built by the constructor, every sequence of
    [forward], [train], [updateConfig] and [getVisualizationData] calls
    whose inputs and targets have the widths of the input and output
    layers completes, whatever the numbers are; it never changes the
    layers, and it leaves parameters, accumulators, forward state and
    gradients of the shapes the layers prescribe. *)
Theorem fitting_calls_never_fail ls lr b r e0 r' cs :
  new_MiniNeuralNet Math_random ls lr b r = Some (e0, r') →
  Forall (call_fits e0) cs →
  ∃ e, calls e0 cs = Some e ∧ layers e = ls ∧ ready e.
Proof.
  intros Hnew Hcs.
  destruct (ready_calls e0 cs (ready_constructed _ _ _ _ _ _ Hnew) Hcs)
    as (e & Hrun & Hr & Hl).
  exists e. split; [done|]. split; [|done].
  rewrite Hl. by destruct (constructor_fields _ _ _ _ _ _ _ Hnew) as [? _].
Qed.

End Ready.

Section SnapshotStateTheorem.
Context {A : Arith}.
Implicit Types (e : MiniNeuralNet).

Lemma length_join_fmap_seq {X : Type} (G : nat → list X) (g : nat → nat) n :
  (∀ i, (i < n)%nat → length (G i) = g i) →
  length (mjoin (G <$> seq 0 n)) = sum_list (g <$> seq 0 n).
Proof.
  intros HG. rewrite length_join, <- list_fmap_compose. f_equal.
  apply list_fmap_ext. intros k i Hi. simpl. apply HG.
  apply lookup_seq in Hi. lia.
Qed.

(** X11.  In every state the constructor and the operations leave,
    [getVisualizationData] returns one record for every neuron, layer
    after layer, holding the stored activation, pre-activation and error
    term of the neuron ([0] where no forward pass has been made) and its
    bias ([0] in the input layer), and one record for every weight, in
    the order of layer, source neuron and target neuron, holding the
    weight and its per-sample gradient. *)
Theorem snapshot_reports_state e :
  ready e →
  getVisualizationData e
  = Some {| snap_neurons := snapshot_neurons e;
            snap_connections := snapshot_connections e |} ∧
  length (snapshot_neurons e) = sum_list (neurons <$> layers e) ∧
  length (snapshot_connections e)
  = sum_list ((λ i, neurons (layer_at e i) * neurons (layer_at e (i + 1)))%nat
              <$> seq 0 (length (layers e) - 1)) ∧
  (∀ i j x, get2 (activations e) i j = Some x →
     (i < length (layers e))%nat → (j < neurons (layer_at e i))%nat →
     ∃ n, n ∈ snapshot_neurons e ∧ Neuron.id n = neuron_id i j ∧
          Neuron.activation n = x) ∧
  (∀ i j k w, get3 (weights e) i j k = Some w →
     ∃ c, c ∈ snapshot_connections e ∧
          Connection.id c = connection_id i j k ∧
          Connection.weight c = w ∧
          Connection.gradient c = at3 (weightGradients e) i j k).
Proof.
  intros Hr. split; [by apply snapshot_ready|].
  pose proof (ready_wf e Hr) as Hwf.
  split; [|split; [|split]].
  - unfold snapshot_neurons.
    rewrite (length_join_fmap_seq _ (λ i, neurons (layer_at e i))).
    + f_equal. apply list_eq. intros i.
      rewrite !list_lookup_fmap.
      destruct (layers e !! i) as [l|] eqn:Hl.
      * rewrite lookup_seq_lt by (by eapply lookup_lt_Some). simpl.
        by rewrite (layer_at_lookup _ _ _ Hl).
      * rewrite lookup_seq_ge; [done|]. by apply lookup_ge_None.
    + intros i _. apply length_snapshot_layer.
  - unfold snapshot_connections. rewrite (wf_length_weights e Hwf).
    apply length_join_fmap_seq. intros i _.
    rewrite (length_join_fmap_seq _ (λ _, neurons (layer_at e (i + 1)))).
    + by rewrite sum_list_fmap_const, length_seq.
    + intros j _. by rewrite length_fmap, length_seq.
  - intros i j x Hx Hi Hj. exists (snapshot_neuron e i j).
    split; [|split; [done|]].
    + unfold snapshot_neurons. apply list_elem_of_join.
      exists (snapshot_layer e i). split.
      * unfold snapshot_layer. apply list_elem_of_fmap.
        exists j. split; [done|]. apply elem_of_seq. lia.
      * apply list_elem_of_fmap. exists i. split; [done|].
        apply elem_of_seq. lia.
    + simpl. unfold stored_or_zero. unfold get2 in Hx.
      destruct (activations e !! i) as [row|]; simplify_eq/=.
      by apply at1_lookup.
  - intros i j k w Hw. exists (snapshot_connection e i j k).
    destruct (wf_weights_range e i j k Hwf) as (Hi & Hj & Hk); [eauto|].
    split; [|split; [done|split]].
    + unfold snapshot_connections. apply list_elem_of_join.
      eexists. split; [|apply list_elem_of_fmap; exists i; split; [done|]].
      * apply list_elem_of_join.
        eexists. split; [|apply list_elem_of_fmap; exists j; split; [done|]].
        -- apply list_elem_of_fmap. exists k. split; [done|].
           apply elem_of_seq. rewrite Nat.add_1_r. lia.
        -- apply elem_of_seq. lia.
      * apply elem_of_seq. rewrite (wf_length_weights e Hwf). lia.
    + simpl. by apply at3_get3.
    + simpl. unfold at3. rewrite get3_unfold.
      destruct (weightGradients e !! i) as [g|]; done.
Qed.

End SnapshotStateTheorem.

(** ** The identifiers of a snapshot *)

Section Identifiers.

Lemma digits_string_of_uint d : all_digits (NilEmpty.string_of_uint d) = true.
Proof. induction d; simpl; done. Qed.

Lemma digits_show_nat n : all_digits (show_nat n) = true.
Proof. apply digits_string_of_uint. Qed.

Lemma show_nat_inj n m : show_nat n = show_nat m → n = m.
Proof.
  unfold show_nat. intros H.
  apply (f_equal NilEmpty.uint_of_string) in H.
  rewrite !NilEmpty.usu in H. injection H as H.
  apply (f_equal Nat.of_uint) in H. by rewrite !Unsigned.of_to in H.
Qed.

(** A run of all_digits ends where the first other character stands. *)
Lemma digits_then_other s1 s2 c1 c2 t1 t2 :
  all_digits s1 = true → all_digits s2 = true →
  is_digit c1 = false → is_digit c2 = false →
  s1 +:+ String c1 t1 = s2 +:+ String c2 t2 →
  s1 = s2 ∧ c1 = c2 ∧ t1 = t2.
Proof.
  revert s2. induction s1 as [|a s1 IH]; intros [|b s2] H1 H2 Hc1 Hc2 H;
    simpl in *.
  - by simplify_eq.
  - simplify_eq. apply andb_prop in H2 as [? _]. congruence.
  - simplify_eq. apply andb_prop in H1 as [? _]. congruence.
  - injection H as -> H.
    apply andb_prop in H1 as [_ H1]. apply andb_prop in H2 as [_ H2].
    destruct (IH s2 H1 H2 Hc1 Hc2 H) as (-> & -> & ->). done.
Qed.

Lemma neuron_id_inj i j i' j' :
  neuron_id i j = neuron_id i' j' → i = i' ∧ j = j'.
Proof.
  unfold neuron_id. intros H.
  change ("l" +:+ ?x) with (String "l" x) in H. injection H as H.
  change ("-n" +:+ ?x) with (String "-" (String "n" x)) in H.
  apply digits_then_other in H as (Hi & _ & Hj);
    [|apply digits_show_nat..|done|done].
  injection Hj as Hj. split; by apply show_nat_inj.
Qed.

Lemma connection_id_inj i j k i' j' k' :
  connection_id i j k = connection_id i' j' k' → i = i' ∧ j = j' ∧ k = k'.
Proof.
  unfold connection_id. intros H.
  change ("c-l" +:+ ?x) with (String "c" (String "-" (String "l" x))) in H.
  injection H as H.
  change ("n" +:+ ?x) with (String "n" x) in H.
  apply digits_then_other in H as (Hi & _ & H);
    [|apply digits_show_nat..|done|done].
  change ("-l" +:+ ?x) with (String "-" (String "l" x)) in H.
  apply digits_then_other in H as (Hj & _ & H);
    [|apply digits_show_nat..|done|done].
  injection H as H.
  apply digits_then_other in H as (_ & _ & Hk);
    [|apply digits_show_nat..|done|done].
  split; [|split]; by apply show_nat_inj.
Qed.

Lemma fmap_mjoin {X Y : Type} (f : X → Y) (ls : list (list X)) :
  f <$> mjoin ls = mjoin (fmap f <$> ls).
Proof.
  induction ls as [|l ls IH]; csimpl; [done|]. by rewrite fmap_app, IH.
Qed.

(** Lists joined in the order of an index have no duplicates when none
    of them has and no element belongs to two of them. *)
Lemma NoDup_join_seq {X : Type} (G : nat → list X) a n :
  (∀ i, NoDup (G i)) →
  (∀ i i' x, x ∈ G i → x ∈ G i' → i = i') →
  NoDup (mjoin (G <$> seq a n)).
Proof.
  intros Hnd Hdisj. revert a. induction n as [|n IH]; intros a; csimpl.
  - constructor.
  - apply NoDup_app. split; [done|]. split; [|done].
    intros x Hx Hin. apply list_elem_of_join in Hin as (l & Hxl & Hl).
    apply list_elem_of_fmap in Hl as (i' & -> & Hi').
    apply elem_of_seq in Hi'. specialize (Hdisj a i' x Hx Hxl). lia.
Qed.

End Identifiers.

Section SnapshotIdentifiers.
Context {A : Arith}.
Implicit Types (e : MiniNeuralNet).

Lemma snapshot_neuron_ids e :
  Neuron.id <$> snapshot_neurons e
  = mjoin ((λ i, (λ j, neuron_id i j) <$> seq 0 (neurons (layer_at e i)))
           <$> seq 0 (length (layers e))).
Proof.
  unfold snapshot_neurons, snapshot_layer.
  rewrite fmap_mjoin, <- list_fmap_compose. f_equal.
  apply list_fmap_ext. intros _ i _. simpl.
  by rewrite <- list_fmap_compose.
Qed.

Lemma snapshot_connection_ids e :
  Connection.id <$> snapshot_connections e
  = mjoin ((λ i,
      mjoin ((λ j, (λ k, connection_id i j k)
                   <$> seq 0 (neurons (layer_at e (i + 1))))
             <$> seq 0 (neurons (layer_at e i))))
    <$> seq 0 (length (weights e))).
Proof.
  unfold snapshot_connections.
  rewrite fmap_mjoin, <- list_fmap_compose. f_equal.
  apply list_fmap_ext. intros _ i _. simpl.
  rewrite fmap_mjoin, <- list_fmap_compose. f_equal.
  apply list_fmap_ext. intros _ j _. simpl.
  by rewrite <- list_fmap_compose.
Qed.

Lemma NoDup_snapshot_neuron_ids e : NoDup (Neuron.id <$> snapshot_neurons e).
Proof.
  rewrite snapshot_neuron_ids. apply NoDup_join_seq.
  - intros i. apply NoDup_fmap_2; [|apply NoDup_seq].
    intros j j' H. by apply neuron_id_inj in H as [_ ?].
  - intros i i' x Hx Hx'.
    apply list_elem_of_fmap in Hx as (j & -> & _).
    apply list_elem_of_fmap in Hx' as (j' & H & _).
    by apply neuron_id_inj in H as [? _].
Qed.

Lemma NoDup_snapshot_connection_ids e :
  NoDup (Connection.id <$> snapshot_connections e).
Proof.
  rewrite snapshot_connection_ids. apply NoDup_join_seq.
  - intros i. apply NoDup_join_seq.
    + intros j. apply NoDup_fmap_2; [|apply NoDup_seq].
      intros k k' H. by apply connection_id_inj in H as (_ & _ & ?).
    + intros j j' x Hx Hx'.
      apply list_elem_of_fmap in Hx as (k & -> & _).
      apply list_elem_of_fmap in Hx' as (k' & H & _).
      by apply connection_id_inj in H as (_ & ? & _).
  - intros i i' x Hx Hx'.
    apply list_elem_of_join in Hx as (l & Hxl & Hl).
    apply list_elem_of_fmap in Hl as (j & -> & _).
    apply list_elem_of_fmap in Hxl as (k & -> & _).
    apply list_elem_of_join in Hx' as (l' & Hxl' & Hl').
    apply list_elem_of_fmap in Hl' as (j' & -> & _).
    apply list_elem_of_fmap in Hxl' as (k' & H & _).
    by apply connection_id_inj in H as (? & _ & _).
Qed.

Lemma elem_of_snapshot_neurons e i j :
  (i < length (layers e))%nat → (j < neurons (layer_at e i))%nat →
  snapshot_neuron e i j ∈ snapshot_neurons e.
Proof.
  intros Hi Hj. unfold snapshot_neurons. apply list_elem_of_join.
  exists (snapshot_layer e i). split.
  - unfold snapshot_layer. apply list_elem_of_fmap.
    exists j. split; [done|]. apply elem_of_seq. lia.
  - apply list_elem_of_fmap. exists i. split; [done|].
    apply elem_of_seq. lia.
Qed.

(** X12.  In every snapshot the identifiers of the neuron records are
    pairwise different, so are those of the connection records, and
    every connection record names as source and target two neuron
    records of the same snapshot, of consecutive layers, whose
    positions it repeats. *)
Theorem snapshot_identifiers_are_keys e :
  ready e →
  ∃ snap,
    getVisualizationData e = Some snap ∧
    NoDup (Neuron.id <$> snap_neurons snap) ∧
    NoDup (Connection.id <$> snap_connections snap) ∧
    Forall (λ c, ∃ s t,
              s ∈ snap_neurons snap ∧ t ∈ snap_neurons snap ∧
              Neuron.id s = Connection.sourceId c ∧
              Neuron.id t = Connection.targetId c ∧
              Neuron.layerIndex t = (Neuron.layerIndex s + 1)%nat ∧
              Neuron.position s = Connection.sourcePos c ∧
              Neuron.position t = Connection.targetPos c)
           (snap_connections snap).
Proof.
  intros Hr. eexists. split; [by apply snapshot_ready|]. simpl.
  split; [apply NoDup_snapshot_neuron_ids|].
  split; [apply NoDup_snapshot_connection_ids|].
  pose proof (wf_length_weights e (ready_wf e Hr)) as Hlen.
  apply Forall_forall. intros c Hc.
  unfold snapshot_connections in Hc.
  apply list_elem_of_join in Hc as (l & Hc & Hl).
  apply list_elem_of_fmap in Hl as (i & -> & Hi).
  apply list_elem_of_join in Hc as (l & Hc & Hl).
  apply list_elem_of_fmap in Hl as (j & -> & Hj).
  apply list_elem_of_fmap in Hc as (k & -> & Hk).
  apply elem_of_seq in Hi, Hj, Hk.
  exists (snapshot_neuron e i j), (snapshot_neuron e (i + 1) k).
  split; [apply elem_of_snapshot_neurons; lia|].
  split; [apply elem_of_snapshot_neurons; lia|]. done.
Qed.

End SnapshotIdentifiers.

(** ** The dataset generator *)

Section Generator.
Context {A : Arith} {ML : MathLib A}.
Variable Math_random : nat → num.
Local Open Scope js_scope.

(** X13.  Every generated sample has two inputs and one target, so it
    fits every engine whose input layer has two neurons and whose
    output layer has one. *)
Theorem generated_samples_fit (type : DatasetType) (count : option Z)
    (r : nat) (e : MiniNeuralNet) :
  neurons (layer_at e 0) = 2%nat →
  neurons (layer_at e (length (layers e) - 1)) = 1%nat →
  Forall (fits e) (generateData Math_random type count r).1.
Proof.
  intros H0 H1. unfold generateData, fits. rewrite H0, H1.
  repeat case_decide; simpl; repeat constructor.
Qed.

End Generator.

(** Over the reals. *)
Lemma Rltb_true (x y : R) : (x < y)%R → Rltb x y = true.
Proof. intros H. unfold Rltb. by destruct (Rlt_dec x y). Qed.

Lemma Rltb_false (x y : R) : (y <= x)%R → Rltb x y = false.
Proof. intros H. unfold Rltb. destruct (Rlt_dec x y); [lra|done]. Qed.

(** X14.  In exact arithmetic, when every draw of [Math.random] lies in
    [[0, 1)], the Quadrants points alternate between the two half
    planes: at even indices [x] lies in [(-0.9, -0.5]] and the target is
    [0], at odd indices [x] lies in [[0.5, 0.9)] and the target is [1];
    [y] lies in [[-1, 1)]. *)
Theorem quadrants_points_alternate (Math_random : nat → R)
    (count : option Z) (r : nat) :
  (∀ k, (0 <= Math_random k < 1)%R) →
  ∀ i p,
    (@generateData R_arith R_math Math_random QUADRANTS count r).1 !! i
    = Some p →
    ∃ x y : R,
      inputs p = [x; y] ∧ (-1 <= y < 1)%R ∧
      if Nat.even i
      then (-9 / 10 < x <= -1 / 2)%R ∧ target p = [0%R]
      else (1 / 2 <= x < 9 / 10)%R ∧ target p = [1%R].
Proof.
  intros Hdraw i p Hp.
  unfold generateData in Hp. rewrite decide_False in Hp by done.
  rewrite decide_True in Hp by done.
  do 8 (destruct i as [|i];
    [simpl in Hp; simplify_eq; eexists _, _; split; [reflexivity|];
     simpl;
     match goal with
     | |- context [Rltb _ (?s * (_ + Math_random ?a * _))%R] =>
         pose proof (Hdraw a)
     end;
     match goal with
     | |- context [(Math_random ?b * Q2R 2 - _)%R] => pose proof (Hdraw b)
     end;
     rewrite Q2R_2, Q2R_1, Q2R_0, Q2R_half; unfold Q2R; simpl;
     split; [lra|];
     first [ rewrite Rltb_false by lra | rewrite Rltb_true by lra ];
     split; [lra|done]|]).
  done.
Qed.

(** X15.  The Circle generator draws no random number and returns, in
    exact arithmetic, eight points at the angles [i * π / 4] that lie
    alternately on the circle of radius [0.3], with target [1], and on
    the circle of radius [0.9], with target [0]; every selector other
    than [XOR] and [QUADRANTS] gives these points. *)
Theorem circle_points_on_two_rings (Math_random : nat → R)
    (type : DatasetType) (count : option Z) (r : nat) :
  type ≠ XOR → type ≠ QUADRANTS →
  ∃ pts,
    @generateData R_arith R_math Math_random type count r = (pts, r) ∧
    length pts = 8%nat ∧
    ∀ i p, pts !! i = Some p →
      let radius := (if Nat.even i then 3 / 10 else 9 / 10)%R in
      ∃ x y : R,
        inputs p = [x; y] ∧
        x = (cos (INR i * PI / 4) * radius)%R ∧
        y = (sin (INR i * PI / 4) * radius)%R ∧
        (x * x + y * y = radius * radius)%R ∧
        target p = [if Nat.even i then 1%R else 0%R].
Proof.
  intros Hx Hq. eexists. split; [|split].
  - unfold generateData. by rewrite !decide_False by done.
  - done.
  - intros i p Hp.
    do 8 (destruct i as [|i];
      [simpl in Hp; simplify_eq; eexists _, _; split; [reflexivity|];
       simpl;
       match goal with
       | |- (cos ?a * ?q)%R = (cos ?b * ?s)%R ∧ _ =>
           assert (a = b) as -> by
             (unfold of_nat; simpl; unfold Q2R; simpl; field);
           assert (q = s) as -> by (unfold Q2R; simpl; lra)
       end;
       split; [done|]; split; [done|]; split;
       [match goal with
        | |- context [cos ?a] => pose proof (sin2_cos2 a) as Hsc
        end; unfold Rsqr in Hsc; nra|];
       rewrite Q2R_1, Q2R_0;
       first [ rewrite Rltb_true by lra | rewrite Rltb_false by lra ];
       done|]).
    done.
Qed.

(** ** The driver *)

Section Driver.
Context {A : Arith} {ML : MathLib A} {MP : MathPow A}.
Local Open Scope js_scope.
Implicit Types (d : Driver).

(** One step of a ready driver. *)
Lemma performStep_spec d :
  driver_ready d →
  ∃ row out nn' t0 o0,
    dataRef d !! (stepIndexRef d mod length (dataRef d))%nat = Some row ∧
    train (nnRef d) (inputs row) (target row) = Some (out, nn') ∧
    target row !! 0%nat = Some t0 ∧ out !! 0%nat = Some o0 ∧
    last (activations nn') = Some out ∧
    performStep d
    = Some ({| Step.epoch :=
                 (Datatypes.S (stepIndexRef d) / length (dataRef d))%nat;
               Step.loss := Math_pow (t0 - o0) (lit 2);
               Step.index := (stepIndexRef d mod length (dataRef d))%nat;
               Step.batchCount := currentBatchCount nn' |},
            {| nnRef := nn'; dataRef := dataRef d;
               stepIndexRef := Datatypes.S (stepIndexRef d) |}) ∧
    layers nn' = layers (nnRef d) ∧
    driver_ready {| nnRef := nn'; dataRef := dataRef d;
                    stepIndexRef := Datatypes.S (stepIndexRef d) |}.
Proof.
  intros (Hr & Hne & Hfits & Hout).
  assert (0 < length (dataRef d))%nat as Hlen.
  { destruct (dataRef d); [done|simpl; lia]. }
  destruct (lookup_lt_is_Some_2 (dataRef d)
              (stepIndexRef d mod length (dataRef d))) as [row Hrow].
  { apply Nat.mod_upper_bound. lia. }
  pose proof (Forall_lookup_1 _ _ _ _ Hfits Hrow) as [Hin Htg].
  pose proof (ready_wf _ Hr) as Hwf.
  destruct (train_spec (nnRef d) (inputs row) (target row) _ Hwf
              (wf_layer0 _ Hwf) Hin Htg)
    as (out & nn' & accW & accB & Htrain & Hwf' & Hlay & _ & _ & Hfc & Hlast
        & _).
  destruct (ready_train (nnRef d) (inputs row) (target row) Hr)
    as (out1 & nn1 & Htrain1 & Hr' & _); [by split|].
  assert (nn1 = nn') as -> by congruence.
  destruct (forward_computed_shapes _ _ _ _ _ (wf_layer0 _ Hwf) Hin Hfc)
    as [Hsa _].
  assert (length (activations nn') = length (layers (nnRef d))) as Hla
    by (by destruct Hfc as [? _]).
  pose proof (wf_layers_pos _ Hwf) as Hlpos.
  assert (activations nn' !! (length (activations nn') - 1)%nat = Some out)
    as Hrowout.
  { rewrite last_lookup in Hlast.
    by replace (length (activations nn') - 1)%nat
      with (Init.Nat.pred (length (activations nn'))) by lia. }
  assert (length out
          = neurons (layer_at (nnRef d) (length (layers (nnRef d)) - 1)))
    as Hlout.
  { assert (shape2 (activations nn') !! (length (activations nn') - 1)%nat
            = Some (length out)) as H1 by (by rewrite shape2_lookup, Hrowout).
    rewrite Hsa, list_lookup_fmap, Hla in H1.
    unfold layer_at.
    destruct (layers (nnRef d) !! (length (layers (nnRef d)) - 1)%nat);
      by simplify_eq/=. }
  destruct (lookup_lt_is_Some_2 out 0) as [o0 Ho0]; [lia|].
  destruct (lookup_lt_is_Some_2 (target row) 0) as [t0 Ht0]; [lia|].
  exists row, out, nn', t0, o0. do 5 (split; [done|]).
  split; [|split; [done|]].
  - unfold performStep.
    rewrite (proj2 (Nat.eqb_neq _ 0)) by lia.
    rewrite Hrow. simpl. rewrite Htrain. simpl.
    rewrite js_index_pred by lia. simpl. rewrite Hrowout. simpl.
    rewrite Ht0. simpl. rewrite Ho0. done.
  - split; [done|]. simpl. split; [done|]. split.
    + eapply Forall_impl; [exact Hfits|]. intros s.
      by apply fits_same_layers.
    + unfold layer_at in *. by rewrite Hlay.
Qed.

Lemma performStep_no_data d : dataRef d = [] → performStep d = None.
Proof. unfold performStep. by intros ->. Qed.

End Driver.

Section DriverSteps.
Context {A : Arith} {ML : MathLib A} {MP : MathPow A}.
Variable Math_random : nat → num.
Local Open Scope js_scope.
Implicit Types (d : Driver).

Lemma performSteps_S n d :
  performSteps (Datatypes.S n) d =
  p ← performSteps n d;
  '(stats, d') ← performStep p.2; Some (Some stats, d').
Proof.
  unfold performSteps. rewrite seq_S, foldM_app. simpl.
  destruct (foldM _ _ _) as [[latest d1]|]; [|done]. simpl.
  by destruct (performStep d1) as [[stats d2]|].
Qed.

Lemma cycled_S (data : list DataPoint) s n row :
  data !! ((s + n) mod length data)%nat = Some row →
  cycled data s (Datatypes.S n) = cycled data s n ++ [row].
Proof.
  intros Hrow. unfold cycled. rewrite seq_S, omap_app. simpl.
  by rewrite Hrow.
Qed.

(** [n] steps of a ready driver. *)
Lemma performSteps_spec n d :
  driver_ready d →
  ∃ latest d' es,
    performSteps n d = Some (latest, d') ∧
    driver_ready d' ∧ dataRef d' = dataRef d ∧
    stepIndexRef d' = (stepIndexRef d + n)%nat ∧
    layers (nnRef d') = layers (nnRef d) ∧
    length (cycled (dataRef d) (stepIndexRef d) n) = n ∧
    train_all (nnRef d) (cycled (dataRef d) (stepIndexRef d) n) = Some es ∧
    nnRef d' = default (nnRef d) (last es) ∧
    match latest with
    | None => n = 0%nat
    | Some stats =>
        (0 < n)%nat ∧
        Step.index stats
        = ((stepIndexRef d + n - 1) mod length (dataRef d))%nat ∧
        Step.epoch stats
        = ((stepIndexRef d + n) / length (dataRef d))%nat ∧
        Step.batchCount stats = currentBatchCount (nnRef d')
    end.
Proof.
  intros Hd. induction n as [|n IH].
  - exists None, d, []. unfold performSteps. simpl.
    rewrite Nat.add_0_r. by destruct d.
  - destruct IH as (latest & d1 & es & Hrun & Hd1 & Hdata & Hidx & Hlay
                    & Hlen & Htrain & Hnn & _).
    destruct (performStep_spec d1 Hd1)
      as (row & out & nn' & t0 & o0 & Hrow & Htr & _ & _ & _ & Hstep & Hlay'
          & Hd2).
    rewrite Hdata, Hidx in Hrow.
    eexists _, _, (es ++ [nn']).
    rewrite performSteps_S, Hrun. simpl. rewrite Hstep. simpl.
    split; [done|]. split; [done|]. simpl. split; [done|].
    split; [lia|]. split; [congruence|].
    rewrite (cycled_S _ _ _ _ Hrow), length_app, Hlen. simpl.
    split; [lia|]. split.
    + rewrite train_all_app, Htrain. simpl. rewrite <- Hnn.
      rewrite Htr. done.
    + split; [by rewrite last_snoc|]. split; [lia|].
      rewrite Hdata, Hidx.
      replace (stepIndexRef d + Datatypes.S n - 1)%nat
        with (stepIndexRef d + n)%nat by lia.
      replace (stepIndexRef d + Datatypes.S n)%nat
        with (Datatypes.S (stepIndexRef d + n)) by lia.
      done.
Qed.

(** X16.  [performStep] fails on an empty data set.  On a driver whose
    data set is not empty and fits its engine, any number of steps
    succeed; they train on the samples in the order of the data set,
    starting again at its first sample after the last, and the statistics
    of the last step hold the index of its sample, the number of
    completed passes and the batch counter of the engine. *)
Theorem performStep_cycles_through_data n d :
  (dataRef d = [] → performStep d = None) ∧
  (driver_ready d →
   ∃ latest d' es,
     performSteps n d = Some (latest, d') ∧
     dataRef d' = dataRef d ∧
     stepIndexRef d' = (stepIndexRef d + n)%nat ∧
     length (cycled (dataRef d) (stepIndexRef d) n) = n ∧
     (∀ t, (t < n)%nat →
        cycled (dataRef d) (stepIndexRef d) n !! t
        = dataRef d !! ((stepIndexRef d + t) mod length (dataRef d))%nat) ∧
     train_all (nnRef d) (cycled (dataRef d) (stepIndexRef d) n) = Some es ∧
     nnRef d' = default (nnRef d) (last es) ∧
     ((0 < n)%nat →
      ∃ stats, latest = Some stats ∧
        Step.index stats
        = ((stepIndexRef d + n - 1) mod length (dataRef d))%nat ∧
        Step.epoch stats
        = ((stepIndexRef d + n) / length (dataRef d))%nat ∧
        Step.batchCount stats = currentBatchCount (nnRef d'))).
Proof.
  split; [apply performStep_no_data|]. intros Hd.
  destruct (performSteps_spec n d Hd)
    as (latest & d' & es & Hrun & _ & Hdata & Hidx & _ & Hlen & Htrain & Hnn
        & Hlatest).
  exists latest, d', es. do 4 (split; [done|]). split.
  { intros t Ht.
    assert (0 < length (dataRef d))%nat as Hpos.
    { destruct Hd as (_ & Hne & _). destruct (dataRef d); [done|simpl; lia]. }
    clear Hlen Htrain Hrun Hlatest Hidx.
    induction n as [|n IH]; [lia|].
    destruct (lookup_lt_is_Some_2 (dataRef d)
                ((stepIndexRef d + n) mod length (dataRef d))) as [row Hrow].
    { apply Nat.mod_upper_bound. lia. }
    assert (length (cycled (dataRef d) (stepIndexRef d) n) = n) as Hl.
    { clear IH Ht Hrow row. induction n as [|m IHm]; [done|].
      destruct (lookup_lt_is_Some_2 (dataRef d)
                  ((stepIndexRef d + m) mod length (dataRef d))) as [row Hrow].
      { apply Nat.mod_upper_bound. lia. }
      rewrite (cycled_S _ _ _ _ Hrow), length_app, IHm. simpl. lia. }
    rewrite (cycled_S _ _ _ _ Hrow).
    destruct (decide (t = n)) as [->|Hne].
    - rewrite lookup_app_r by lia. by rewrite Hl, Nat.sub_diag.
    - rewrite lookup_app_l by lia. apply IH. lia. }
  do 2 (split; [done|]). intros Hn.
  destruct latest as [stats|]; [|lia]. exists stats. split; [done|].
  by destruct Hlatest as (_ & ? & ? & ?).
Qed.

End DriverSteps.

Section DriverFrames.
Context {A : Arith} {ML : MathLib A} {MP : MathPow A}.
Variable Math_random : nat → num.
Local Open Scope js_scope.
Implicit Types (d : Driver) (e : MiniNeuralNet).

(** The batch counter after consecutive calls of [train]. *)
Lemma train_all_counter e samples :
  wf e → batch_invariant e → Forall (fits e) samples →
  ∃ es,
    train_all e samples = Some es ∧
    batchSize (default e (last es)) = batchSize e ∧
    currentBatchCount (default e (last es))
    = ((currentBatchCount e + Z.of_nat (length samples))
       mod batchSize e)%Z.
Proof.
  intros Hwf Hinv Hfits. revert e Hwf Hinv Hfits.
  induction samples as [|s rest IH]; intros e Hwf Hinv Hfits.
  - exists []. simpl. split; [done|]. split; [done|].
    unfold batch_invariant in Hinv. rewrite Z.add_0_r, Z.mod_small; lia.
  - apply Forall_cons in Hfits as [Hs Hrest].
    destruct (train_step e s Hwf Hs)
      as (out & e' & Htrain & Hwf' & Hlay & Hbs & _ & Hc & _).
    unfold batch_invariant in Hinv.
    assert (currentBatchCount e'
            = ((currentBatchCount e + 1) mod batchSize e)%Z) as Hc'.
    { rewrite Hc.
      destruct (Z.leb_spec (batchSize e) (currentBatchCount e + 1)).
      - assert (currentBatchCount e + 1 = batchSize e)%Z as -> by lia.
        by rewrite Z_mod_same_full.
      - rewrite Z.mod_small; lia. }
    destruct (IH e') as (es & Hrun & Hb1 & Hc1).
    { done. }
    { unfold batch_invariant. rewrite Hbs, Hc'.
      apply Z.mod_pos_bound. lia. }
    { eapply Forall_impl; [exact Hrest|]. intros s'. by apply fits_same_layers. }
    exists (e' :: es). simpl. rewrite Htrain. simpl. rewrite Hrun. simpl.
    split; [done|]. rewrite default_last_cons.
    split; [congruence|].
    rewrite Hc1, Hbs, Hc'. rewrite Zplus_mod_idemp_l. f_equal. lia.
Qed.

Lemma Forall_cycled (P : DataPoint → Prop) (data : list DataPoint) s n :
  Forall P data → Forall P (cycled data s n).
Proof.
  intros HP. apply Forall_forall. intros x Hx.
  unfold cycled in Hx. apply list_elem_of_omap in Hx as (t & _ & Hx).
  by apply (Forall_lookup_1 _ _ _ _ HP Hx).
Qed.

Lemma stepsPerFrame_pos B : (0 < Z.to_nat (stepsPerFrame B))%nat.
Proof. unfold stepsPerFrame. destruct (Z.ltb_spec 1 B); lia. Qed.

(** A frame of the fast mode on a ready driver. *)
Lemma fastFrame_spec B d prev :
  driver_ready d →
  ∃ stats d' es,
    performSteps (Z.to_nat (stepsPerFrame B)) d = Some (Some stats, d') ∧
    fastFrame B d prev = Some (d', fastStats stats B prev) ∧
    driver_ready d' ∧ dataRef d' = dataRef d ∧
    stepIndexRef d' = (stepIndexRef d + Z.to_nat (stepsPerFrame B))%nat ∧
    train_all (nnRef d)
      (cycled (dataRef d) (stepIndexRef d) (Z.to_nat (stepsPerFrame B)))
    = Some es ∧
    nnRef d' = default (nnRef d) (last es) ∧
    Step.index stats
    = ((stepIndexRef d + Z.to_nat (stepsPerFrame B) - 1)
       mod length (dataRef d))%nat ∧
    Step.batchCount stats = currentBatchCount (nnRef d').
Proof.
  intros Hd.
  destruct (performSteps_spec (Z.to_nat (stepsPerFrame B)) d Hd)
    as (latest & d' & es & Hrun & Hd' & Hdata & Hidx & _ & Hlen & Htrain
        & Hnn & Hlatest).
  pose proof (stepsPerFrame_pos B) as Hpos.
  destruct latest as [stats|]; [|lia].
  destruct Hlatest as (_ & Hi & _ & Hb).
  exists stats, d', es. split; [done|]. split; [|done].
  unfold fastFrame, fastSteps. rewrite Hrun. simpl.
  destruct Hd' as (Hr & _). by rewrite (snapshot_ready _ Hr).
Qed.

(** X17.  A frame of the fast mode makes as many steps as the batch
    size, and four for the batch size [1]; when the configured batch
    size is the one of the engine, these steps complete the batch in
    progress and refill the next one to the same point, so the batch
    counter, and with it the batch progress shown after the frame, is
    after every frame what it was before the first. *)
Theorem fast_frame_keeps_batch_progress d (prev : TrainingStats.t) :
  driver_ready d → batch_invariant (nnRef d) →
  ∃ d' stats',
    fastFrame (batchSize (nnRef d)) d prev = Some (d', stats') ∧
    stepIndexRef d'
    = (stepIndexRef d + Z.to_nat (stepsPerFrame (batchSize (nnRef d))))%nat ∧
    batchSize (nnRef d') = batchSize (nnRef d) ∧
    currentBatchCount (nnRef d') = currentBatchCount (nnRef d) ∧
    TrainingStats.batchProgress stats' = currentBatchCount (nnRef d).
Proof.
  intros Hd Hinv.
  destruct (fastFrame_spec (batchSize (nnRef d)) d prev Hd)
    as (stats & d' & es & _ & Hframe & _ & _ & Hidx & Htrain & Hnn & _ & Hb).
  destruct Hd as (Hr & Hne & Hfits & _).
  destruct (train_all_counter (nnRef d)
              (cycled (dataRef d) (stepIndexRef d)
                 (Z.to_nat (stepsPerFrame (batchSize (nnRef d)))))
              (ready_wf _ Hr) Hinv (Forall_cycled _ _ _ _ Hfits))
    as (es' & Htrain' & Hbs & Hc).
  assert (es' = es) as -> by congruence.
  assert (length (cycled (dataRef d) (stepIndexRef d)
                    (Z.to_nat (stepsPerFrame (batchSize (nnRef d)))))
          = Z.to_nat (stepsPerFrame (batchSize (nnRef d)))) as Hlen.
  { assert (0 < length (dataRef d))%nat as Hpos.
    { destruct (dataRef d); [done|simpl; lia]. }
    generalize (Z.to_nat (stepsPerFrame (batchSize (nnRef d)))).
    intros n. induction n as [|n IH]; [done|].
    destruct (lookup_lt_is_Some_2 (dataRef d)
                ((stepIndexRef d + n) mod length (dataRef d))) as [row Hrow].
    { apply Nat.mod_upper_bound. lia. }
    rewrite (cycled_S _ _ _ _ Hrow), length_app, IH. simpl. lia. }
  rewrite Hlen in Hc. rewrite <- Hnn in Hc, Hbs.
  assert (currentBatchCount (nnRef d') = currentBatchCount (nnRef d)) as Hsame.
  { rewrite Hc. unfold batch_invariant in Hinv. unfold stepsPerFrame.
    destruct (Z.ltb_spec 1 (batchSize (nnRef d))).
    - rewrite Z2Nat.id by lia.
      rewrite <- Zplus_mod_idemp_r, Z_mod_same_full, Z.add_0_r.
      apply Z.mod_small. lia.
    - assert (batchSize (nnRef d) = 1%Z) as -> by lia.
      rewrite Z.mod_1_r. lia. }
  exists d', (fastStats stats (batchSize (nnRef d)) prev).
  split; [done|]. split; [done|]. split; [done|]. split; [done|].
  simpl. by rewrite Hb.
Qed.



(** X19.  [resetNetwork] succeeds for every configuration whose first
    layer has two neurons and whose last layer has one, whatever the
    layers between them, the data set, the learning rate and the batch
    size are; it leaves a driver at step [0] with a fresh engine and
    eight samples, on which every number of training steps succeeds. *)
Theorem reset_network_can_train (config : NetworkConfig.t) (r n : nat) :
  neurons_at (NetworkConfig.layers config) 0 = 2%nat →
  neurons_at (NetworkConfig.layers config)
    (length (NetworkConfig.layers config) - 1) = 1%nat →
  ∃ d stats visData r',
    resetNetwork Math_random config r = Some (d, stats, visData, r') ∧
    stepIndexRef d = 0%nat ∧ length (dataRef d) = 8%nat ∧
    layers (nnRef d) = NetworkConfig.layers config ∧
    batchSize (nnRef d) = NetworkConfig.batchSize config ∧
    currentBatchCount (nnRef d) = 0%Z ∧
    stats = initialStats (NetworkConfig.batchSize config) ∧
    visData = {| snap_neurons := snapshot_neurons (nnRef d);
                 snap_connections := snapshot_connections (nnRef d) |} ∧
    ∃ latest d', performSteps n d = Some (latest, d').
Proof.
  intros H0 H1.
  assert (NetworkConfig.layers config ≠ []) as Hls.
  { intros Hnil. rewrite Hnil in H0. done. }
  destruct (constructor_spec Math_random (NetworkConfig.layers config)
              (Some (NetworkConfig.learningRate config))
              (Some (NetworkConfig.batchSize config)) r Hls)
    as (e & r1 & Hnew & Hwf & Hlay & _).
  pose proof (ready_constructed _ _ _ _ _ _ _ Hnew) as Hr.
  destruct (constructor_fields _ _ _ _ _ _ _ Hnew)
    as (_ & _ & Hbs & Hc & _).
  destruct (generateData Math_random (NetworkConfig.dataset config) None r1)
    as [data r2] eqn:Hdata.
  assert (length data = 8%nat) as Hlen.
  { pose proof (generateData_length Math_random
                  (NetworkConfig.dataset config) None r1) as H.
    by rewrite Hdata in H. }
  assert (neurons (layer_at e 0) = 2%nat) as He0.
  { unfold layer_at, neurons_at in *. rewrite Hlay.
    by destruct (NetworkConfig.layers config !! 0%nat). }
  assert (neurons (layer_at e (length (layers e) - 1)) = 1%nat) as He1.
  { unfold layer_at, neurons_at in *. rewrite Hlay.
    by destruct (NetworkConfig.layers config
                   !! (length (NetworkConfig.layers config) - 1)%nat). }
  assert (Forall (fits e) data) as Hfits.
  { unfold fits. rewrite He0, He1.
    pose proof Hdata as Hd. unfold generateData in Hd.
    repeat case_decide; simplify_eq/=; repeat constructor. }
  set (d := {| nnRef := e; dataRef := data; stepIndexRef := 0 |}).
  assert (driver_ready d) as Hd.
  { split; [done|]. split; [|split; [done|]]; simpl.
    - intros ->. done.
    - rewrite He1. lia. }
  destruct (performSteps_spec n d Hd) as (latest & d' & es & Hrun & _).
  eexists d, _, _, r2.
  split.
  { unfold resetNetwork. rewrite Hnew. simpl. rewrite Hdata.
    rewrite (snapshot_ready e Hr). done. }
  simpl. do 7 (split; [done|]). eauto.
Qed.

(** X20.  A manual step on a ready driver makes exactly one training
    step, on the sample at the position of the step counter in the data
    set, and reports its index, the batch counter after it and the
    number of completed passes; it never adds to the loss history, and
    no step ever changes the accuracy. *)
Theorem manual_step_keeps_history B d (prev : TrainingStats.t) :
  driver_ready d →
  ∃ d' stats' row out,
    handleManualStep B d prev = Some (d', stats') ∧
    dataRef d !! (stepIndexRef d mod length (dataRef d))%nat = Some row ∧
    train (nnRef d) (inputs row) (target row) = Some (out, nnRef d') ∧
    dataRef d' = dataRef d ∧
    stepIndexRef d' = Datatypes.S (stepIndexRef d) ∧
    TrainingStats.currentInputIndex stats'
    = (stepIndexRef d mod length (dataRef d))%nat ∧
    TrainingStats.epoch stats'
    = (Datatypes.S (stepIndexRef d) / length (dataRef d))%nat ∧
    TrainingStats.loss stats'
    = Math_pow (at1 (target row) 0 - at1 out 0) (lit 2) ∧
    TrainingStats.batchProgress stats' = currentBatchCount (nnRef d') ∧
    TrainingStats.history stats' = TrainingStats.history prev ∧
    TrainingStats.accuracy stats' = TrainingStats.accuracy prev ∧
    ∀ latestStats,
      TrainingStats.accuracy (fastStats latestStats B prev)
      = TrainingStats.accuracy prev.
Proof.
  intros Hd.
  destruct (performStep_spec d Hd)
    as (row & out & nn' & t0 & o0 & Hrow & Htrain & Ht0 & Ho0 & _ & Hstep
        & _ & Hd').
  eexists _, _, row, out. unfold handleManualStep. rewrite Hstep. simpl.
  destruct Hd' as (Hr & _). simpl in Hr. rewrite (snapshot_ready _ Hr).
  simpl. split; [done|]. do 6 (split; [done|]).
  split; [by rewrite (at1_lookup _ _ _ Ht0), (at1_lookup _ _ _ Ho0)|].
  done.
Qed.

End DriverFrames.

(** ** The derivatives *)

Lemma sigmoid_derivative (z : R) :
  derivable_pt_lim (@sigmoid R_arith R_math) z
    (@sigmoidDerivative R_arith (@sigmoid R_arith R_math z)).
Proof.
  unfold sigmoid, sigmoidDerivative. simpl. rewrite Q2R_1.
  pose proof (exp_pos (- z)) as Hexp.
  apply (derivable_pt_lim_ext
           (fct_cte 1 / (fct_cte 1 + comp exp (- id)))%F).
  { intros y. reflexivity. }
  replace (1 / (1 + exp (- z)) * (1 - 1 / (1 + exp (- z))))%R
    with ((0 * (fct_cte 1 + comp exp (- id))%F z
           - (0 + exp (- z) * -1) * fct_cte 1 z)
          / ((fct_cte 1 + comp exp (- id))%F z)²)%R.
  - apply derivable_pt_lim_div.
    + apply derivable_pt_lim_const.
    + apply derivable_pt_lim_plus; [apply derivable_pt_lim_const|].
      apply derivable_pt_lim_comp.
      * apply derivable_pt_lim_opp, derivable_pt_lim_id.
      * apply derivable_pt_lim_exp.
    + unfold plus_fct, fct_cte, comp, opp_fct, id. lra.
  - unfold plus_fct, fct_cte, comp, opp_fct, id, Rsqr. field. lra.
Qed.

Lemma tanh_derivative (z : R) :
  derivable_pt_lim (@tanh R_arith R_math) z
    (@tanhDerivative R_arith (@tanh R_arith R_math z)).
Proof.
  unfold tanh, tanhDerivative. simpl. rewrite Q2R_1.
  assert (0 < cosh z)%R as Hcosh.
  { unfold cosh. pose proof (exp_pos z). pose proof (exp_pos (- z)). lra. }
  apply (derivable_pt_lim_ext (sinh / cosh)%F).
  { intros y. reflexivity. }
  replace (1 - Rtrigo_def.tanh z * Rtrigo_def.tanh z)%R
    with ((cosh z * cosh z - sinh z * sinh z) / (cosh z)²)%R.
  - apply derivable_pt_lim_div.
    + apply derivable_pt_lim_sinh.
    + apply derivable_pt_lim_cosh.
    + lra.
  - unfold Rtrigo_def.tanh, Rsqr. field. lra.
Qed.

Lemma relu_derivative (z : R) :
  z ≠ 0%R →
  derivable_pt_lim (@relu R_arith) z (@reluDerivative R_arith z).
Proof.
  intros Hz. unfold relu, reluDerivative. simpl.
  rewrite Q2R_0, Q2R_1.
  destruct (Rlt_or_le 0 z) as [Hpos|Hneg].
  - rewrite Rltb_true by done.
    apply (derivable_pt_lim_locally_ext id _ z 0 (z + 1)); [lra| |].
    + intros y Hy. unfold id. rewrite Rmax_right; lra.
    + apply derivable_pt_lim_id.
  - rewrite Rltb_false by done.
    apply (derivable_pt_lim_locally_ext (fct_cte 0) _ z (z - 1) 0);
      [lra| |].
    + intros y Hy. unfold fct_cte. rewrite Rmax_left; lra.
    + apply derivable_pt_lim_const.
Qed.

(** X21.  Over the reals the three derivative functions are the
    derivatives of the three activation functions, each as a function
    of the value [train] hands to it: at the pre-activation [z],
    [sigmoidDerivative] of the activation [sigmoid z] is the derivative
    of [sigmoid], [tanhDerivative] of [tanh z] is the derivative of
    [tanh], and [reluDerivative] of [z] itself is the derivative of
    [relu] wherever [z] is not [0]. *)
Theorem derivatives_of_the_activations :
  (∀ z : R,
     derivable_pt_lim (@sigmoid R_arith R_math) z
       (@sigmoidDerivative R_arith (@sigmoid R_arith R_math z))) ∧
  (∀ z : R,
     derivable_pt_lim (@tanh R_arith R_math) z
       (@tanhDerivative R_arith (@tanh R_arith R_math z))) ∧
  (∀ z : R, z ≠ 0%R →
     derivable_pt_lim (@relu R_arith) z (@reluDerivative R_arith z)).
Proof.
  split; [exact sigmoid_derivative|].
  split; [exact tanh_derivative|exact relu_derivative].
Qed.

(** ** A sample the engine predicts exactly *)


Section PerfectPrediction.
Local Open Scope R_scope.
Implicit Types (e : @MiniNeuralNet R_arith).






End PerfectPrediction.

(** ** The architecture controls *)

Section Controls.
Implicit Types (ls : list LayerConfig).

(** X24.  [addLayer] puts a layer of four [TANH] neurons before the
    last layer, and [removeLayer] takes the layer before the last one
    away unless only two layers are left; so on a list of at least two
    layers [removeLayer] undoes [addLayer], while on a list of one
    layer it does not, and [addLayer] has no proper result on the empty
    list. *)
Theorem removeLayer_undoes_addLayer ls :
  (addLayer [] = None) ∧
  (∀ l, addLayer [l] = Some [ {| neurons := 4; activation := TANH |}; l ] ∧
        removeLayer [ {| neurons := 4; activation := TANH |}; l ]
        = [ {| neurons := 4; activation := TANH |}; l ]) ∧
  ((2 ≤ length ls)%nat →
   ∃ init out,
     ls = init ++ [out] ∧
     addLayer ls
     = Some (init ++ [ {| neurons := 4; activation := TANH |}; out ]) ∧
     removeLayer (init ++ [ {| neurons := 4; activation := TANH |}; out ])
     = ls).
Proof.
  split; [done|]. split; [done|]. intros Hlen.
  destruct ls as [|out init _] using rev_ind; [simpl in Hlen; lia|].
  rewrite length_app in Hlen. simpl in Hlen.
  exists init, out. split; [done|]. split.
  - unfold addLayer. rewrite last_snoc. simpl.
    rewrite length_app. simpl.
    replace (length init + 1 - 1)%nat with (length init) by lia.
    by rewrite take_app_length.
  - unfold removeLayer. rewrite length_app. simpl.
    rewrite (proj2 (Nat.leb_gt _ _)) by lia.
    replace (length init + 2 - 2)%nat with (length init) by lia.
    rewrite delete_take_drop, take_app_length.
    replace (Datatypes.S (length init)) with (length init + 1)%nat by lia.
    rewrite drop_app_add'; done.
Qed.

(** X25.  Every edit the controls offer turns a list of at least two
    layers into a list of at least two layers with the same first and
    the same last layer, and keeps every width between [1] and [8] if
    all were; so the widths of the input and the output layer of the
    initial configuration, [2] and [1], stay. *)
Theorem layer_edits_keep_the_ends ls (edit : LayerEdit) :
  (2 ≤ length ls)%nat → hidden_edit ls edit →
  ∃ ls',
    applyEdit ls edit = Some ls' ∧ (2 ≤ length ls')%nat ∧
    ls' !! 0%nat = ls !! 0%nat ∧ last ls' = last ls ∧
    (Forall (λ l, (1 ≤ neurons l ≤ 8)%nat) ls →
     Forall (λ l, (1 ≤ neurons l ≤ 8)%nat) ls').
Proof.
  intros Hlen Hedit. destruct edit as [idx n| | |value]; simpl in *.
  - destruct (lookup_lt_is_Some_2 ls idx) as [l Hl]; [lia|].
    unfold handleLayerChange. rewrite Hl. simpl.
    eexists. split; [done|]. rewrite length_insert. split; [done|].
    split; [by rewrite list_lookup_insert_ne by lia|]. split.
    + rewrite !last_lookup, length_insert.
      rewrite list_lookup_insert_ne by lia. done.
    + intros Hall. apply Forall_insert; [done|]. simpl.
      unfold clampNeurons. lia.
  - destruct ls as [|out init _] using rev_ind; [simpl in Hlen; lia|].
    rewrite length_app in Hlen. simpl in Hlen.
    unfold addLayer. rewrite last_snoc. simpl.
    rewrite length_app. simpl.
    replace (length init + 1 - 1)%nat with (length init) by lia.
    rewrite take_app_length.
    eexists. split; [done|]. rewrite !length_app. simpl.
    split; [lia|]. split.
    + rewrite !lookup_app_l by lia. done.
    + split.
      * change (init ++ [ {| neurons := 4; activation := TANH |}; out ])
          with (init ++ [ {| neurons := 4; activation := TANH |} ] ++ [out]).
        by rewrite app_assoc, !last_snoc.
      * intros Hall. apply Forall_app in Hall as [Hi Ho].
        apply Forall_app. split; [done|].
        apply Forall_cons. split; [simpl; lia|done].
  - unfold removeLayer.
    destruct (Nat.leb_spec (length ls) 2) as [Hle|Hgt].
    + exists ls. done.
    + eexists. split; [done|].
      rewrite delete_take_drop.
      assert (length (take (length ls - 2) ls) = (length ls - 2)%nat) as Ht
        by (rewrite length_take; lia).
      assert (drop (Datatypes.S (length ls - 2)) ls
              = default [] ((λ x, [x]) <$> last ls)) as Hd.
      { destruct ls as [|out init _] using rev_ind; [simpl in Hgt; lia|].
        rewrite last_snoc, length_app. simpl.
        replace (Datatypes.S (length init + 1 - 2)) with (length init + 0)%nat
          by (rewrite length_app in Hgt; simpl in Hgt; lia).
        by rewrite drop_app_add'. }
      destruct (last ls) as [out|] eqn:Hlast; last first.
      { apply last_None in Hlast. subst. simpl in Hgt. lia. }
      rewrite Hd. simpl. rewrite length_app, Ht. simpl.
      split; [lia|]. split.
      * rewrite lookup_app_l by lia. rewrite lookup_take_lt by lia. done.
      * split; [by rewrite last_snoc|].
        intros Hall. apply Forall_app. split; [by apply Forall_take|].
        apply Forall_singleton.
        rewrite last_lookup in Hlast.
        by apply (Forall_lookup_1 _ _ _ _ Hall Hlast).
  - unfold changeHiddenActivation. eexists. split; [done|].
    rewrite length_imap. split; [done|]. split.
    + rewrite list_lookup_imap. destruct (ls !! 0%nat); done.
    + split.
      * rewrite !last_lookup, length_imap, list_lookup_imap.
        destruct (ls !! Init.Nat.pred (length ls)) as [l|]; [|done]. simpl.
        assert ((Init.Nat.pred (length ls) <? length ls - 1)%nat = false)
          as -> by (apply Nat.ltb_ge; lia).
        by rewrite andb_false_r.
      * intros Hall. apply Forall_forall. intros l Hl.
        apply list_elem_of_lookup in Hl as [i Hi].
        rewrite list_lookup_imap in Hi.
        destruct (ls !! i) as [l0|] eqn:Hl0; simplify_eq/=.
        pose proof (Forall_lookup_1 _ _ _ _ Hall Hl0) as H0.
        by destruct (_ && _).
Qed.

End Controls.

(** ** The gradients of the output layer *)

Section OutputGradients.
Local Open Scope R_scope.
Implicit Types (e : @MiniNeuralNet R_arith).

(** The derivative of the activation function of a layer, as [train]
    computes it from the activation and the pre-activation. *)
Lemma activate_derivative (kind : ActivationType) (z : R) :
  (kind = RELU → z ≠ 0) →
  derivable_pt_lim (@activate R_arith R_math kind) z
    (@activationPrime R_arith kind (@activate R_arith R_math kind z) z).
Proof.
  intros Hz. unfold activate, activationPrime.
  repeat case_decide.
  - apply sigmoid_derivative.
  - by apply relu_derivative, Hz.
  - apply tanh_derivative.
  - simpl. rewrite Q2R_0. apply (derivable_pt_lim_const 0).
Qed.

Lemma half_squared_error_derivative (f : R → R) (x t l : R) :
  derivable_pt_lim f x l →
  derivable_pt_lim (λ y, half_squared_error (f y) t) x ((f x - t) * l).
Proof.
  intros Hf. unfold half_squared_error.
  apply (derivable_pt_lim_ext
           (mult_real_fct (1 / 2) ((f - fct_cte t) * (f - fct_cte t)))%F).
  { intros y. reflexivity. }
  replace ((f x - t) * l)
    with (1 / 2 * ((l - 0) * (f - fct_cte t)%F x
                   + (f - fct_cte t)%F x * (l - 0))).
  - apply derivable_pt_lim_scal, derivable_pt_lim_mult;
      apply derivable_pt_lim_minus;
      first [exact Hf | apply derivable_pt_lim_const].
  - unfold minus_fct, fct_cte. lra.
Qed.

(** The weighted sum as a function of one weight, and of the bias. *)
Lemma get2_weight_changed (W : list (list R)) j k (w w0 : R) j' k' :
  get2 W j k = Some w0 →
  @at2 R_arith (@weight_changed R_arith W j k w) j' k'
  = if decide (j' = j ∧ k' = k) then w else @at2 R_arith W j' k'.
Proof.
  intros Hw0.
  destruct (upd2_spec (λ _, w) W j k w0 Hw0) as (W' & HW' & _ & Hget).
  assert (@set2 R j k w W = Some W') as Hset by exact HW'.
  unfold weight_changed. change (@num R_arith) with R. rewrite Hset. simpl.
  unfold at2. change (@num R_arith) with R. rewrite Hget. by case_decide.
Qed.

Lemma weighted_sum_weight_changed (b : R) (prev : list R)
    (W : list (list R)) j k (w w0 : R) :
  (j < length prev)%nat → get2 W j k = Some w0 →
  @weighted_sum R_arith b prev (@weight_changed R_arith W j k w) k
  = @weighted_sum R_arith b prev W k + @at1 R_arith prev j * (w - w0).
Proof.
  intros Hj Hw0. unfold weighted_sum.
  assert (∀ n,
    fold_left (λ (sum : R) k', sum + @at1 R_arith prev k'
                 * @at2 R_arith (@weight_changed R_arith W j k w) k' k)
      (seq 0 n) b
    = fold_left (λ (sum : R) k', sum + @at1 R_arith prev k'
                   * @at2 R_arith W k' k) (seq 0 n) b
      + (if decide (j < n)%nat then @at1 R_arith prev j * (w - w0) else 0))
    as Hn.
  { intros n. induction n as [|n IH].
    - rewrite decide_False by lia. simpl. lra.
    - rewrite seq_S, !fold_left_app, IH. cbn [fold_left]. rewrite Nat.add_0_l.
      rewrite (get2_weight_changed _ _ _ _ _ _ _ Hw0).
      destruct (decide (n = j ∧ k = k)) as [[-> _]|Hne].
      + rewrite (at2_get2 _ _ _ _ Hw0).
        rewrite decide_False, decide_True by lia. lra.
      + destruct (decide (j < n)%nat).
        * rewrite decide_True by lia. lra.
        * rewrite decide_False by (intros ?; apply Hne; split; [lia|done]).
          lra. }
  simpl. rewrite Hn. by rewrite decide_True by lia.
Qed.

Lemma weighted_sum_bias (b : R) (prev : list R) (W : list (list R)) k :
  @weighted_sum R_arith b prev W k
  = b + @weighted_sum R_arith 0 prev W k.
Proof.
  unfold weighted_sum. change (@num R_arith) with R.
  generalize (length prev). intros n.
  induction n as [|n IH].
  - simpl. lra.
  - rewrite seq_S, !fold_left_app, IH. simpl. lra.
Qed.

Lemma affine_derivative (c a w0 x : R) :
  derivable_pt_lim (λ w, c + a * (w - w0)) x a.
Proof.
  apply (derivable_pt_lim_ext
           (fct_cte c + mult_real_fct a (id - fct_cte w0))%F).
  { intros y. reflexivity. }
  replace a with (0 + a * (1 - 0)) at 2 by lra.
  apply derivable_pt_lim_plus; [apply derivable_pt_lim_const|].
  apply derivable_pt_lim_scal, derivable_pt_lim_minus;
    [apply derivable_pt_lim_id|apply derivable_pt_lim_const].
Qed.

(** The squared error of an output neuron as a function of [x], where
    its pre-activation is [z0 + a * (x - x0)]. *)
Lemma neuron_error_derivative (kind : ActivationType) (f : R → R)
    (z0 a x0 t : R) :
  (kind = RELU → z0 ≠ 0) →
  (∀ x, f x = z0 + a * (x - x0)) →
  derivable_pt_lim
    (λ x, half_squared_error (@activate R_arith R_math kind (f x)) t) x0
    ((@activate R_arith R_math kind z0 - t)
     * @activationPrime R_arith kind (@activate R_arith R_math kind z0) z0
     * a).
Proof.
  intros Hz Hf.
  assert (f x0 = z0) as Hf0 by (rewrite Hf; lra).
  replace ((@activate R_arith R_math kind z0 - t)
           * @activationPrime R_arith kind
               (@activate R_arith R_math kind z0) z0 * a)
    with ((@activate R_arith R_math kind (f x0) - t)
          * (@activationPrime R_arith kind
               (@activate R_arith R_math kind z0) z0 * a))
    by (rewrite Hf0; lra).
  apply (half_squared_error_derivative
           (λ x, @activate R_arith R_math kind (f x))).
  apply (derivable_pt_lim_ext
           (comp (@activate R_arith R_math kind)
                 (λ x, z0 + a * (x - x0)))).
  { intros y. unfold comp. by rewrite Hf. }
  apply derivable_pt_lim_comp; [apply affine_derivative|].
  replace (z0 + a * (x0 - x0)) with z0 by lra.
  by apply activate_derivative.
Qed.

(** X23.  In exact arithmetic the error term [train] stores for a
    neuron of the output layer is the derivative of half the squared
    error of that neuron with respect to its bias, and the gradient it
    stores for a weight into that neuron is the derivative with respect
    to that weight, the other parameters and the activations of the
    layer before being kept; for a [RELU] output this holds where the
    pre-activation is not [0]. *)
Theorem output_gradients_are_derivatives e (inputs targets : list R)
    (out : list R) e' (i j k : nat) (l : LayerConfig)
    (W : list (list R)) (b prev : list R) (w0 bk tk : R) :
  wf e → length inputs = neurons (layer_at e 0) →
  length targets = neurons (layer_at e (length (layers e) - 1)) →
  @train R_arith R_math e inputs targets = Some (out, e') →
  layers e !! Datatypes.S i = Some l →
  Datatypes.S i = (length (layers e) - 1)%nat →
  weights e !! i = Some W → biases e !! i = Some b →
  activations e' !! i = Some prev →
  get2 W j k = Some w0 → b !! k = Some bk → targets !! k = Some tk →
  (activation l = RELU → @weighted_sum R_arith bk prev W k ≠ 0) →
  derivable_pt_lim
    (λ w, half_squared_error
            (@activate R_arith R_math (activation l)
               (@weighted_sum R_arith bk prev
                  (@weight_changed R_arith W j k w) k)) tk)
    w0 (@at3 R_arith (weightGradients e') i j k) ∧
  derivable_pt_lim
    (λ β, half_squared_error
            (@activate R_arith R_math (activation l)
               (@weighted_sum R_arith β prev W k)) tk)
    bk (@at2 R_arith (neuronGradients e') (Datatypes.S i) k).
Proof.
  intros Hwf Hin Htg Htrain Hl Hlast HW Hb Hprev Hw0 Hbk Htk Hz.
  destruct (@train_spec R_arith R_math e inputs targets _ Hwf
              (wf_layer0 e Hwf) Hin Htg)
    as (out1 & e1 & accW & accB & Htrain1 & Hwf' & Hlay & _ & _ & Hfc & _
        & Hdeltas & Hgrad & _).
  assert (e1 = e') as -> by congruence. clear Htrain1 out1.
  destruct Hfc as (_ & _ & _ & _ & Hlayer).
  destruct (Hlayer i l Hl)
    as (prev1 & W1 & b1 & z & a & Hprev1 & HW1 & Hb1 & Hz1 & Ha1 & HshW
        & Hlz & Hla & Hcomp).
  change (@num R_arith) with R in *.
  assert (prev1 = prev) as -> by congruence.
  assert (W1 = W) as -> by congruence.
  assert (b1 = b) as -> by congruence.
  destruct (wf_lookup_biases e i l Hwf Hl) as (b2 & Hb2 & Hlenb).
  change (@num R_arith) with R in *.
  assert (b2 = b) as -> by congruence.
  assert (k < neurons l)%nat as Hk.
  { apply lookup_lt_Some in Hbk. lia. }
  assert (j < length prev)%nat as Hj.
  { assert (is_Some (get2 W j k)) as Hs by eauto.
    apply get2_is_Some in Hs as (m & Hm & _).
    apply lookup_lt_Some in Hm. rewrite HshW, length_replicate in Hm. done. }
  destruct (Hcomp k Hk) as (bk1 & Hbk1 & Hzk & Hak).
  change (@num R_arith) with R in *.
  assert (bk1 = bk) as -> by congruence.
  set (z0 := @weighted_sum R_arith bk prev W k) in *.
  set (kind := activation l) in *.
  destruct Hdeltas as (_ & Hdout & _).
  cbv zeta in Hdout. rewrite Hlay, <- Hlast in Hdout.
  assert (layer_at e' (Datatypes.S i) = l) as Hlayer_at.
  { apply layer_at_lookup. by rewrite Hlay. }
  rewrite Hlayer_at in Hdout. specialize (Hdout k Hk).
  assert (@at2 R_arith (activations e') (Datatypes.S i) k
          = @activate R_arith R_math kind z0) as Hat_a.
  { unfold at2, get2. change (@num R_arith) with R. rewrite Ha1; simpl. by rewrite Hak. }
  assert (@at2 R_arith (preActivations e') (Datatypes.S i) k = z0) as Hat_z.
  { unfold at2, get2. change (@num R_arith) with R. rewrite Hz1; simpl. by rewrite Hzk. }
  assert (@at1 R_arith targets k = tk) as Hat_t by (by apply at1_lookup).
  rewrite Hat_a, Hat_z, Hat_t in Hdout.
  assert (@at2 R_arith (neuronGradients e') (Datatypes.S i) k
          = (@activate R_arith R_math kind z0 - tk)
            * @activationPrime R_arith kind
                (@activate R_arith R_math kind z0) z0) as Hdelta.
  { unfold at2. change (@num R_arith) with R in *. by rewrite Hdout. }
  assert (@at3 R_arith (weightGradients e') i j k
          = (@activate R_arith R_math kind z0 - tk)
            * @activationPrime R_arith kind
                (@activate R_arith R_math kind z0) z0
            * @at1 R_arith prev j) as Hgradient.
  { destruct Hgrad as (_ & Hg).
    assert (get3 (weights e) i j k = Some w0) as Hw3.
    { rewrite get3_unfold. change (@num R_arith) with R. by rewrite HW. }
    assert (is_Some (get3 (weights e) i j k)) as Hs by eauto.
    specialize (Hg i j k Hs). rewrite Hdelta in Hg.
    assert (@at2 R_arith (activations e') i j = @at1 R_arith prev j) as Hp.
    { unfold at2, get2, at1. change (@num R_arith) with R.
      by rewrite Hprev. }
    rewrite Hp in Hg. unfold at3. change (@num R_arith) with R in *.
    by rewrite Hg. }
  split.
  - rewrite Hgradient.
    apply neuron_error_derivative; [exact Hz|].
    intros w. rewrite (weighted_sum_weight_changed _ _ _ _ _ _ w0 Hj Hw0).
    fold z0. lra.
  - rewrite Hdelta.
    replace ((@activate R_arith R_math kind z0 - tk)
             * @activationPrime R_arith kind
                 (@activate R_arith R_math kind z0) z0)
      with ((@activate R_arith R_math kind z0 - tk)
            * @activationPrime R_arith kind
                (@activate R_arith R_math kind z0) z0 * 1) by lra.
    apply neuron_error_derivative; [exact Hz|].
    intros β. rewrite (weighted_sum_bias β).
    unfold z0. rewrite (weighted_sum_bias bk). lra.
Qed.

End OutputGradients.

(** * The further properties at sample engines *)

Ltac by_computation := apply (bool_decide_unpack _); vm_compute; exact I.

Lemma constructed_demo_net :
  @new_MiniNeuralNet R_arith demo_random demo_layers (Some (1 / 10)%R)
    (Some 2%Z) 0 = Some (demo_net, 13%nat).
Proof. vm_compute. reflexivity. Qed.

Lemma ready_demo_net : ready demo_net.
Proof. exact (ready_constructed _ _ _ _ _ _ _ constructed_demo_net). Qed.

Lemma forward_demo_net :
  ∃ out e',
    @forward R_arith R_math demo_net (inputs demo_sample) = Some (out, e').
Proof.
  assert (is_Some (@forward R_arith R_math demo_net (inputs demo_sample)))
    as [[out e'] H] by by_computation.
  by exists out, e'.
Qed.

Lemma train_demo_net :
  ∃ out e',
    @train R_arith R_math demo_net (inputs demo_sample) (target demo_sample)
    = Some (out, e').
Proof.
  assert (is_Some (@train R_arith R_math demo_net (inputs demo_sample)
                     (target demo_sample)))
    as [[out e'] H] by by_computation.
  by exists out, e'.
Qed.

Lemma forward_is_idempotent_witness :
  ∃ out e',
    @forward R_arith R_math demo_net (inputs demo_sample) = Some (out, e') ∧
    weights e' = weights demo_net ∧
    @forward R_arith R_math e' (inputs demo_sample) = Some (out, e').
Proof.
  destruct forward_demo_net as (out & e' & H).
  exists out, e'. split; [exact H|].
  destruct (@forward_is_idempotent R_arith R_math demo_net _ out e' H)
    as (_ & Hw & _ & _ & _ & _ & _ & _ & _ & _ & Hagain).
  split; [exact Hw|exact Hagain].
Defined.

Lemma train_predicts_before_update_witness :
  ∃ out e' e1,
    @train R_arith R_math demo_net (inputs demo_sample) (target demo_sample)
    = Some (out, e') ∧
    @forward R_arith R_math demo_net (inputs demo_sample) = Some (out, e1) ∧
    activations e' = activations e1.
Proof.
  destruct train_demo_net as (out & e' & H).
  destruct (@train_predicts_before_update R_arith R_math demo_net _ _ out e' H)
    as (e1 & Hfwd & Ha & _).
  exists out, e', e1. split; [exact H|]. split; [exact Hfwd|exact Ha].
Defined.

Lemma forward_accepts_short_inputs_witness :
  (wf demo_net ∧
   layers demo_net !! 0%nat = Some {| neurons := 2; activation := RELU |} ∧
   layers demo_net !! 1%nat = Some {| neurons := 3; activation := TANH |} ∧
   (0 < 3)%nat) ∧
  @forward R_arith R_math demo_net [1%R; 2%R; 3%R] = None ∧
  ∃ out e', @forward R_arith R_math demo_net [1%R] = Some (out, e').
Proof.
  split; [split; [exact wf_demo_net|repeat split; lia]|].
  assert ((0 < 3)%nat) as H3 by lia.
  destruct (@forward_accepts_short_inputs R_arith R_math demo_net [1%R; 2%R; 3%R]
              {| neurons := 2; activation := RELU |}
              {| neurons := 3; activation := TANH |}
              wf_demo_net eq_refl eq_refl H3) as [Hlong _].
  destruct (@forward_accepts_short_inputs R_arith R_math demo_net [1%R]
              {| neurons := 2; activation := RELU |}
              {| neurons := 3; activation := TANH |}
              wf_demo_net eq_refl eq_refl H3) as [_ Hshort].
  split.
  - apply Hlong. simpl. lia.
  - destruct Hshort as (out & acts & pres & _ & _ & _ & Hfwd & _);
      [simpl; lia|].
    by exists out, (with_forward_state demo_net acts pres).
Defined.

Lemma constructor_draws_every_parameter_witness :
  demo_layers ≠ [] ∧
  ∃ e,
    @new_MiniNeuralNet R_arith demo_random demo_layers None None 5
    = Some (e, 18%nat) ∧
    get3 (weights e) 1 2 0 = Some (demo_random 16 * Q2R 2 - Q2R 1)%R ∧
    get2 (biases e) 1 0 = Some (demo_random 17 - Q2R 0.5)%R.
Proof.
  assert (demo_layers ≠ []) as Hne by discriminate.
  split; [exact Hne|].
  destruct (@constructor_draws_every_parameter R_arith demo_random demo_layers
              None None 5 Hne) as (e & Hnew & _ & _ & Hw & Hb).
  exists e. split; [exact Hnew|]. split.
  - apply (Hw 1%nat 2%nat 0%nat); vm_compute; lia.
  - apply (Hb 1%nat 0%nat); vm_compute; lia.
Defined.

Lemma demo_random_range (k : nat) : (0 <= demo_random k < 1)%R.
Proof. unfold demo_random. lra. Qed.

Lemma constructor_parameter_ranges_witness :
  (∀ k, (0 <= demo_random k < 1)%R) ∧ demo_layers ≠ [] ∧
  ∃ e r',
    @new_MiniNeuralNet R_arith demo_random demo_layers None None 0
    = Some (e, r') ∧
    Forall (Forall (Forall (λ w : R, (-1 <= w < 1)%R))) (weights e).
Proof.
  assert (demo_layers ≠ []) as Hne by discriminate.
  split; [exact demo_random_range|]. split; [exact Hne|].
  destruct (constructor_parameter_ranges demo_random demo_layers None None 0
              demo_random_range Hne) as (e & r' & Hnew & Hw & _).
  exists e, r'. split; [exact Hnew|exact Hw].
Defined.

Lemma batch_invariant_demo_net : batch_invariant demo_net.
Proof. unfold batch_invariant. vm_compute. split; [discriminate|reflexivity]. Qed.

Lemma batch_counter_counts_modulo_witness :
  (wf demo_net ∧ batch_invariant demo_net ∧
   Forall (fits demo_net) demo_samples) ∧
  ∃ es,
    @train_all R_arith R_math demo_net demo_samples = Some es ∧
    length es = 2%nat.
Proof.
  split.
  { split; [exact wf_demo_net|].
    split; [exact batch_invariant_demo_net|exact fits_demo_samples]. }
  destruct (@batch_counter_counts_modulo R_arith R_math demo_net demo_samples
              wf_demo_net batch_invariant_demo_net fits_demo_samples)
    as (es & Hrun & Hlen & _).
  exists es. split; [exact Hrun|exact Hlen].
Defined.

Lemma learning_rate_change_keeps_batch_witness :
  (wf demo_net ∧ currentBatchCount demo_net = 0%Z ∧
   accumulators_zero demo_net ∧
   Forall (fits demo_net) (take 1 demo_samples) ∧
   Forall (fits demo_net) (drop 1 demo_samples) ∧
   (0 < length (drop 1 demo_samples))%nat ∧
   Z.of_nat (length (take 1 demo_samples) + length (drop 1 demo_samples))
   = batchSize demo_net) ∧
  ∃ es1 es2 e_B,
    @train_all R_arith R_math demo_net (take 1 demo_samples) = Some es1 ∧
    @train_all R_arith R_math
      (updateConfig (default demo_net (last es1)) (1 / 5)%R
         (batchSize demo_net))
      (drop 1 demo_samples) = Some es2 ∧
    last es2 = Some e_B ∧ currentBatchCount e_B = 0%Z.
Proof.
  assert (Forall (fits demo_net) (take 1 demo_samples)) as H1
    by (repeat constructor).
  assert (Forall (fits demo_net) (drop 1 demo_samples)) as H2
    by (repeat constructor).
  assert ((0 < length (drop 1 demo_samples))%nat) as H3 by (simpl; lia).
  assert (Z.of_nat (length (take 1 demo_samples)
                    + length (drop 1 demo_samples))
          = batchSize demo_net) as H4 by reflexivity.
  split.
  { split; [exact wf_demo_net|]. split; [reflexivity|].
    split; [exact accumulators_zero_demo_net|].
    split; [exact H1|]. split; [exact H2|]. split; [exact H3|exact H4]. }
  destruct (@learning_rate_change_keeps_batch R_arith R_math demo_net
              (take 1 demo_samples) (drop 1 demo_samples) (1 / 5)%R
              wf_demo_net eq_refl accumulators_zero_demo_net H1 H2 H3 H4)
    as (es1 & es2 & e_B & Hrun1 & _ & _ & _ & _ & Hrun2 & Hlast & _ & _ & _
        & Hc).
  exists es1, es2, e_B. split; [exact Hrun1|]. split; [exact Hrun2|].
  split; [exact Hlast|exact Hc].
Defined.

Lemma constructed_default_net :
  @new_MiniNeuralNet R_arith demo_random demo_layers None None 0
  = Some (default_net, 13%nat).
Proof. vm_compute. reflexivity. Qed.

Lemma ready_default_net : ready default_net.
Proof. exact (ready_constructed _ _ _ _ _ _ _ constructed_default_net). Qed.

Lemma small_batch_updates_every_call_witness :
  (wf default_net ∧ fits default_net demo_sample ∧
   (batchSize default_net ≤ 1)%Z ∧ (0 ≤ currentBatchCount default_net)%Z) ∧
  ∃ out e',
    @train R_arith R_math default_net (inputs demo_sample)
      (target demo_sample) = Some (out, e') ∧
    currentBatchCount e' = 0%Z ∧ accumulators_zero e'.
Proof.
  assert (fits default_net demo_sample) as Hfits by (split; reflexivity).
  assert ((batchSize default_net ≤ 1)%Z) as HB by (vm_compute; discriminate).
  assert ((0 ≤ currentBatchCount default_net)%Z) as Hc
    by (vm_compute; discriminate).
  split.
  { split; [exact (ready_wf _ ready_default_net)|].
    split; [exact Hfits|]. split; [exact HB|exact Hc]. }
  destruct (@small_batch_updates_every_call R_arith R_math default_net
              demo_sample (ready_wf _ ready_default_net) Hfits HB Hc)
    as (out & e' & Htrain & _ & Hc' & Hzero & _).
  exists out, e'. split; [exact Htrain|]. split; [exact Hc'|exact Hzero].
Defined.

Lemma call_fits_demo_calls : Forall (call_fits demo_net) demo_calls.
Proof. repeat constructor. Qed.

Lemma fitting_calls_never_fail_witness :
  (@new_MiniNeuralNet R_arith demo_random demo_layers (Some (1 / 10)%R)
     (Some 2%Z) 0 = Some (demo_net, 13%nat) ∧
   Forall (call_fits demo_net) demo_calls) ∧
  ∃ e, @calls R_arith R_math demo_net demo_calls = Some e ∧
       layers e = demo_layers.
Proof.
  split; [split; [exact constructed_demo_net|exact call_fits_demo_calls]|].
  destruct (@fitting_calls_never_fail R_arith R_math demo_random demo_layers
              (Some (1 / 10)%R) (Some 2%Z) 0%nat demo_net 13%nat demo_calls
              constructed_demo_net call_fits_demo_calls)
    as (e & Hrun & Hl & _).
  exists e. split; [exact Hrun|exact Hl].
Defined.

Lemma snapshot_reports_state_witness :
  ready demo_net ∧
  ∃ snap,
    getVisualizationData demo_net = Some snap ∧
    length (snap_neurons snap) = 6%nat ∧
    length (snap_connections snap) = 9%nat.
Proof.
  split; [exact ready_demo_net|].
  destruct (@snapshot_reports_state R_arith demo_net ready_demo_net)
    as (Hsnap & Hn & Hc & _).
  eexists. split; [exact Hsnap|]. cbn [snap_neurons snap_connections].
  split; [rewrite Hn|rewrite Hc]; vm_compute; reflexivity.
Defined.

Lemma snapshot_identifiers_are_keys_witness :
  ready demo_net ∧
  ∃ snap,
    getVisualizationData demo_net = Some snap ∧
    NoDup (Neuron.id <$> snap_neurons snap) ∧
    NoDup (Connection.id <$> snap_connections snap).
Proof.
  split; [exact ready_demo_net|].
  destruct (@snapshot_identifiers_are_keys R_arith demo_net ready_demo_net)
    as (snap & Hsnap & Hn & Hc & _).
  exists snap. split; [exact Hsnap|]. split; [exact Hn|exact Hc].
Defined.

Lemma generated_samples_fit_witness :
  (neurons (layer_at demo_net 0) = 2%nat ∧
   neurons (layer_at demo_net (length (layers demo_net) - 1)) = 1%nat) ∧
  Forall (fits demo_net)
    (@generateData R_arith R_math demo_random QUADRANTS None 0).1.
Proof.
  split; [split; reflexivity|].
  exact (@generated_samples_fit R_arith R_math demo_random QUADRANTS None 0
           demo_net eq_refl eq_refl).
Defined.

Lemma quadrants_points_alternate_witness :
  (∀ k, (0 <= demo_random k < 1)%R) ∧
  ∃ p x y,
    (@generateData R_arith R_math demo_random QUADRANTS None 0).1 !! 3%nat
    = Some p ∧
    inputs p = [x; y] ∧ (1 / 2 <= x < 9 / 10)%R ∧ target p = [1%R].
Proof.
  split; [exact demo_random_range|].
  assert (is_Some ((@generateData R_arith R_math demo_random QUADRANTS None
                      0).1 !! 3%nat)) as [p Hp] by (eexists; reflexivity).
  destruct (quadrants_points_alternate demo_random None 0 demo_random_range
              3 p Hp) as (x & y & Hin & _ & Hx & Ht).
  exists p, x, y. split; [exact Hp|]. split; [exact Hin|].
  split; [exact Hx|exact Ht].
Defined.

Lemma circle_points_on_two_rings_witness :
  (CIRCLE ≠ XOR ∧ CIRCLE ≠ QUADRANTS) ∧
  ∃ pts,
    @generateData R_arith R_math demo_random CIRCLE None 7 = (pts, 7%nat) ∧
    length pts = 8%nat.
Proof.
  assert (CIRCLE ≠ XOR) as H1 by discriminate.
  assert (CIRCLE ≠ QUADRANTS) as H2 by discriminate.
  split; [split; [exact H1|exact H2]|].
  destruct (circle_points_on_two_rings demo_random CIRCLE None 7 H1 H2)
    as (pts & Hrun & Hlen & _).
  exists pts. split; [exact Hrun|exact Hlen].
Defined.

Lemma driver_ready_demo_driver : driver_ready demo_driver.
Proof.
  split; [exact ready_demo_net|]. split; [discriminate|].
  split; [repeat constructor|]. vm_compute. lia.
Qed.

Lemma performStep_cycles_through_data_witness :
  driver_ready demo_driver ∧
  ∃ latest d',
    @performSteps R_arith R_math R_mathpow 10 demo_driver
    = Some (latest, d') ∧
    stepIndexRef d' = 10%nat ∧
    ∃ stats, latest = Some stats ∧ Step.index stats = 1%nat ∧
             Step.epoch stats = 1%nat.
Proof.
  split; [exact driver_ready_demo_driver|].
  destruct (@performStep_cycles_through_data R_arith R_math R_mathpow 10
              demo_driver) as [_ H].
  destruct (H driver_ready_demo_driver)
    as (latest & d' & es & Hrun & _ & Hidx & _ & _ & _ & _ & Hlatest).
  destruct Hlatest as (stats & Hl & Hi & He & _); [lia|].
  exists latest, d'. split; [exact Hrun|]. split; [exact Hidx|].
  exists stats. split; [exact Hl|]. split; [exact Hi|exact He].
Defined.

Lemma fast_frame_keeps_batch_progress_witness :
  (driver_ready demo_driver ∧ batch_invariant (nnRef demo_driver)) ∧
  ∃ d' stats',
    @fastFrame R_arith R_math R_mathpow (batchSize (nnRef demo_driver))
      demo_driver (initialStats 2) = Some (d', stats') ∧
    stepIndexRef d' = 2%nat ∧
    TrainingStats.batchProgress stats' = 0%Z.
Proof.
  split; [split; [exact driver_ready_demo_driver
                 |exact batch_invariant_demo_net]|].
  destruct (@fast_frame_keeps_batch_progress R_arith R_math R_mathpow
              demo_driver (initialStats 2) driver_ready_demo_driver
              batch_invariant_demo_net)
    as (d' & stats' & Hrun & Hidx & _ & _ & Hb).
  exists d', stats'. split; [exact Hrun|]. split; [exact Hidx|exact Hb].
Defined.


Lemma reset_network_can_train_witness :
  (neurons_at (NetworkConfig.layers demo_config) 0 = 2%nat ∧
   neurons_at (NetworkConfig.layers demo_config)
     (length (NetworkConfig.layers demo_config) - 1) = 1%nat) ∧
  ∃ d stats visData r',
    @resetNetwork R_arith R_math demo_random demo_config 0
    = Some (d, stats, visData, r') ∧
    ∃ latest d', @performSteps R_arith R_math R_mathpow 100 d
                 = Some (latest, d').
Proof.
  split; [split; reflexivity|].
  destruct (@reset_network_can_train R_arith R_math R_mathpow demo_random
              demo_config 0 100 eq_refl eq_refl)
    as (d & stats & visData & r' & Hreset & _ & _ & _ & _ & _ & _ & _ & Hrun).
  exists d, stats, visData, r'. split; [exact Hreset|exact Hrun].
Defined.

Lemma manual_step_keeps_history_witness :
  driver_ready demo_driver ∧
  ∃ d' stats',
    @handleManualStep R_arith R_math R_mathpow 2 demo_driver (initialStats 2)
    = Some (d', stats') ∧
    stepIndexRef d' = 1%nat ∧ TrainingStats.history stats' = [].
Proof.
  split; [exact driver_ready_demo_driver|].
  destruct (@manual_step_keeps_history R_arith R_math R_mathpow 2 demo_driver
              (initialStats 2) driver_ready_demo_driver)
    as (d' & stats' & row & out & Hrun & _ & _ & _ & Hidx & _ & _ & _ & _
        & Hh & _).
  exists d', stats'. split; [exact Hrun|]. split; [exact Hidx|exact Hh].
Defined.





Lemma removeLayer_undoes_addLayer_witness :
  (2 ≤ length demo_layers)%nat ∧
  addLayer demo_layers
  = Some [ {| neurons := 2; activation := RELU |};
           {| neurons := 3; activation := TANH |};
           {| neurons := 4; activation := TANH |};
           {| neurons := 1; activation := SIGMOID |} ] ∧
  removeLayer [ {| neurons := 2; activation := RELU |};
                {| neurons := 3; activation := TANH |};
                {| neurons := 4; activation := TANH |};
                {| neurons := 1; activation := SIGMOID |} ] = demo_layers.
Proof.
  assert ((2 ≤ length demo_layers)%nat) as Hlen by (simpl; lia).
  split; [exact Hlen|].
  destruct (removeLayer_undoes_addLayer demo_layers) as (_ & _ & H).
  destruct (H Hlen) as (init & out & Heq & Hadd & Hrem).
  assert (init = [ {| neurons := 2; activation := RELU |};
                   {| neurons := 3; activation := TANH |} ]
          ∧ out = {| neurons := 1; activation := SIGMOID |}) as [-> ->].
  { change demo_layers
      with ([ {| neurons := 2; activation := RELU |};
              {| neurons := 3; activation := TANH |} ]
            ++ [ {| neurons := 1; activation := SIGMOID |} ]) in Heq.
    apply app_inj_tail in Heq as [<- <-]. done. }
  split; [exact Hadd|exact Hrem].
Defined.

Lemma layer_edits_keep_the_ends_witness :
  ((2 ≤ length demo_layers)%nat ∧
   hidden_edit demo_layers (EditNeurons 1 9)) ∧
  ∃ ls',
    applyEdit demo_layers (EditNeurons 1 9) = Some ls' ∧
    ls' !! 0%nat = Some {| neurons := 2; activation := RELU |} ∧
    last ls' = Some {| neurons := 1; activation := SIGMOID |}.
Proof.
  assert ((2 ≤ length demo_layers)%nat) as Hlen by (simpl; lia).
  assert (hidden_edit demo_layers (EditNeurons 1 9)) as Hed by (simpl; lia).
  split; [split; [exact Hlen|exact Hed]|].
  destruct (layer_edits_keep_the_ends demo_layers (EditNeurons 1 9) Hlen Hed)
    as (ls' & Hrun & _ & H0 & Hlast & _).
  exists ls'. split; [exact Hrun|]. split; [exact H0|exact Hlast].
Defined.

Lemma weights_demo_net_output :
  ∃ (W : list (list R)) (w0 : R),
    weights demo_net !! 1%nat = Some W ∧ get2 W 0 0 = Some w0.
Proof.
  assert (is_Some (get3 (weights demo_net) 1 0 0)) as [w0 Hw0]
    by by_computation.
  rewrite get3_unfold in Hw0.
  destruct (weights demo_net !! 1%nat) as [W|] eqn:HW; [|discriminate Hw0].
  by exists W, w0.
Qed.

Lemma biases_demo_net_output :
  ∃ (b : list R) (bk : R),
    biases demo_net !! 1%nat = Some b ∧ b !! 0%nat = Some bk.
Proof.
  assert (is_Some (get2 (biases demo_net) 1 0)) as [bk Hbk]
    by by_computation.
  unfold get2 in Hbk.
  destruct (biases demo_net !! 1%nat) as [b|] eqn:Hb; [|discriminate Hbk].
  by exists b, bk.
Qed.

Lemma output_gradients_are_derivatives_witness :
  ∃ out e' (W : list (list R)) (b prev : list R) (w0 bk tk : R),
    (wf demo_net ∧
     @train R_arith R_math demo_net (inputs demo_sample) (target demo_sample)
     = Some (out, e') ∧
     weights demo_net !! 1%nat = Some W ∧ biases demo_net !! 1%nat = Some b ∧
     activations e' !! 1%nat = Some prev ∧ get2 W 0 0 = Some w0 ∧
     b !! 0%nat = Some bk ∧ target demo_sample !! 0%nat = Some tk) ∧
    derivable_pt_lim
      (λ w, half_squared_error
              (@activate R_arith R_math SIGMOID
                 (@weighted_sum R_arith bk prev
                    (@weight_changed R_arith W 0 0 w) 0)) tk)
      w0 (@at3 R_arith (weightGradients e') 1 0 0) ∧
    derivable_pt_lim
      (λ β, half_squared_error
              (@activate R_arith R_math SIGMOID
                 (@weighted_sum R_arith β prev W 0)) tk)
      bk (@at2 R_arith (neuronGradients e') 2 0).
Proof.
  destruct train_demo_net as (out & e' & Htrain).
  destruct (weights_demo_net_output) as (W & w0 & HW & Hw0).
  destruct (biases_demo_net_output) as (b & bk & Hb & Hbk).
  destruct (@train_spec R_arith R_math demo_net (inputs demo_sample)
              (target demo_sample)
              {| neurons := 2; activation := RELU |} wf_demo_net eq_refl
              eq_refl eq_refl)
    as (out1 & e1 & accW & accB & Htrain1 & _ & _ & _ & _ & Hfc & _).
  assert (e1 = e') as -> by congruence.
  destruct Hfc as (_ & _ & _ & _ & Hlayer).
  destruct (Hlayer 1%nat {| neurons := 1; activation := SIGMOID |} eq_refl)
    as (prev & _ & _ & _ & _ & Hprev & _).
  exists out, e', W, b, prev, w0, bk, (Q2R 1).
  split.
  { split; [exact wf_demo_net|]. split; [exact Htrain|].
    split; [exact HW|]. split; [exact Hb|]. split; [exact Hprev|].
    split; [exact Hw0|]. split; [exact Hbk|reflexivity]. }
  apply (output_gradients_are_derivatives demo_net (inputs demo_sample)
           (target demo_sample) out e' 1 0 0
           {| neurons := 1; activation := SIGMOID |} W b prev w0 bk (Q2R 1)
           wf_demo_net eq_refl eq_refl Htrain eq_refl eq_refl HW Hb Hprev Hw0
           Hbk eq_refl).
  intros H. discriminate H.
Defined.
